(** * SQLPapers: a list-like container of Papers over a PostgreSQL table

    Shallow embedding of [tethne/persistence/psql/paper.py].

    The Python object [SQLPapers] is a [list] of row identifiers together
    with a table name and the column names of that table.  Every method
    talks to the database through a psycopg2 connection.  The embedding
    threads the connection state explicitly and records, next to it, the
    statements each call sends, so that statements such as "no lookup is
    attempted" can be stated about the model.

    What is modelled of the collaborators the module imports:
    - psycopg2 / PostgreSQL: tables with the schema of [PAPER_TABLE], a
      serial primary key, UNIQUE columns, the "current transaction is
      aborted" state of a connection, and the text of a unique violation;
    - [re.search] for the one pattern the module uses;
    - the [Paper] class: see [paper_fields].

    The model and PostgreSQL agree on the following domain, and the
    properties that depend on it say so in their hypotheses:
    - values: a cell keeps the Python value that was inserted, and cells
      are compared as Python values.  PostgreSQL does the same for a value
      of the type of its column; a value of another type it converts (the
      number 77 in a [text] column is stored and compared as '77') or
      refuses with [DataError] (a [date] outside the 32-bit integers).
      [typed_record] and [good_record] single out the Records whose values
      have the types of their columns;
    - names: a table is found under the name as it is written.
      PostgreSQL folds an unquoted name to lower case and cuts it after 63
      characters; [plain_identifier] singles out the names it reads as
      they are written.  The names the constructor makes up are such
      names. *)

From stdpp Require Import gmap strings list fin_maps pretty.
From Stdlib Require Import ZArith String Ascii Lia.

#[local] Set Warnings "-register-all".
#[local] Open Scope Z_scope.

(** ** Python values *)

Inductive value :=
| VNone
| VStr (s : string)
| VInt (z : Z)
| VList (l : list value)
| VPaper (p : gmap string value).

(** A [Paper] is used by the module as a mapping from field names to
    values ([obj['citations']], [citation.iteritems()], [paper[key] = value]). *)
Abbreviation Paper := (gmap string value).

Inductive exn :=
| IndexError
| KeyError (msg : string)
| ValueError (msg : string)
| TypeError
| AttributeError
| ProgrammingError
| DataError
| InternalError
| IntegrityError (msg : string).

(** [Fuel] is not a Python outcome: it marks a run of the model that was
    given too small a recursion budget. *)
Inductive outcome (A : Type) :=
| Return (a : A)
| Raise (e : exn)
| Fuel.
Arguments Return {A} a.
Arguments Raise {A} e.
Arguments Fuel {A}.

(** ** The schema: [PAPER_TABLE] *)

Definition paper_columns : list string :=
  [ "id"; "aulast"; "auinit"; "auuri"; "institutions"; "atitle"; "jtitle";
    "volume"; "issue"; "spage"; "epage"; "date"; "ayjid"; "uri"; "doi";
    "pmid"; "wosid"; "eid"; "abstract"; "contents"; "topics"; "accession";
    "citations" ]%string.

(** Columns with a unique index, in the order the indexes are created:
    the primary key first, then the [UNIQUE] columns. *)
Definition unique_columns : list string :=
  [ "id"; "uri"; "doi"; "pmid"; "wosid"; "eid" ]%string.

(** Modelled from the spec: the [Paper] class ([tethne.classes]) is not in
    the sources.  A Record's field set is the schema's columns without the
    primary key; assigning any other field fails. *)
Definition paper_fields : list string :=
  [ "aulast"; "auinit"; "auuri"; "institutions"; "atitle"; "jtitle";
    "volume"; "issue"; "spage"; "epage"; "date"; "ayjid"; "uri"; "doi";
    "pmid"; "wosid"; "eid"; "abstract"; "contents"; "topics"; "accession";
    "citations" ]%string.

(** [paper[key] = value]; [None] when the assignment raises. *)
Definition paper_setitem (p : Paper) (key : value) (v : value) : option Paper :=
  match key with
  | VStr k => if bool_decide (k ∈ paper_fields) then Some (<[k := v]> p) else None
  | _ => None
  end.

(** ** The database *)

Record table := mkTable {
  t_rows : list (list value);   (* tuples, in the order a scan returns them *)
  t_serial : Z                  (* last value of the [id] sequence *)
}.

Record conn := mkConn {
  tables : gmap string table;
  failed : bool;                (* a statement failed and no commit followed *)
  dbname : string
}.

Inductive stmt :=
| CreateTable (t : string)
| SelectIds (t : string)
| SelectColumns (t : string)
| SelectById (t : string) (id : value)
| SelectAll (t : string)
| Insert (t : string) (vals : gmap string value)
| SelectIdWhere (t col : string) (v : value)
| Commit.

Definition is_ddl (s : stmt) : bool :=
  match s with CreateTable _ => true | _ => false end.

Definition is_insert (s : stmt) : bool :=
  match s with Insert _ _ => true | _ => false end.

Definition is_select (s : stmt) : bool :=
  match s with
  | SelectIds _ | SelectColumns _ | SelectById _ _ | SelectAll _
  | SelectIdWhere _ _ _ => true
  | _ => false
  end.

(** *** Strings of the driver *)

Definition newline : string := String "010"%char EmptyString.
Definition dquote : string := String "034"%char EmptyString.

Definition render (v : value) : string :=
  match v with
  | VStr s => s
  | VInt z => pretty z
  | _ => EmptyString
  end.

(** Text of PostgreSQL's unique violation on column [col] of table [t]. *)
Definition unique_violation (t col : string) (v : value) : string :=
  "duplicate key value violates unique constraint " +:+ dquote +:+
  t +:+ "_" +:+ col +:+ (if String.eqb col "id" then "_pkey" else "_key") +:+
  dquote +:+ newline +:+
  "DETAIL:  Key (" +:+ col +:+ ")=(" +:+ render v +:+ ") already exists." +:+
  newline.

Definition not_null_violation (col : string) : string :=
  "null value in column " +:+ dquote +:+ col +:+ dquote +:+
  " violates not-null constraint" +:+ newline.

(** *** Rows *)

Fixpoint index_of (c : string) (cols : list string) : option nat :=
  match cols with
  | [] => None
  | c' :: cols' =>
      if String.eqb c c' then Some O else S <$> index_of c cols'
  end.

Definition cell (r : list value) (c : string) : value :=
  match index_of c paper_columns with
  | Some i => default VNone (r !! i)
  | None => VNone
  end.

(** SQL [=] on the scalar columns the module compares ([id] and the
    natural keys); a comparison with NULL is never true.  The two values
    are compared as they are: this is the comparison of PostgreSQL where
    both have the type of the column (two integers for [id], two strings
    for a natural key).  A value of another type PostgreSQL would first
    convert to the type of the column. *)
Definition sql_eq (a b : value) : bool :=
  match a, b with
  | VInt x, VInt y => bool_decide (x = y)
  | VStr x, VStr y => String.eqb x y
  | _, _ => false
  end.

Definition row_of (idv : value) (vals : gmap string value) : list value :=
  (fun c => if String.eqb c "id" then idv else default VNone (vals !! c))
    <$> paper_columns.

(** First unique column on which [r] collides with a row of [rows]. *)
Fixpoint first_conflict (ucols : list string) (rows : list (list value))
    (r : list value) : option string :=
  match ucols with
  | [] => None
  | c :: ucols' =>
      if existsb (fun r' => sql_eq (cell r' c) (cell r c)) rows
      then Some c
      else first_conflict ucols' rows r
  end.

(** Does the column list of an INSERT name a column the table lacks? *)
Definition undefined_column (vals : gmap string value) : bool :=
  negb (bool_decide (map_Forall (λ k _, k ∈ paper_columns) vals)).

(** ** Computations

    A computation takes a state and returns an outcome, the new state and
    the statements it sent to the database, oldest first.  The state is the
    connection for code that only talks to the database, and the pair of
    the list object and the connection for the methods that change the
    list. *)

Definition M (S A : Type) : Type := S → outcome A * S * list stmt.

Definition ret {S A} (a : A) : M S A := λ s, (Return a, s, []).
Definition raise {S A} (e : exn) : M S A := λ s, (Raise e, s, []).
Definition out_of_fuel {S A} : M S A := λ s, (Fuel, s, []).

Definition bind {S A B} (m : M S A) (k : A → M S B) : M S B :=
  λ s,
    match m s with
    | (Return a, s1, tr1) =>
        let '(o, s2, tr2) := k a s1 in (o, s2, tr1 ++ tr2)
    | (Raise e, s1, tr1) => (Raise e, s1, tr1)
    | (Fuel, s1, tr1) => (Fuel, s1, tr1)
    end.

Notation "'let*' x ':=' m 'in' k" := (bind m (λ x, k))
  (at level 10, x name, m at level 100, k at level 200).
Notation "m '>>' k" := (bind m (λ _, k))
  (at level 100, k at level 200, right associativity).

(** [try: m except ...: h]; [h e = None] when no clause matches [e]. *)
Definition try_except {S A} (m : M S A) (h : exn → option (M S A)) : M S A :=
  λ s,
    match m s with
    | (Raise e, s1, tr1) =>
        match h e with
        | Some k => let '(o, s2, tr2) := k s1 in (o, s2, tr1 ++ tr2)
        | None => (Raise e, s1, tr1)
        end
    | r => r
    end.

Definition on_integrity {S A} (k : string → M S A) (e : exn)
    : option (M S A) :=
  match e with IntegrityError msg => Some (k msg) | _ => None end.

Definition on_programming {S A} (k : M S A) (e : exn) : option (M S A) :=
  match e with ProgrammingError => Some k | _ => None end.

Fixpoint mapM {S A B} (f : A → M S B) (l : list A) : M S (list B) :=
  match l with
  | [] => ret []
  | x :: l' => let* y := f x in let* ys := mapM f l' in ret (y :: ys)
  end.

Abbreviation Db := (M conn).

(** ** Statements *)

(** A cursor after [execute]: the result set, or [None] when the statement
    returns no rows at all (DDL). *)
Definition cursor := option (list (list value)).

Definition fail_stmt {A} (e : exn) (c : conn) : outcome A * conn :=
  (Raise e, mkConn (tables c) true (dbname c)).

(** The id an INSERT gives the new row, and the new value of the sequence. *)
Definition insert_id (tb : table) (vals : gmap string value)
    : outcome value * Z :=
  match vals !! "id" with
  | None => (Return (VInt (t_serial tb + 1)), t_serial tb + 1)
  | Some (VInt z) => (Return (VInt z), t_serial tb)
  | Some VNone => (Raise (IntegrityError (not_null_violation "id")), t_serial tb)
  | Some _ => (Raise DataError, t_serial tb)
  end.

Definition set_table (c : conn) (t : string) (tb : table) : conn :=
  mkConn (<[t := tb]> (tables c)) (failed c) (dbname c).

(** INSERT ... RETURNING id.  The values are stored as they are given:
    this is what PostgreSQL does with values of the types of the columns
    (see [typed_record] below); it converts or refuses others. *)
Definition run_insert (t : string) (vals : gmap string value) (c : conn)
    : outcome cursor * conn :=
  match tables c !! t with
  | None => fail_stmt ProgrammingError c
  | Some tb =>
      if bool_decide (vals = ∅) then fail_stmt ProgrammingError c
      else if undefined_column vals then fail_stmt ProgrammingError c
      else
        match insert_id tb vals with
        | (Return idv, serial) =>
            let r := row_of idv vals in
            match first_conflict unique_columns (t_rows tb) r with
            | Some col =>
                fail_stmt
                  (IntegrityError (unique_violation t col (cell r col)))
                  (set_table c t (mkTable (t_rows tb) serial))
            | None =>
                (Return (Some [[idv]]),
                 set_table c t (mkTable (t_rows tb ++ [r]) serial))
            end
        | (Raise e, _) => fail_stmt e c
        | (Fuel, _) => (Fuel, c)
        end
  end.

(** One statement on a connection.  A table is looked up under its name
    as it is written in the statement, which is how PostgreSQL reads a
    [plain_identifier]. *)
Definition run (s : stmt) (c : conn) : outcome cursor * conn :=
  match s with
  | Commit => (Return None, mkConn (tables c) false (dbname c))
  | _ =>
    if failed c then (Raise InternalError, c) else
    match s with
    | CreateTable t =>
        match tables c !! t with
        | Some _ => fail_stmt ProgrammingError c
        | None => (Return None, set_table c t (mkTable [] 0))
        end
    | SelectIds t =>
        match tables c !! t with
        | None => fail_stmt ProgrammingError c
        | Some tb => (Return (Some ((λ r, [cell r "id"]) <$> t_rows tb)), c)
        end
    | SelectColumns t =>
        match tables c !! t with
        | None => (Return (Some []), c)
        | Some _ =>
            (Return (Some ((λ col, [VStr (dbname c); VStr "public"; VStr t;
                                    VStr col]) <$> paper_columns)), c)
        end
    | SelectById t id =>
        match tables c !! t with
        | None => fail_stmt ProgrammingError c
        | Some tb =>
            (Return (Some (filter (λ r, sql_eq (cell r "id") id = true)
                                  (t_rows tb))), c)
        end
    | SelectAll t =>
        match tables c !! t with
        | None => fail_stmt ProgrammingError c
        | Some tb => (Return (Some (t_rows tb)), c)
        end
    | Insert t vals => run_insert t vals c
    | SelectIdWhere t col v =>
        match tables c !! t with
        | None => fail_stmt ProgrammingError c
        | Some tb =>
            if bool_decide (col ∈ paper_columns) then
              (Return (Some ((λ r, [cell r "id"]) <$>
                             filter (λ r, sql_eq (cell r col) v = true)
                                    (t_rows tb))), c)
            else fail_stmt ProgrammingError c
        end
    | Commit => (Return None, c)
    end
  end.

Arguments run : simpl never.

(** [cur.execute(...)] and [conn.commit()]. *)
Definition execute (s : stmt) : Db cursor :=
  λ c, let '(o, c') := run s c in (o, c', [s]).

Definition commit : Db unit := execute Commit >> ret tt.

(** [cur.fetchone()]: psycopg2 raises ProgrammingError when the statement
    produced no result set, and returns [None] when no row is left. *)
Definition fetchone {S} (cur : cursor) : M S (option (list value)) :=
  match cur with
  | None => raise ProgrammingError
  | Some [] => ret None
  | Some (r :: _) => ret (Some r)
  end.

(** [for row in cur]. *)
Definition cursor_rows {S} (cur : cursor) : M S (list (list value)) :=
  match cur with
  | None => raise ProgrammingError
  | Some rows => ret rows
  end.

(** [x[i]] on what [fetchone] returned or on a tuple. *)
Definition subscript {S} (x : option (list value)) (i : nat) : M S value :=
  match x with
  | None => raise TypeError
  | Some r => match r !! i with Some v => ret v | None => raise IndexError end
  end.

(** [int(x)] for the values a cursor returns in the [id] column. *)
Definition py_int {S} (v : value) : M S Z :=
  match v with
  | VInt z => ret z
  | _ => raise TypeError
  end.

(** [for x in v]: the elements Python iterates over. *)
Definition py_iter {S} (v : value) : M S (list value) :=
  match v with
  | VList l => ret l
  | VStr s => ret ((λ a, VStr (String a EmptyString)) <$> list_ascii_of_string s)
  | _ => raise TypeError
  end.

(** ** [re.search('Key \\((.*?)\\)', error).group(1)] *)

(** The lazy group followed by a closing parenthesis: the text up to the
    first [)], which must come before the end of the line. *)
Fixpoint lazy_group (s : string) : option string :=
  match s with
  | EmptyString => None
  | String a s' =>
      if Ascii.eqb a ")" then Some EmptyString
      else if Ascii.eqb a "010" then None
      else String a <$> lazy_group s'
  end.

Definition match_here (s : string) : option string :=
  match s with
  | String "K" (String "e" (String "y" (String " " (String "(" s')))) =>
      lazy_group s'
  | _ => None
  end.

(** Leftmost match. *)
Fixpoint re_search_key (s : string) : option string :=
  match match_here s with
  | Some g => Some g
  | None =>
      match s with
      | EmptyString => None
      | String _ s' => re_search_key s'
      end
  end.

(** ** [str(uuid.uuid4()).replace('-', '_')]

    The random 128-bit number is an argument of the model. *)

Definition hex_digit (n : N) : ascii :=
  nth (N.to_nat n) (list_ascii_of_string "0123456789abcdef") "0"%char.

(** [k] hexadecimal digits of [u], most significant first. *)
Fixpoint hex (k : nat) (u : N) : string :=
  match k with
  | O => EmptyString
  | S k' => hex k' (u / 16)%N +:+ String (hex_digit (u mod 16)%N) EmptyString
  end.

Definition uuid_str (u : N) : string :=
  let h := hex 32 u in
  substring 0 8 h +:+ "-" +:+ substring 8 4 h +:+ "-" +:+
  substring 12 4 h +:+ "-" +:+ substring 16 4 h +:+ "-" +:+ substring 20 12 h.

Fixpoint replace_char (a b : ascii) (s : string) : string :=
  match s with
  | EmptyString => EmptyString
  | String x s' => String (if Ascii.eqb x a then b else x) (replace_char a b s')
  end.

Definition fresh_name (u : N) : string :=
  "tethne_papers_" +:+ replace_char "-" "_" (uuid_str u).

(** ** Characters of a string *)

Fixpoint all_chars (P : ascii → bool) (s : string) : bool :=
  match s with
  | EmptyString => true
  | String a s' => P a && all_chars P s'
  end.

(** Lower-case letters, digits and the underscore. *)
Definition is_ident_char (a : ascii) : bool :=
  let n := nat_of_ascii a in
  ((97 <=? n)%nat && (n <=? 122)%nat) ||
  ((48 <=? n)%nat && (n <=? 57)%nat) ||
  (n =? 95)%nat.

(** A name that PostgreSQL reads as it is written when it stands unquoted
    in a statement: it starts with a lower-case letter or an underscore,
    consists of lower-case letters, digits and underscores, and is not
    longer than the 63 characters an identifier keeps. *)
Definition plain_identifier (t : string) : bool :=
  match t with
  | EmptyString => false
  | String a _ =>
      negb ((48 <=? nat_of_ascii a)%nat && (nat_of_ascii a <=? 57)%nat) &&
      all_chars is_ident_char t &&
      (String.length t <=? 63)%nat
  end.

(** ** The class *)

Record SQLPapers := mkStore {
  name : string;          (* self.name *)
  cols : list value;      (* self.cols *)
  rowIds : list value     (* the list itself *)
}.

Abbreviation Method := (M (SQLPapers * conn)).

Definition lift {A} (m : Db A) : Method A :=
  λ w, let '(o, c', tr) := m w.2 in (o, (w.1, c'), tr).

Definition get_self : Method SQLPapers := λ w, (Return w.1, w, []).

(** [list.append(self, id)]. *)
Definition list_append (id : value) : Method unit :=
  λ w, (Return tt,
        (mkStore (name w.1) (cols w.1) (rowIds w.1 ++ [id]), w.2), []).

Definition citations_of (t : string) : string := t +:+ "_citations".

(** [SQLPapers.__init__(conn, dbparams, table)]; [u] is what [uuid4]
    draws when no table is given. *)
Definition init (table : option string) (u : N) : Db SQLPapers :=
  let* this :=
    match table with
    | None =>
        let name := fresh_name u in
        execute (CreateTable name) >>
        commit >>
        execute (CreateTable (citations_of name)) >>
        commit >>
        ret (name, [])
    | Some t =>
        let* cur := execute (SelectIds t) in
        let* rows := cursor_rows cur in
        let* ids := mapM (λ id, subscript (Some id) 0) rows in
        ret (t, ids)
    end in
  let* cur := execute (SelectColumns this.1) in
  let* rows := cursor_rows cur in
  let* cols := mapM (λ col, subscript (Some col) 3) rows in
  ret (mkStore this.1 cols this.2).

(** [list.__getitem__(self, key)] for an integer key. *)
Definition list_getitem {S A} (l : list A) (key : Z) : M S A :=
  let n := Z.of_nat (List.length l) in
  let i := if key <? 0 then key + n else key in
  if (0 <=? i) && (i <? n) then
    match l !! Z.to_nat i with
    | Some x => ret x
    | None => raise IndexError
    end
  else raise IndexError.

(** [key == 'citations' and value is not None]. *)
Definition is_citations (key value : value) : bool :=
  match key with
  | VStr k =>
      String.eqb k "citations" &&
      match value with VNone => false | _ => true end
  | _ => false
  end.

Section yield.
(** [citations.__get_by_id(k)] of the recursive call. *)
Variable resolve : SQLPapers → value → Db Paper.
Variable self : SQLPapers.

(** The body of the loop of [_yield_paper]. *)
Definition yield_field (paper : Paper) (key value : value) : Db Paper :=
  let* value :=
    if is_citations key value then
      let* citations := init (Some (citations_of (name self))) 0%N in
      let* ks := py_iter value in
      let* ps := mapM (resolve citations) ks in
      ret (VList (VPaper <$> ps))
    else ret value in
  ret (default paper (paper_setitem paper key value)).

Fixpoint yield_fields (i : nat) (data : list value) (paper : Paper)
    : Db Paper :=
  match data with
  | [] => ret paper
  | value :: data' =>
      match cols self !! i with
      | None => raise IndexError
      | Some key =>
          let* paper := yield_field paper key value in
          yield_fields (S i) data' paper
      end
  end.

(** [_yield_paper(self, data)]; [Paper()] starts as the empty mapping. *)
Definition yield_paper (data : option (list value)) : Db Paper :=
  match data with
  | None => raise TypeError            (* len(None) *)
  | Some data => yield_fields 0 data ∅
  end.
End yield.

(** [__get_by_id(self, id)].  The recursion goes through the store of the
    citation table; [fuel] bounds its depth. *)
Fixpoint get_by_id (fuel : nat) (self : SQLPapers) (id : value) : Db Paper :=
  match fuel with
  | O => out_of_fuel
  | S fuel' =>
      let* cur := execute (SelectById (name self) id) in
      let* data :=
        try_except (fetchone cur)
          (on_programming (raise (KeyError "No Paper with that ID exists."))) in
      yield_paper (get_by_id fuel') self data
  end.

(** [__getitem__(self, key)]. *)
Definition getitem (fuel : nat) (self : SQLPapers) (key : Z) : Db Paper :=
  let* id := list_getitem (rowIds self) key in
  get_by_id fuel self id.

(** The body of the citation loop of [append]; [None] is [continue]. *)
Definition append_citation (self : SQLPapers) (citation : value)
    : Db (option Z) :=
  match citation with
  | VPaper p =>
      let vals := delete "citations" p in
      let cname := citations_of (name self) in
      let* id :=
        try_except
          (let* cur := execute (Insert cname vals) in
           let* row := fetchone cur in
           let* id := subscript row 0 in
           commit >> ret (Some id))
          (on_integrity (λ error,
             commit >>
             match re_search_key error with
             | None => ret None
             | Some ckey =>
                 let* cval :=
                   match vals !! ckey with
                   | Some v => ret v
                   | None => raise (KeyError ckey)
                   end in
                 let* cur := execute (SelectIdWhere cname ckey cval) in
                 let* row := fetchone cur in
                 let* id := subscript row 0 in
                 ret (Some id)
             end)) in
      match id with
      | None => ret None
      | Some id => let* z := py_int id in ret (Some z)
      end
  | _ => raise AttributeError           (* citation.iteritems() *)
  end.

Fixpoint append_citations (self : SQLPapers) (citations : list value)
    (cit_ids : list Z) : Db (list Z) :=
  match citations with
  | [] => ret cit_ids
  | citation :: rest =>
      let* r := append_citation self citation in
      append_citations self rest
        (match r with Some z => cit_ids ++ [z] | None => cit_ids end)
  end.

(** The citation phase of [append]: the value of [cit_ids]. *)
Definition citation_phase (self : SQLPapers) (citations : value) : Db value :=
  match citations with
  | VNone => ret VNone
  | _ =>
      let* cs := py_iter citations in
      let* ids := append_citations self cs [] in
      ret (VList (VInt <$> ids))
  end.

Definition primary_vals (obj : Paper) (cit_ids : value) : gmap string value :=
  <["citations" := cit_ids]> (delete "citations" obj).

(** [append(self, obj, complain)]. *)
Definition append (obj : Paper) (complain : bool) : Method unit :=
  let* self := get_self in
  let* citations :=
    match obj !! "citations" with
    | Some v => ret v
    | None => raise (KeyError "citations")
    end in
  let* cit_ids := lift (citation_phase self citations) in
  let vals := primary_vals obj cit_ids in
  try_except
    (let* cur := lift (execute (Insert (name self) vals)) in
     let* row := fetchone cur in
     let* id := subscript row 0 in
     lift commit >>
     list_append id)
    (on_integrity (λ E,
       if complain then
         lift commit >> raise (ValueError ("Paper already exists: " +:+ E))
       else ret tt)).

(** [__iadd__(self, other)]; the result is the list object it returns. *)
Definition iadd (other : value) : Method SQLPapers :=
  (match other with
   | VPaper p => append p true
   | _ => ret tt
   end) >>
  get_self.

(** [__iter__]: the Papers the generator yields and how it ends
    ([Return tt] is the normal end of the iteration). *)
Fixpoint iter_rows (fuel : nat) (self : SQLPapers) (rows : list (list value))
    (c : conn) : list Paper * outcome unit * conn * list stmt :=
  match rows with
  | [] => ([], Return tt, c, [])
  | datum :: rows' =>
      match yield_paper (get_by_id fuel) self (Some datum) c with
      | (Return p, c1, tr1) =>
          let '(ps, o, c2, tr2) := iter_rows fuel self rows' c1 in
          (p :: ps, o, c2, tr1 ++ tr2)
      | (Raise e, c1, tr1) => ([], Raise e, c1, tr1)
      | (Fuel, c1, tr1) => ([], Fuel, c1, tr1)
      end
  end.

Definition iter (fuel : nat) (self : SQLPapers) (c : conn)
    : list Paper * outcome unit * conn * list stmt :=
  match (let* cur := execute (SelectAll (name self)) in cursor_rows cur) c with
  | (Return rows, c1, tr1) =>
      let '(ps, o, c2, tr2) := iter_rows fuel self rows c1 in
      (ps, o, c2, tr1 ++ tr2)
  | (Raise e, c1, tr1) => ([], Raise e, c1, tr1)
  | (Fuel, c1, tr1) => ([], Fuel, c1, tr1)
  end.

(** * Properties *)

(** ** Laws of the computations *)

Lemma bind_return {S A B} (m : M S A) (k : A → M S B) s a s1 tr1 :
  m s = (Return a, s1, tr1) →
  bind m k s = let '(o, s2, tr2) := k a s1 in (o, s2, tr1 ++ tr2).
Proof. intros H. unfold bind. rewrite H. reflexivity. Qed.

Lemma bind_raise {S A B} (m : M S A) (k : A → M S B) s e s1 tr1 :
  m s = (Raise e, s1, tr1) → bind m k s = (Raise e, s1, tr1).
Proof. intros H. unfold bind. rewrite H. reflexivity. Qed.

Lemma bind_fuel {S A B} (m : M S A) (k : A → M S B) s s1 tr1 :
  m s = (Fuel, s1, tr1) → bind m k s = (Fuel, s1, tr1).
Proof. intros H. unfold bind. rewrite H. reflexivity. Qed.

Lemma bind_ret_l {S A B} (a : A) (k : A → M S B) s :
  bind (ret a) k s = k a s.
Proof. unfold bind, ret. destruct (k a s) as [[o s2] tr2]. reflexivity. Qed.

Lemma bind_return_nil {S A B} (m : M S A) (k : A → M S B) s a s1 :
  m s = (Return a, s1, []) → bind m k s = k a s1.
Proof.
  intros H. rewrite (bind_return _ _ _ _ _ _ H).
  destruct (k a s1) as [[o s2] tr2]. reflexivity.
Qed.

Lemma try_except_raise {S A} (m : M S A) (h : exn → option (M S A))
    s e s1 tr1 k :
  m s = (Raise e, s1, tr1) → h e = Some k →
  try_except m h s = let '(o, s2, tr2) := k s1 in (o, s2, tr1 ++ tr2).
Proof. intros Hm Hh. unfold try_except. rewrite Hm, Hh. reflexivity. Qed.

Lemma commit_run c : commit c = (Return tt, mkConn (tables c) false (dbname c), [Commit]).
Proof. reflexivity. Qed.

(** ** Statements that only read *)

(** A statement that reads and succeeds leaves the connection as it was. *)
Lemma run_read_return s c cur c' :
  is_select s = true → run s c = (Return cur, c') → c' = c.
Proof.
  destruct s; unfold run; simpl; try discriminate; intros _;
    destruct (failed c); try discriminate;
    destruct (tables c !! t); try discriminate;
    try (case_match; try discriminate); congruence.
Qed.

(** A statement on a connection in the failed state is refused. *)
Lemma run_failed s c :
  failed c = true → s ≠ Commit → run s c = (Raise InternalError, c).
Proof. intros Hf Hs. destruct s; unfold run; rewrite ?Hf; congruence. Qed.

(** ** In-place addition *)

(** C10: [+=] with an argument that is not a Paper sends no statement,
    leaves the list and the connection as they were, raises nothing and
    returns the list object itself. *)
Theorem iadd_not_paper_noop (other : value) (self : SQLPapers) (c : conn) :
  (∀ p, other ≠ VPaper p) →
  iadd other (self, c) = (Return self, (self, c), []).
Proof.
  intros Hother. destruct other; try reflexivity.
  exfalso. exact (Hother p eq_refl).
Qed.

Lemma iadd_not_paper_noop_witness :
  let other := VList [VPaper ∅; VPaper ∅] in
  let self := mkStore "papers" [] [VInt 1] in
  let c := mkConn ∅ false "db" in
  iadd other (self, c) = (Return self, (self, c), []).
Proof.
  intros other self c. apply (iadd_not_paper_noop other self c).
  intros p. discriminate.
Defined.

(** ** Identifier resolution *)

Lemma filter_none {A} (P : A → Prop) `{∀ x, Decision (P x)} (l : list A) :
  Forall (λ x, ¬ P x) l → filter P l = [].
Proof.
  induction 1 as [|x l Hx _ IH]; [reflexivity|].
  rewrite filter_cons_False by assumption. exact IH.
Qed.

(** C4: resolving an identifier that matches no row of the table does not
    raise [KeyError]: the SELECT succeeds, [fetchone] returns [None], no
    [ProgrammingError] is there to be caught, and [len(None)] in
    [_yield_paper] raises [TypeError]. *)
Theorem get_by_id_no_row_TypeError (fuel : nat) (self : SQLPapers)
    (id : value) (c : conn) (tb : table) :
  tables c !! name self = Some tb →
  failed c = false →
  Forall (λ r, sql_eq (cell r "id") id ≠ true) (t_rows tb) →
  get_by_id (S fuel) self id c =
    (Raise TypeError, c, [SelectById (name self) id]).
Proof.
  intros Ht Hf Hno. simpl. unfold bind, execute, run. simpl.
  rewrite Hf, Ht. rewrite (filter_none _ _ Hno). reflexivity.
Qed.

Lemma get_by_id_no_row_TypeError_witness :
  let self := mkStore "papers" (VStr <$> paper_columns) [] in
  let c := mkConn {[ "papers" := mkTable [] 0 ]} false "db" in
  get_by_id 2 self (VInt 1) c =
    (Raise TypeError, c, [SelectById "papers" (VInt 1)]).
Proof.
  intros self c.
  apply (get_by_id_no_row_TypeError 1 self (VInt 1) c (mkTable [] 0)).
  - reflexivity.
  - reflexivity.
  - constructor.
Defined.

(** ** Rows built by INSERT *)

Lemma elem_of_paper_columns (P : string → Prop) :
  P "id" → P "aulast" → P "auinit" → P "auuri" → P "institutions" →
  P "atitle" → P "jtitle" → P "volume" → P "issue" → P "spage" →
  P "epage" → P "date" → P "ayjid" → P "uri" → P "doi" → P "pmid" →
  P "wosid" → P "eid" → P "abstract" → P "contents" → P "topics" →
  P "accession" → P "citations" →
  ∀ k, k ∈ paper_columns → P k.
Proof.
  intros. unfold paper_columns in *.
  repeat match goal with
         | H : _ ∈ _ :: _ |- _ => apply elem_of_cons in H as [->|H]
         | H : _ ∈ [] |- _ => apply elem_of_nil in H; destruct H
         end; assumption.
Qed.

Lemma cell_row_of (idv : value) (vals : gmap string value) (k : string) :
  k ∈ paper_columns → k ≠ "id" →
  cell (row_of idv vals) k = default VNone (vals !! k).
Proof.
  intros Hk. revert k Hk.
  apply (elem_of_paper_columns
           (λ k, k ≠ "id" →
                 cell (row_of idv vals) k = default VNone (vals !! k)));
    intros Hne; try reflexivity.
  congruence.
Qed.

Lemma paper_fields_columns (k : string) :
  k ∈ paper_fields → k ∈ paper_columns ∧ k ≠ "id".
Proof.
  intros Hk. split; [right; exact Hk|]. intros ->.
  assert (bool_decide ("id" ∈ paper_fields) = false) as H by reflexivity.
  apply bool_decide_eq_false_1 in H. contradiction.
Qed.

Lemma citations_column : "citations" ∈ paper_columns.
Proof. apply (bool_decide_unpack _). reflexivity. Qed.

Lemma cell_row_of_id (idv : value) (vals : gmap string value) :
  cell (row_of idv vals) "id" = idv.
Proof. reflexivity. Qed.

Lemma length_row_of (idv : value) (vals : gmap string value) :
  List.length (row_of idv vals) = 23%nat.
Proof. reflexivity. Qed.

(** What a successful INSERT did. *)
Lemma run_insert_return t vals c cur c' :
  run (Insert t vals) c = (Return cur, c') →
  ∃ tb z serial,
    failed c = false ∧
    tables c !! t = Some tb ∧
    insert_id tb vals = (Return (VInt z), serial) ∧
    first_conflict unique_columns (t_rows tb) (row_of (VInt z) vals) = None ∧
    cur = Some [[VInt z]] ∧
    c' = set_table c t (mkTable (t_rows tb ++ [row_of (VInt z) vals]) serial).
Proof.
  unfold run. destruct (failed c) eqn:Hf; [discriminate|].
  unfold run_insert. destruct (tables c !! t) as [tb|] eqn:Ht; [|discriminate].
  destruct (bool_decide (vals = ∅)); [discriminate|].
  destruct (undefined_column vals); [discriminate|].
  destruct (insert_id tb vals) as [[idv|e|] serial] eqn:Hid; try discriminate.
  destruct (first_conflict _ _ _) eqn:Hc; [discriminate|].
  intros [= <- <-].
  assert (∃ z, idv = VInt z) as [z ->].
  { unfold insert_id in Hid. destruct (vals !! "id") as [[]|];
      inversion Hid; eauto. }
  exists tb, z, serial. repeat split; first [assumption | reflexivity].
Qed.

(** ** Append: the primary phase *)

Definition commit_conn (c : conn) : conn := mkConn (tables c) false (dbname c).

Ltac unfold_append :=
  unfold append, bind, get_self, lift, try_except, ret, raise, execute,
    commit, list_append; simpl.

Ltac unfold_append_in H :=
  unfold append, bind, get_self, lift, try_except, ret, raise, execute,
    commit, list_append in H; simpl in H.

(** C3: when the INSERT of the primary row violates a unique constraint,
    [append] with [complain] commits and raises [ValueError]; without
    [complain] it returns; the list is the same in both cases. *)
Theorem append_duplicate_keeps_rowIds (obj : Paper) (complain : bool)
    (self : SQLPapers) (c c1 c2 : conn) (cit ids : value)
    (tr1 : list stmt) (msg : string) :
  obj !! "citations" = Some cit →
  citation_phase self cit c = (Return ids, c1, tr1) →
  run (Insert (name self) (primary_vals obj ids)) c1 =
    (Raise (IntegrityError msg), c2) →
  append obj complain (self, c) =
    if complain then
      (Raise (ValueError ("Paper already exists: " +:+ msg)),
       (self, commit_conn c2),
       tr1 ++ [Insert (name self) (primary_vals obj ids); Commit])
    else
      (Return tt, (self, c2),
       tr1 ++ [Insert (name self) (primary_vals obj ids)]).
Proof.
  intros Hcit Hphase Hrun. unfold_append.
  rewrite Hcit; simpl. rewrite Hphase; simpl.
  rewrite Hrun; simpl.
  destruct complain; reflexivity.
Qed.

Lemma append_duplicate_keeps_rowIds_witness :
  let obj : Paper := {[ "doi" := VStr "10.1/a"; "citations" := VNone ]} in
  let self := mkStore "papers" (VStr <$> paper_columns) [VInt 1] in
  let vals := primary_vals obj VNone in
  let c :=
    mkConn {[ "papers" := mkTable [row_of (VInt 1) vals] 1;
              "papers_citations" := mkTable [] 0 ]} false "db" in
  let c2 :=
    mkConn {[ "papers" := mkTable [row_of (VInt 1) vals] 2;
              "papers_citations" := mkTable [] 0 ]} true "db" in
  let msg := unique_violation "papers" "doi" (VStr "10.1/a") in
  append obj true (self, c) =
    (Raise (ValueError ("Paper already exists: " +:+ msg)),
     (self, commit_conn c2), [Insert "papers" vals; Commit]) ∧
  append obj false (self, c) =
    (Return tt, (self, c2), [Insert "papers" vals]).
Proof.
  intros obj self vals c c2 msg. split.
  - apply (append_duplicate_keeps_rowIds obj true self c c c2 VNone VNone []
             msg); vm_compute; reflexivity.
  - apply (append_duplicate_keeps_rowIds obj false self c c c2 VNone VNone []
             msg); vm_compute; reflexivity.
Defined.

Lemma citation_phase_null self c :
  citation_phase self VNone c = (Return VNone, c, []).
Proof. reflexivity. Qed.

Lemma citation_phase_list self cs c ids c1 tr1 :
  citation_phase self (VList cs) c = (Return ids, c1, tr1) →
  ∃ zs, append_citations self cs [] c = (Return zs, c1, tr1) ∧
        ids = VList (VInt <$> zs).
Proof.
  unfold citation_phase, bind, py_iter, ret. simpl.
  destruct (append_citations self cs [] c) as [[[zs|e|] c'] tr'];
    try discriminate.
  rewrite app_nil_r. intros [= <- <- <-]. eauto.
Qed.

(** C6: the [citations] cell of the row [append] inserts is the value the
    citation phase left in [cit_ids]: NULL when the Record's [citations]
    is [None] (no statement is sent for citations then), and the list of
    the accumulated identifiers when it is a list. *)
Theorem append_stores_cit_ids (obj : Paper) (complain : bool)
    (self : SQLPapers) (c c1 c2 : conn) (cit ids : value)
    (tr1 : list stmt) (cur : cursor) :
  obj !! "citations" = Some cit →
  citation_phase self cit c = (Return ids, c1, tr1) →
  run (Insert (name self) (primary_vals obj ids)) c1 = (Return cur, c2) →
  ∃ (z : Z) (tb : table) (rows : list (list value)) (r : list value),
    append obj complain (self, c) =
      (Return tt,
       (mkStore (name self) (cols self) (rowIds self ++ [VInt z]),
        commit_conn c2),
       tr1 ++ [Insert (name self) (primary_vals obj ids); Commit]) ∧
    tables (commit_conn c2) !! name self = Some tb ∧
    t_rows tb = rows ++ [r] ∧
    cell r "id" = VInt z ∧
    cell r "citations" = ids ∧
    (cit = VNone → ids = VNone ∧ tr1 = []) ∧
    (∀ cs, cit = VList cs →
       ∃ zs, append_citations self cs [] c = (Return zs, c1, tr1) ∧
             ids = VList (VInt <$> zs)).
Proof.
  intros Hcit Hphase Hrun.
  destruct (run_insert_return _ _ _ _ _ Hrun)
    as (tb & z & serial & Hf & Ht & Hid & Hconf & -> & ->).
  exists z, (mkTable (t_rows tb ++ [row_of (VInt z) (primary_vals obj ids)])
               serial), (t_rows tb), (row_of (VInt z) (primary_vals obj ids)).
  split; [|split; [|split; [|split; [|split; [|split]]]]].
  - unfold_append. rewrite Hcit; simpl. rewrite Hphase; simpl.
    rewrite Hrun; simpl. reflexivity.
  - simpl. apply lookup_insert_eq.
  - reflexivity.
  - reflexivity.
  - rewrite cell_row_of; [|apply citations_column|discriminate].
    unfold primary_vals. rewrite lookup_insert_eq. reflexivity.
  - intros ->. rewrite citation_phase_null in Hphase.
    inversion Hphase; auto.
  - intros cs ->. exact (citation_phase_list _ _ _ _ _ _ Hphase).
Qed.

Definition returned {A} (d : A) (o : outcome A) : A :=
  match o with Return a => a | _ => d end.

Lemma append_stores_cit_ids_witness :
  let b1 : Paper := {[ "doi" := VStr "10.1/b1"; "citations" := VNone ]} in
  let b2 : Paper := {[ "doi" := VStr "10.1/b2"; "citations" := VNone ]} in
  let cit := VList [VPaper b1; VPaper b2] in
  let obj : Paper := {[ "doi" := VStr "10.1/a"; "citations" := cit ]} in
  let self := mkStore "papers" (VStr <$> paper_columns) [] in
  let c :=
    mkConn {[ "papers" := mkTable [] 0;
              "papers_citations" := mkTable [] 0 ]} false "db" in
  let ph := citation_phase self cit c in
  let ids := returned VNone ph.1.1 in
  let ins := run (Insert "papers" (primary_vals obj ids)) ph.1.2 in
  ids = VList [VInt 1; VInt 2] ∧
  ∃ (z : Z) (tb : table) (rows : list (list value)) (r : list value),
    append obj true (self, c) =
      (Return tt,
       (mkStore "papers" (cols self) [VInt z], commit_conn ins.2),
       ph.2 ++ [Insert "papers" (primary_vals obj ids); Commit]) ∧
    tables (commit_conn ins.2) !! "papers" = Some tb ∧
    t_rows tb = rows ++ [r] ∧
    cell r "id" = VInt z ∧
    cell r "citations" = ids ∧
    (cit = VNone → ids = VNone ∧ ph.2 = []) ∧
    (∀ cs, cit = VList cs →
       ∃ zs, append_citations self cs [] c = (Return zs, ph.1.2, ph.2) ∧
             ids = VList (VInt <$> zs)).
Proof.
  intros b1 b2 cit obj self c ph ids ins. split; [vm_compute; reflexivity|].
  apply (append_stores_cit_ids obj true self c ph.1.2 ins.2 cit ids ph.2
           (returned None ins.1)); vm_compute; reflexivity.
Defined.

(** ** Construction on an existing table *)

Lemma mapM_ids (rows : list (list value)) (c : conn) :
  mapM (S := conn) (λ id, subscript (Some id) 0)
    ((λ r, [cell r "id"]) <$> rows) c =
  (Return ((λ r, cell r "id") <$> rows), c, []).
Proof.
  induction rows as [|r rows IH]; [reflexivity|].
  cbn [fmap list_fmap mapM].
  rewrite (bind_return_nil _ _ c (cell r "id") c eq_refl).
  rewrite (bind_return_nil _ _ c _ c IH). reflexivity.
Qed.

Lemma select_columns_existing t tb c :
  tables c !! t = Some tb → failed c = false →
  (let* cur := execute (SelectColumns t) in
   let* rows := cursor_rows cur in
   mapM (λ col, subscript (Some col) 3) rows) c =
  (Return (VStr <$> paper_columns), c, [SelectColumns t]).
Proof.
  intros Ht Hf. unfold bind, execute, run. rewrite Hf, Ht. reflexivity.
Qed.

Lemma init_existing t u tb c :
  tables c !! t = Some tb → failed c = false →
  init (Some t) u c =
    (Return (mkStore t (VStr <$> paper_columns)
               ((λ r, cell r "id") <$> t_rows tb)),
     c, [SelectIds t; SelectColumns t]).
Proof.
  intros Ht Hf. unfold init.
  erewrite bind_return; cycle 1.
  { erewrite bind_return
      by (unfold execute, run; rewrite Hf, Ht; reflexivity).
    cbn [cursor_rows]. rewrite bind_ret_l.
    rewrite (bind_return_nil _ _ _ _ _ (mapM_ids _ _)). reflexivity. }
  cbn [fst snd].
  unfold bind, execute, run. rewrite Hf, Ht. reflexivity.
Qed.

(** Identifiers in ascending order. *)
Definition id_lt (a b : value) : Prop :=
  match a, b with
  | VInt x, VInt y => x < y
  | _, _ => False
  end.

Definition ascending (ids : list value) : Prop :=
  ∀ i j a b, ids !! i = Some a → ids !! j = Some b → (i < j)%nat → id_lt a b.

(** C8 as amended: on an existing table the constructor sends two SELECTs
    and no DDL, leaves the database as it was, and loads the list with the
    identifiers of all rows in the order the scan returns them; the list
    is ascending when the rows are stored in ascending order of [id]. *)
Theorem init_existing_loads_scan_order (t : string) (u : N) (tb : table)
    (c : conn) :
  tables c !! t = Some tb →
  failed c = false →
  ∃ self tr,
    init (Some t) u c = (Return self, c, tr) ∧
    name self = t ∧
    rowIds self = (λ r, cell r "id") <$> t_rows tb ∧
    forallb (λ s, negb (is_ddl s)) tr = true ∧
    (ascending ((λ r, cell r "id") <$> t_rows tb) → ascending (rowIds self)).
Proof.
  intros Ht Hf. eexists _, _. split; [exact (init_existing t u tb c Ht Hf)|].
  simpl. auto.
Qed.

Lemma init_existing_loads_scan_order_witness :
  let tb := mkTable [row_of (VInt 1) ∅; row_of (VInt 2) ∅] 2 in
  let c := mkConn {[ "papers" := tb ]} false "db" in
  ∃ self tr,
    init (Some "papers") 0%N c = (Return self, c, tr) ∧
    name self = "papers" ∧
    rowIds self = (λ r, cell r "id") <$> t_rows tb ∧
    forallb (λ s, negb (is_ddl s)) tr = true ∧
    (ascending ((λ r, cell r "id") <$> t_rows tb) → ascending (rowIds self)).
Proof.
  intros tb c.
  apply (init_existing_loads_scan_order "papers" 0%N tb c); reflexivity.
Defined.

(** The claim of C8 as the spec states it: the list is in primary-key
    order after the constructor has attached to an existing table. *)
Definition attach_is_ascending : Prop :=
  ∀ t u tb c self tr,
    tables c !! t = Some tb → failed c = false →
    init (Some t) u c = (Return self, c, tr) →
    ascending (rowIds self).

(** A table whose row with [id] 2 is stored before its row with [id] 1:
    the SELECT has no ORDER BY, and the list is loaded as [2; 1]. *)
Lemma attach_is_ascending_counterexample : ¬ attach_is_ascending.
Proof.
  intros H.
  pose (tb := mkTable [row_of (VInt 2) ∅; row_of (VInt 1) ∅] 2).
  pose (c := mkConn {[ "papers" := tb ]} false "db").
  specialize (H "papers" 0%N tb c _ _ eq_refl eq_refl
                (init_existing "papers" 0%N tb c eq_refl eq_refl)).
  specialize (H 0%nat 1%nat (VInt 2) (VInt 1) eq_refl eq_refl).
  simpl in H. lia.
Qed.

(** ** Decoding a row *)

(** The Paper [_yield_paper] builds from a tuple with the schema's columns,
    given the value it assigns to [citations]. *)
Definition decode (r : list value) (cit : value) : Paper :=
  foldl (λ p k, <[k := if String.eqb k "citations" then cit else cell r k]> p)
        ∅ paper_fields.

(** The value [_yield_paper] computes for a [citations] cell that is not
    NULL. *)
Definition resolve_citations (resolve : SQLPapers → value → Db Paper)
    (self : SQLPapers) (v : value) : Db value :=
  let* citations := init (Some (citations_of (name self))) 0%N in
  let* ks := py_iter v in
  let* ps := mapM (resolve citations) ks in
  ret (VList (VPaper <$> ps)).

Lemma foldl_insert_lookup (f : string → value) (l : list string)
    (m : Paper) (k : string) :
  foldl (λ p k, <[k := f k]> p) m l !! k =
    if decide (k ∈ l) then Some (f k) else m !! k.
Proof.
  revert m. induction l as [|x l IH]; intros m; simpl.
  - destruct (decide (k ∈ [])) as [H|_]; [|reflexivity].
    apply elem_of_nil in H. destruct H.
  - rewrite IH. destruct (decide (k ∈ l)) as [Hl|Hl].
    + rewrite decide_True by (right; exact Hl). reflexivity.
    + destruct (decide (k = x)) as [->|Hne].
      * rewrite decide_True by left. apply lookup_insert_eq.
      * rewrite decide_False by (intros [?|?]%elem_of_cons; contradiction).
        apply lookup_insert_ne. congruence.
Qed.

Lemma decode_lookup (r : list value) (cit : value) (k : string) :
  decode r cit !! k =
    if decide (k ∈ paper_fields)
    then Some (if String.eqb k "citations" then cit else cell r k)
    else None.
Proof.
  unfold decode.
  rewrite (foldl_insert_lookup
             (λ k, if String.eqb k "citations" then cit else cell r k)).
  reflexivity.
Qed.

Lemma decode_citations (r : list value) (cit : value) :
  decode r cit !! "citations" = Some cit.
Proof. rewrite decode_lookup. reflexivity. Qed.

Lemma decode_field (r : list value) (cit : value) (k : string) :
  k ∈ paper_fields → k ≠ "citations" →
  decode r cit !! k = Some (cell r k).
Proof.
  intros Hk Hne. rewrite decode_lookup, decide_True by exact Hk.
  destruct (String.eqb_spec k "citations"); [contradiction|reflexivity].
Qed.

Lemma yield_field_set resolve self paper k v c :
  bool_decide (k ∈ paper_fields) = true →
  is_citations (VStr k) v = false →
  yield_field resolve self paper (VStr k) v c =
    (Return (<[k := v]> paper), c, []).
Proof.
  intros Hk H. unfold yield_field. rewrite H, bind_ret_l.
  unfold paper_setitem. rewrite Hk. reflexivity.
Qed.

Lemma yield_field_skip resolve self paper k v c :
  bool_decide (k ∈ paper_fields) = false →
  is_citations (VStr k) v = false →
  yield_field resolve self paper (VStr k) v c = (Return paper, c, []).
Proof.
  intros Hk H. unfold yield_field. rewrite H, bind_ret_l.
  unfold paper_setitem. rewrite Hk. reflexivity.
Qed.

Ltac destruct_row r H :=
  repeat (let v := fresh "v" in
          destruct r as [|v r]; [discriminate H|]);
  destruct r; [|discriminate H]; clear H.

(** [_yield_paper] on a tuple of a table with the schema's columns: every
    column but [id] becomes a field; only a [citations] cell that is not
    NULL starts the nested resolution. *)
Lemma yield_fields_row resolve self r c :
  cols self = VStr <$> paper_columns →
  List.length r = 23%nat →
  yield_fields resolve self 0 r ∅ c =
    (let* cit :=
       if is_citations (VStr "citations") (cell r "citations")
       then resolve_citations resolve self (cell r "citations")
       else ret (cell r "citations") in
     ret (decode r cit)) c.
Proof.
  intros Hcols Hlen. destruct_row r Hlen.
  cbn [yield_fields]. rewrite Hcols.
  cbn [fmap list_fmap paper_columns lookup list_lookup].
  erewrite bind_return_nil by (apply yield_field_skip; reflexivity).
  do 21 (erewrite bind_return_nil by (apply yield_field_set; reflexivity)).
  change (cell _ "citations") with v21.
  unfold yield_field. fold (resolve_citations resolve self v21).
  unfold bind.
  destruct ((if is_citations (VStr "citations") v21
             then resolve_citations resolve self v21 else ret v21) c)
    as [[[cit|e|] c'] tr]; [|reflexivity..].
  unfold ret, paper_setitem.
  change (bool_decide ("citations" ∈ paper_fields)) with true.
  rewrite !app_nil_r. reflexivity.
Qed.

(** ** Resolution on a table *)

(** The tuple [fetchone] returns after [SELECT * ... WHERE id = %s]. *)
Definition find_row (rows : list (list value)) (id : value)
    : option (list value) :=
  head (filter (λ r, sql_eq (cell r "id") id = true) rows).

Lemma fetchone_head {S} (rows : list (list value)) (s : S) :
  try_except (fetchone (Some rows))
    (on_programming (raise (KeyError "No Paper with that ID exists."))) s =
  (Return (head rows), s, []).
Proof. destruct rows; reflexivity. Qed.

Lemma get_by_id_step fuel self id c tb :
  tables c !! name self = Some tb → failed c = false →
  get_by_id (S fuel) self id c =
    let '(o, c', tr) :=
      yield_paper (get_by_id fuel) self (find_row (t_rows tb) id) c in
    (o, c', SelectById (name self) id :: tr).
Proof.
  intros Ht Hf. cbn [get_by_id].
  erewrite bind_return
    by (unfold execute, run; rewrite Hf, Ht; reflexivity).
  rewrite (bind_return_nil _ _ _ _ _ (fetchone_head _ _)).
  reflexivity.
Qed.

(** A row whose [citations] cell is NULL is decoded without any further
    statement, whatever the budget of the recursion. *)
Lemma get_by_id_plain fuel self id c tb r :
  tables c !! name self = Some tb → failed c = false →
  cols self = VStr <$> paper_columns →
  find_row (t_rows tb) id = Some r →
  List.length r = 23%nat →
  cell r "citations" = VNone →
  get_by_id (S fuel) self id c =
    (Return (decode r VNone), c, [SelectById (name self) id]).
Proof.
  intros Ht Hf Hcols Hr Hlen Hcit.
  rewrite (get_by_id_step _ _ _ _ _ Ht Hf), Hr. cbn [yield_paper].
  rewrite (yield_fields_row _ _ _ _ Hcols Hlen), Hcit.
  reflexivity.
Qed.

Lemma mapM_const_state {A B} (f : A → Db B) (g : A → B)
    (t : A → list stmt) (l : list A) (c : conn) :
  (∀ x, x ∈ l → f x c = (Return (g x), c, t x)) →
  mapM f l c = (Return (g <$> l), c, List.concat (t <$> l)).
Proof.
  induction l as [|x l IH]; intros H; [reflexivity|].
  cbn [mapM fmap list_fmap List.concat].
  rewrite (bind_return _ _ _ _ _ _ (H x ltac:(left))).
  rewrite (bind_return _ _ _ _ _ _ (IH (λ y Hy, H y ltac:(right; exact Hy)))).
  cbn [ret]. rewrite app_nil_r. reflexivity.
Qed.

Lemma mapM_fmap {S A B C} (f : B → M S C) (h : A → B) (l : list A) (s : S) :
  mapM f (h <$> l) s = mapM (λ x, f (h x)) l s.
Proof.
  revert s. induction l as [|x l IH]; intros s; [reflexivity|].
  cbn [mapM fmap list_fmap]. unfold bind at 1 3.
  destruct (f (h x) s) as [[[y|e|] s1] tr1]; try reflexivity.
  unfold bind. change (list_fmap A B h l) with (h <$> l). rewrite IH.
  reflexivity.
Qed.

(** The rows of a table into which only the citation phase inserts. *)
Definition citation_rows_ok (rows : list (list value)) : Prop :=
  Forall (λ r, List.length r = 23%nat ∧ cell r "citations" = VNone) rows.

Lemma find_row_elem rows id r :
  find_row rows id = Some r → r ∈ rows ∧ sql_eq (cell r "id") id = true.
Proof.
  unfold find_row. intros H.
  apply head_Some_elem_of in H. apply list_elem_of_filter in H.
  tauto.
Qed.

(** The nested resolution of a list of identifiers that all have a row in
    the citation table. *)
Lemma resolve_citations_ok fuel self zs c tc :
  tables c !! citations_of (name self) = Some tc → failed c = false →
  citation_rows_ok (t_rows tc) →
  (∀ z, z ∈ zs → is_Some (find_row (t_rows tc) (VInt z))) →
  resolve_citations (get_by_id (S fuel)) self (VList (VInt <$> zs)) c =
    (Return (VList (VPaper <$>
               ((λ z, decode (default [] (find_row (t_rows tc) (VInt z)))
                             VNone) <$> zs))),
     c,
     [SelectIds (citations_of (name self));
      SelectColumns (citations_of (name self))] ++
     ((λ z, SelectById (citations_of (name self)) (VInt z)) <$> zs)).
Proof.
  intros Ht Hf Hok Hzs. unfold resolve_citations.
  rewrite (bind_return _ _ _ _ _ _ (init_existing _ _ _ _ Ht Hf)).
  cbn [py_iter]. rewrite bind_ret_l.
  erewrite bind_return; cycle 1.
  { rewrite mapM_fmap.
    apply (mapM_const_state _
             (λ z, decode (default [] (find_row (t_rows tc) (VInt z))) VNone)
             (λ z, [SelectById (citations_of (name self)) (VInt z)])).
    intros z Hz. destruct (Hzs z Hz) as [r Hr].
    rewrite Hr. cbn [default from_option].
    destruct (find_row_elem _ _ _ Hr) as [Hin _].
    unfold citation_rows_ok in Hok. rewrite Forall_forall in Hok.
    destruct (Hok r Hin) as [Hlen Hcit].
    exact (get_by_id_plain fuel
             (mkStore (citations_of (name self)) (VStr <$> paper_columns) _)
             (VInt z) c tc r Ht Hf eq_refl Hr Hlen Hcit). }
  cbn [ret]. rewrite app_nil_r. f_equal. f_equal.
  induction zs; [reflexivity|]. cbn. f_equal.
  apply IHzs. intros z Hz. apply Hzs. right. exact Hz.
Qed.

(** ** Specifications of computations

    [triple P m Q E]: from a state in [P], [m] ends in a state in [Q a]
    when it returns [a], and in a state in [E] otherwise. *)

Definition triple {S A} (P : S → Prop) (m : M S A) (Q : A → S → Prop)
    (E : S → Prop) : Prop :=
  ∀ s o s' tr, m s = (o, s', tr) → P s →
    match o with Return a => Q a s' | _ => E s' end.

Lemma triple_ret {S A} (P : S → Prop) (a : A) (Q : A → S → Prop) E :
  (∀ s, P s → Q a s) → triple P (ret a) Q E.
Proof. intros H s o s' tr [= <- <- <-] HP. auto. Qed.

Lemma triple_raise {S A} (P : S → Prop) e (Q : A → S → Prop) (E : S → Prop) :
  (∀ s, P s → E s) → triple P (raise e) Q E.
Proof. intros H s o s' tr [= <- <- <-] HP. auto. Qed.

Lemma triple_bind {S A B} (P : S → Prop) (m : M S A) (k : A → M S B)
    (R : A → S → Prop) (Q : B → S → Prop) (E : S → Prop) :
  triple P m R E → (∀ a, triple (R a) (k a) Q E) → triple P (bind m k) Q E.
Proof.
  intros Hm Hk s o s' tr Hrun HP. unfold bind in Hrun.
  destruct (m s) as [[[a|e|] s1] tr1] eqn:Hms.
  - destruct (k a s1) as [[o2 s2] tr2] eqn:Hks. inversion Hrun; subst.
    exact (Hk a _ _ _ _ Hks (Hm _ _ _ _ Hms HP)).
  - inversion Hrun; subst. exact (Hm _ _ _ _ Hms HP).
  - inversion Hrun; subst. exact (Hm _ _ _ _ Hms HP).
Qed.

Lemma triple_try {S A} (P : S → Prop) (m : M S A) (h : exn → option (M S A))
    (Q : A → S → Prop) (E1 E : S → Prop) :
  triple P m Q E1 →
  (∀ s, E1 s → E s) →
  (∀ e k, h e = Some k → triple E1 k Q E) →
  triple P (try_except m h) Q E.
Proof.
  intros Hm HE Hh s o s' tr Hrun HP. unfold try_except in Hrun.
  destruct (m s) as [[[a|e|] s1] tr1] eqn:Hms.
  - inversion Hrun; subst. exact (Hm _ _ _ _ Hms HP).
  - pose proof (Hm _ _ _ _ Hms HP) as H1. simpl in H1.
    destruct (h e) as [k|] eqn:Hhe.
    + destruct (k s1) as [[o2 s2] tr2] eqn:Hks. inversion Hrun; subst.
      exact (Hh e k Hhe _ _ _ _ Hks H1).
    + inversion Hrun; subst. simpl. auto.
  - inversion Hrun; subst. simpl. apply HE. exact (Hm _ _ _ _ Hms HP).
Qed.

Lemma triple_weaken {S A} (P P' : S → Prop) (m : M S A)
    (Q Q' : A → S → Prop) (E E' : S → Prop) :
  triple P' m Q' E' →
  (∀ s, P s → P' s) → (∀ a s, Q' a s → Q a s) → (∀ s, E' s → E s) →
  triple P m Q E.
Proof.
  intros Hm HP HQ HE s o s' tr Hrun Hs.
  pose proof (Hm _ _ _ _ Hrun (HP _ Hs)) as H.
  destruct o; auto.
Qed.

Lemma triple_execute (P : conn → Prop) (s : stmt) (Q : cursor → conn → Prop)
    (E : conn → Prop) :
  (∀ c o c', run s c = (o, c') → P c →
     match o with Return cur => Q cur c' | _ => E c' end) →
  triple P (execute s) Q E.
Proof.
  intros H c o c' tr Hrun HP. unfold execute in Hrun.
  destruct (run s c) as [o1 c1] eqn:Hs. inversion Hrun; subst.
  exact (H _ _ _ Hs HP).
Qed.

Lemma triple_mapM {S A B} (I : S → Prop) (f : A → M S B) (l : list A) :
  (∀ x, triple I (f x) (λ _, I) I) → triple I (mapM f l) (λ _, I) I.
Proof.
  intros Hf. induction l as [|x l IH]; cbn [mapM].
  - apply triple_ret. auto.
  - eapply triple_bind; [apply Hf|]. intros y.
    eapply triple_bind; [apply IH|]. intros ys. apply triple_ret. auto.
Qed.

(** ** What the statements of the citation phase do to the tables *)

(** [grows t c0 c]: from [c0] to [c] only table [t] changed, and only by
    new rows at its end, all with a NULL [citations] cell. *)
Definition grows (t : string) (c0 c : conn) : Prop :=
  (∀ t', t' ≠ t → tables c !! t' = tables c0 !! t') ∧
  match tables c0 !! t with
  | None => tables c !! t = None
  | Some tb0 =>
      ∃ tb new, tables c !! t = Some tb ∧
                t_rows tb = t_rows tb0 ++ new ∧ citation_rows_ok new
  end.

(** Table [t] has a row that [WHERE id = z] selects. *)
Definition has_row (t : string) (z : Z) (c : conn) : Prop :=
  ∃ tb, tables c !! t = Some tb ∧ is_Some (find_row (t_rows tb) (VInt z)).

(** The statements the citation phase sends. *)
Definition citation_stmt (t : string) (s : stmt) : Prop :=
  match s with
  | CreateTable _ => False
  | Insert t' vals => t' = t ∧ vals !! "citations" = None
  | _ => True
  end.

Lemma grows_refl t c : grows t c c.
Proof.
  split; [reflexivity|]. destruct (tables c !! t) as [tb|]; [|reflexivity].
  exists tb, []. rewrite app_nil_r. repeat split. constructor.
Qed.

Lemma grows_same_tables t c0 c c' :
  tables c' = tables c → grows t c0 c → grows t c0 c'.
Proof. unfold grows. intros ->. auto. Qed.

Lemma find_row_is_Some rows r z :
  r ∈ rows → cell r "id" = VInt z → is_Some (find_row rows (VInt z)).
Proof.
  intros Hin Hid. unfold find_row.
  destruct (filter _ rows) as [|r' l] eqn:Hfl; [|eauto].
  assert (r ∈ filter (λ r, sql_eq (cell r "id") (VInt z) = true) rows) as H.
  { apply list_elem_of_filter. split; [|exact Hin].
    rewrite Hid. simpl. apply bool_decide_eq_true. reflexivity. }
  rewrite Hfl in H. apply elem_of_nil in H. destruct H.
Qed.

Lemma find_row_app rows new id :
  is_Some (find_row rows id) → is_Some (find_row (rows ++ new) id).
Proof.
  unfold find_row. rewrite filter_app.
  destruct (filter _ rows); simpl; [intros [? [=]]|eauto].
Qed.

Lemma has_row_grows t z c0 c :
  grows t c0 c → has_row t z c0 → has_row t z c.
Proof.
  intros [_ Hg] (tb0 & Ht & Hz). rewrite Ht in Hg.
  destruct Hg as (tb & new & Htb & Hrows & _).
  exists tb. split; [exact Htb|]. rewrite Hrows. apply find_row_app, Hz.
Qed.

Lemma grows_trans t c0 c1 c2 : grows t c0 c1 → grows t c1 c2 → grows t c0 c2.
Proof.
  intros [Ho1 Hg1] [Ho2 Hg2]. split.
  - intros t' Hne. rewrite Ho2, Ho1 by exact Hne. reflexivity.
  - destruct (tables c0 !! t) as [tb0|].
    + destruct Hg1 as (tb1 & new1 & Ht1 & Hr1 & Hok1). rewrite Ht1 in Hg2.
      destruct Hg2 as (tb2 & new2 & Ht2 & Hr2 & Hok2).
      exists tb2, (new1 ++ new2). split; [exact Ht2|]. split.
      * rewrite Hr2, Hr1, app_assoc. reflexivity.
      * apply Forall_app. split; assumption.
    + rewrite Hg1 in Hg2. exact Hg2.
Qed.

(** One statement of the citation phase. *)
Lemma run_grows t s c o c' :
  citation_stmt t s → run s c = (o, c') → grows t c c'.
Proof.
  intros Hs Hrun.
  assert (tables c' = tables c ∨
          ∃ vals tb rows serial,
            s = Insert t vals ∧ vals !! "citations" = None ∧
            tables c !! t = Some tb ∧
            tables c' = <[t := mkTable (t_rows tb ++ rows) serial]> (tables c) ∧
            (rows = [] ∨ ∃ idv, rows = [row_of idv vals])) as [Heq|H].
  { destruct s as [t0|t0|t0|t0 id|t0|t0 vals|t0 col v|]; simpl in Hs;
      [contradiction| | | | | |..];
      unfold run in Hrun;
      try (left; repeat case_match; inversion Hrun; subst; reflexivity).
    destruct Hs as [-> Hv].
    destruct (failed c); [inversion Hrun; subst; left; reflexivity|].
    unfold run_insert in Hrun.
    destruct (tables c !! t) as [tb|] eqn:Ht;
      [|inversion Hrun; subst; left; reflexivity].
    destruct (bool_decide (vals = ∅));
      [inversion Hrun; subst; left; reflexivity|].
    destruct (undefined_column vals);
      [inversion Hrun; subst; left; reflexivity|].
    destruct (insert_id tb vals) as [[idv|e|] serial];
      [|inversion Hrun; subst; left; reflexivity..].
    destruct (first_conflict _ _ _); inversion Hrun; subst; right;
      exists vals, tb; [exists [], serial|exists [row_of idv vals], serial];
      rewrite ?app_nil_r; repeat split; eauto. }
  - apply (grows_same_tables t c c); [exact Heq|apply grows_refl].
  - destruct H as (vals & tb & rows & serial & -> & Hv & Ht & Htab & Hrows).
    split.
    + intros t' Hne. rewrite Htab, lookup_insert_ne by congruence. reflexivity.
    + rewrite Ht. eexists _, rows. rewrite Htab, lookup_insert_eq.
      repeat split. destruct Hrows as [->|[idv ->]]; [constructor|].
      repeat constructor.
      rewrite cell_row_of; [|apply citations_column|discriminate].
      rewrite Hv. reflexivity.
Qed.

Lemma run_insert_has_row t vals c cur c' :
  run (Insert t vals) c = (Return cur, c') →
  ∃ z, cur = Some [[VInt z]] ∧ has_row t z c'.
Proof.
  intros Hrun.
  destruct (run_insert_return _ _ _ _ _ Hrun)
    as (tb & z & serial & _ & _ & _ & _ & -> & ->).
  exists z. split; [reflexivity|]. eexists. split.
  - simpl. apply lookup_insert_eq.
  - simpl. apply (find_row_is_Some _ (row_of (VInt z) vals)).
    + apply elem_of_app. right. left.
    + reflexivity.
Qed.

Lemma run_select_where t col v c cur c' :
  run (SelectIdWhere t col v) c = (Return cur, c') →
  c' = c ∧
  ∃ tb, tables c !! t = Some tb ∧
        cur = Some ((λ r, [cell r "id"]) <$>
                    filter (λ r, sql_eq (cell r col) v = true) (t_rows tb)).
Proof.
  unfold run. destruct (failed c); [discriminate|].
  destruct (tables c !! t) as [tb|]; [|discriminate].
  destruct (bool_decide _); [|discriminate].
  intros [= <- <-]. eauto.
Qed.

Section citation_phase.
Variable self : SQLPapers.
Variable c0 : conn.
Let cname := citations_of (name self).

(** One citation: the tables only grow, and an identifier that is kept
    has a row in the citation table. *)
Lemma append_citation_triple (citation : value) :
  triple (grows cname c0) (append_citation self citation)
    (λ r c, grows cname c0 c ∧ ∀ z, r = Some z → has_row cname z c)
    (grows cname c0).
Proof.
  destruct citation as [| | | |p]; try (apply triple_raise; auto).
  cbn [append_citation]. fold cname.
  eapply triple_bind with
    (R := λ id c, grows cname c0 c ∧
                  ∀ z, id = Some (VInt z) → has_row cname z c).
  - eapply triple_try with (E1 := grows cname c0); [|auto|].
    + (* the INSERT succeeds *)
      eapply triple_bind with
        (R := λ cur c, grows cname c0 c ∧
                       ∃ z, cur = Some [[VInt z]] ∧ has_row cname z c).
      * apply triple_execute. intros c o c' Hrun Hg.
        assert (grows cname c0 c') as Hg'.
        { eapply grows_trans; [exact Hg|].
          eapply run_grows; [|exact Hrun]. split; [reflexivity|].
          apply lookup_delete_eq. }
        destruct o as [cur| |]; auto.
        split; [exact Hg'|]. exact (run_insert_has_row _ _ _ _ _ Hrun).
      * intros cur c o c' tr Hrun (Hg & z & -> & Hz).
        unfold bind, commit, execute, run, ret in Hrun. simpl in Hrun.
        inversion Hrun; subst. split.
        -- apply (grows_same_tables _ _ c); [reflexivity|exact Hg].
        -- intros z' [= <-]. destruct Hz as (tb & Ht & Hr). exists tb. auto.
    + (* the INSERT violates a constraint *)
      intros e k Hk. destruct e; try discriminate Hk.
      injection Hk as <-.
      eapply triple_bind with (R := λ _, grows cname c0).
      { intros c o c' tr Hrun Hg.
        unfold bind, commit, execute, run, ret in Hrun. simpl in Hrun.
        inversion Hrun; subst.
        apply (grows_same_tables _ _ c); [reflexivity|exact Hg]. }
      intros _. destruct (re_search_key msg) as [ckey|];
        [|apply triple_ret; intros c Hg; split; [exact Hg|discriminate]].
      eapply triple_bind with (R := λ _, grows cname c0).
      { destruct (delete "citations" p !! ckey);
          [apply triple_ret|apply triple_raise]; auto. }
      intros cval.
      eapply triple_bind with
        (R := λ cur c, grows cname c0 c ∧
           ∃ tb rows, tables c !! cname = Some tb ∧
                      cur = Some ((λ r, [cell r "id"]) <$> rows) ∧
                      rows ⊆ t_rows tb).
      { apply triple_execute. intros c o c' Hrun Hg.
        assert (grows cname c0 c') as Hg'.
        { eapply grows_trans; [exact Hg|].
          eapply run_grows; [|exact Hrun]. exact I. }
        destruct o as [cur| |]; auto. split; [exact Hg'|].
        destruct (run_select_where _ _ _ _ _ _ Hrun) as (-> & tb & Ht & ->).
        exists tb, (filter (λ r, sql_eq (cell r ckey) cval = true) (t_rows tb)).
        repeat split; auto. intros r Hr.
        apply list_elem_of_filter in Hr. tauto. }
      intros cur c o c' tr Hrun (Hg & tb & rows & Ht & -> & Hsub).
      destruct rows as [|r rows];
        [inversion Hrun; subst; simpl; exact Hg|].
      inversion Hrun; subst. split; [exact Hg|].
      intros z [= Hz]. exists tb. split; [exact Ht|].
      apply (find_row_is_Some _ r); [|exact Hz]. apply Hsub. left.
  - intros id c o c' tr Hrun [Hg Hid].
    destruct id as [[| |z| |]|]; inversion Hrun; subst; simpl; auto.
    + split; [exact Hg|]. intros z' [= <-]. auto.
    + split; [exact Hg|]. discriminate.
Qed.
End citation_phase.

(** The value the citation phase computes: NULL, or identifiers of rows of
    the citation table. *)
Definition cit_ids_ok (t : string) (c : conn) (v : value) : Prop :=
  v = VNone ∨ ∃ zs, v = VList (VInt <$> zs) ∧ Forall (λ z, has_row t z c) zs.

Lemma append_citations_spec self cs acc c o c' tr :
  append_citations self cs acc c = (o, c', tr) →
  grows (citations_of (name self)) c c' ∧
  ∀ ids, o = Return ids →
    Forall (λ z, has_row (citations_of (name self)) z c) acc →
    Forall (λ z, has_row (citations_of (name self)) z c') ids.
Proof.
  revert acc c o c' tr. induction cs as [|x cs IH]; intros acc c o c' tr Hrun.
  - inversion Hrun; subst. split; [apply grows_refl|].
    intros ids [= <-]. auto.
  - cbn [append_citations] in Hrun. unfold bind in Hrun.
    destruct (append_citation self x c) as [[[r|e|] c1] tr1] eqn:H1;
      pose proof (append_citation_triple self c x _ _ _ _ H1
                    (grows_refl _ _)) as Hx; simpl in Hx.
    + destruct Hx as [Hg1 Hr].
      destruct (append_citations self cs _ c1) as [[o2 c2] tr2] eqn:H2.
      inversion Hrun; subst. destruct (IH _ _ _ _ _ H2) as [Hg2 Hids].
      split; [exact (grows_trans _ _ _ _ Hg1 Hg2)|].
      intros ids -> Hacc. apply (Hids ids eq_refl).
      assert (Forall (λ z, has_row (citations_of (name self)) z c1) acc)
        as Hacc1.
      { eapply Forall_impl; [exact Hacc|]. intros z.
        apply has_row_grows. exact Hg1. }
      destruct r as [z|]; [|exact Hacc1].
      apply Forall_app. split; [exact Hacc1|]. constructor; auto.
    + inversion Hrun; subst. split; [exact Hx|discriminate].
    + inversion Hrun; subst. split; [exact Hx|discriminate].
Qed.

Lemma citation_phase_spec self cit c o c' tr :
  citation_phase self cit c = (o, c', tr) →
  grows (citations_of (name self)) c c' ∧
  ∀ v, o = Return v → cit_ids_ok (citations_of (name self)) c' v.
Proof.
  intros Hrun.
  assert (cit = VNone ∨
          (let* cs := py_iter cit in
           let* ids := append_citations self cs [] in
           ret (VList (VInt <$> ids))) c = (o, c', tr)) as [->|H].
  { destruct cit; auto. }
  - inversion Hrun; subst. split; [apply grows_refl|].
    intros v [= <-]. left. reflexivity.
  - clear Hrun. unfold bind in H.
    destruct (py_iter cit c) as [[[cs|e|] c1] tr1] eqn:Hit.
    + assert (c1 = c) as ->.
      { destruct cit; inversion Hit; reflexivity. }
      destruct (append_citations self cs [] c) as [[[ids|e|] c2] tr2] eqn:Hc;
        destruct (append_citations_spec _ _ _ _ _ _ _ Hc) as [Hg Hids];
        inversion H; subst; (split; [exact Hg|]); try discriminate.
      intros v [= <-]. right. exists ids. split; [reflexivity|].
      apply (Hids ids eq_refl). constructor.
    + assert (c1 = c) as -> by (destruct cit; inversion Hit; reflexivity).
      inversion H; subst. split; [apply grows_refl|discriminate].
    + destruct cit; discriminate Hit.
Qed.

(** ** Names *)

Lemma length_string_app (a b : string) :
  String.length (a +:+ b) = (String.length a + String.length b)%nat.
Proof. induction a as [|x a IH]; simpl; [reflexivity|]. rewrite IH. reflexivity. Qed.

Lemma string_app_assoc (a b c : string) :
  a +:+ b +:+ c = (a +:+ b) +:+ c.
Proof.
  induction a as [|x a IH]; [reflexivity|].
  change (String x (a +:+ b +:+ c) = String x ((a +:+ b) +:+ c)).
  rewrite IH. reflexivity.
Qed.

Lemma citations_of_ne (t : string) : citations_of t ≠ t.
Proof.
  intros H. apply (f_equal String.length) in H.
  unfold citations_of in H. rewrite length_string_app in H. simpl in H. lia.
Qed.

(** ** The invariant of a store *)

(** The [citations] cell of a primary row: NULL, or identifiers that all
    have a row among [rows_c]. *)
Definition refs_ok (rows_c : list (list value)) (r : list value) : Prop :=
  cell r "citations" = VNone ∨
  ∃ zs, cell r "citations" = VList (VInt <$> zs) ∧
        Forall (λ z, is_Some (find_row rows_c (VInt z))) zs.

(** The primary key: no two rows have the same [id]. *)
Definition pk_ok (rows : list (list value)) : Prop :=
  ∀ i j r r', rows !! i = Some r → rows !! j = Some r' →
    sql_eq (cell r "id") (cell r' "id") = true → i = j.

Record store_inv (s : SQLPapers) (c : conn) (rows : list (list value))
    : Prop := {
  inv_cols : cols s = VStr <$> paper_columns;
  inv_primary : ∃ tp, tables c !! name s = Some tp ∧ t_rows tp = rows;
  inv_citations :
    ∃ tc, tables c !! citations_of (name s) = Some tc ∧
          citation_rows_ok (t_rows tc) ∧ Forall (refs_ok (t_rows tc)) rows;
  inv_rowIds : rowIds s = (λ r, cell r "id") <$> rows;
  inv_len : Forall (λ r, List.length r = 23%nat) rows;
  inv_ids : Forall (λ r, ∃ z, cell r "id" = VInt z) rows;
  inv_pk : pk_ok rows
}.

(** Two connections whose tables hold the same rows. *)
Definition same_rows (c c' : conn) : Prop :=
  ∀ t, t_rows <$> (tables c' !! t) = t_rows <$> (tables c !! t).

Lemma same_rows_refl c : same_rows c c.
Proof. intros t. reflexivity. Qed.

Lemma same_rows_lookup c c' t tb :
  same_rows c c' → tables c !! t = Some tb →
  ∃ tb', tables c' !! t = Some tb' ∧ t_rows tb' = t_rows tb.
Proof.
  intros H Ht. specialize (H t). rewrite Ht in H.
  destruct (tables c' !! t) as [tb'|]; [|discriminate].
  injection H as H. eauto.
Qed.

Lemma store_inv_same_rows s c c' rows :
  same_rows c c' → store_inv s c rows → store_inv s c' rows.
Proof.
  intros Hs [H1 (tp & Htp & Hrows) (tc & Htc & Hok & Hrefs) H4 H5 H6 H7].
  destruct (same_rows_lookup _ _ _ _ Hs Htp) as (tp' & Htp' & Hr').
  destruct (same_rows_lookup _ _ _ _ Hs Htc) as (tc' & Htc' & Hc').
  split; auto.
  - exists tp'. split; [exact Htp'|congruence].
  - exists tc'. rewrite Hc'. auto.
Qed.

Lemma refs_ok_app rows_c new r :
  refs_ok rows_c r → refs_ok (rows_c ++ new) r.
Proof.
  intros [H|(zs & Hz & Hall)]; [left; exact H|right].
  exists zs. split; [exact Hz|].
  eapply Forall_impl; [exact Hall|]. intros z. apply find_row_app.
Qed.

Lemma store_inv_grows s c c' rows :
  grows (citations_of (name s)) c c' → store_inv s c rows →
  store_inv s c' rows.
Proof.
  intros [Ho Hg] [H1 (tp & Htp & Hrows) (tc & Htc & Hok & Hrefs) H4 H5 H6 H7].
  rewrite Htc in Hg. destruct Hg as (tc' & new & Htc' & Hr' & Hnew).
  split; auto.
  - exists tp. split; [|exact Hrows].
    rewrite Ho; [exact Htp|]. intros Heq. symmetry in Heq.
    exact (citations_of_ne _ Heq).
  - exists tc'. split; [exact Htc'|]. rewrite Hr'. split.
    + apply Forall_app. split; assumption.
    + eapply Forall_impl; [exact Hrefs|]. intros r. apply refs_ok_app.
Qed.

Lemma same_rows_set_table c t tb serial :
  tables c !! t = Some tb →
  same_rows c (set_table c t (mkTable (t_rows tb) serial)).
Proof.
  intros Ht t'. simpl. destruct (decide (t = t')) as [<-|Hne].
  - rewrite lookup_insert_eq, Ht. reflexivity.
  - rewrite lookup_insert_ne by exact Hne. reflexivity.
Qed.

Lemma same_rows_tables c c' : tables c' = tables c → same_rows c c'.
Proof. intros H t. rewrite H. reflexivity. Qed.

(** An INSERT that does not return leaves the rows of every table. *)
Lemma run_insert_cases t vals c o c' :
  run (Insert t vals) c = (o, c') →
  (∃ cur, o = Return cur) ∨ ((∀ cur, o ≠ Return cur) ∧ same_rows c c').
Proof.
  unfold run. destruct (failed c).
  { intros [= <- <-]. right. split; [discriminate|apply same_rows_tables; reflexivity]. }
  unfold run_insert. destruct (tables c !! t) as [tb|] eqn:Ht.
  2:{ intros [= <- <-]. right. split; [discriminate|apply same_rows_tables; reflexivity]. }
  destruct (bool_decide (vals = ∅)).
  { intros [= <- <-]. right. split; [discriminate|apply same_rows_tables; reflexivity]. }
  destruct (undefined_column vals).
  { intros [= <- <-]. right. split; [discriminate|apply same_rows_tables; reflexivity]. }
  destruct (insert_id tb vals) as [[idv|e|] serial].
  - destruct (first_conflict _ _ _).
    + intros [= <- <-]. right. split; [discriminate|].
      intros t'. simpl. apply (same_rows_set_table c t tb serial Ht).
    + intros [= <- <-]. left. eauto.
  - intros [= <- <-]. right. split; [discriminate|apply same_rows_tables; reflexivity].
  - intros [= <- <-]. right. split; [discriminate|apply same_rows_tables; reflexivity].
Qed.

Lemma citation_phase_shape self citv c v c' tr :
  citation_phase self citv c = (Return v, c', tr) →
  (citv = VNone → v = VNone) ∧
  (citv ≠ VNone → ∃ zs, v = VList (VInt <$> zs)).
Proof.
  intros H. split.
  - intros ->. inversion H. reflexivity.
  - intros Hne.
    assert ((let* cs := py_iter citv in
             let* ids := append_citations self cs [] in
             ret (VList (VInt <$> ids))) c = (Return v, c', tr)) as H'.
    { destruct citv; auto. contradiction. }
    unfold bind in H'.
    destruct (py_iter citv c) as [[[cs|e|] c1] tr1]; try discriminate.
    destruct (append_citations self cs [] c1) as [[[ids|e|] c2] tr2];
      inversion H'; eauto.
Qed.

Lemma sql_eq_sym a b : sql_eq a b = sql_eq b a.
Proof.
  destruct a, b; simpl; try reflexivity.
  - apply String.eqb_sym.
  - apply bool_decide_ext. split; congruence.
Qed.

Lemma first_conflict_id rows r :
  first_conflict unique_columns rows r = None →
  Forall (λ r', sql_eq (cell r' "id") (cell r "id") = false) rows.
Proof.
  unfold unique_columns. cbn [first_conflict].
  destruct (existsb _ rows) eqn:He; [discriminate|]. intros _.
  apply Forall_forall. intros r' Hin.
  destruct (sql_eq (cell r' "id") (cell r "id")) eqn:Hs; [|reflexivity].
  assert (existsb (λ r', sql_eq (cell r' "id") (cell r "id")) rows = true).
  { apply existsb_exists. exists r'. split; [|exact Hs].
    apply list_elem_of_In. exact Hin. }
  congruence.
Qed.

Lemma pk_ok_snoc rows r z :
  pk_ok rows → cell r "id" = VInt z →
  Forall (λ r', sql_eq (cell r' "id") (cell r "id") = false) rows →
  pk_ok (rows ++ [r]).
Proof.
  intros Hpk Hid Hnew i j r1 r2 H1 H2 Heq.
  rewrite Forall_forall in Hnew.
  apply lookup_snoc_Some in H1 as [[Hi H1]|[Hi <-]];
    apply lookup_snoc_Some in H2 as [[Hj H2]|[Hj <-]].
  - exact (Hpk _ _ _ _ H1 H2 Heq).
  - rewrite (Hnew r1) in Heq; [discriminate|].
    apply list_elem_of_lookup. eauto.
  - rewrite sql_eq_sym, (Hnew r2) in Heq; [discriminate|].
    apply list_elem_of_lookup. eauto.
  - congruence.
Qed.

Lemma has_row_find t z c tc :
  tables c !! t = Some tc → has_row t z c →
  is_Some (find_row (t_rows tc) (VInt z)).
Proof. intros Ht (tb & Ht' & H). congruence. Qed.

Lemma cit_ids_refs_ok t c tc v r :
  tables c !! t = Some tc → cit_ids_ok t c v → cell r "citations" = v →
  refs_ok (t_rows tc) r.
Proof.
  intros Ht [->|(zs & -> & Hall)] Hr; [left; exact Hr|right].
  exists zs. split; [exact Hr|].
  eapply Forall_impl; [exact Hall|]. intros z. apply has_row_find, Ht.
Qed.

Lemma cell_primary_citations z obj cit :
  cell (row_of (VInt z) (primary_vals obj cit)) "citations" = cit.
Proof.
  rewrite cell_row_of; [|apply citations_column|discriminate].
  unfold primary_vals. rewrite lookup_insert_eq. reflexivity.
Qed.

(** One call of [append] on a store that satisfies the invariant: either
    the list is unchanged and so are the rows of the primary table, or one
    row was inserted and its identifier was appended to the list. *)
Lemma append_step s c rows obj complain o s' c' tr :
  store_inv s c rows →
  append obj complain (s, c) = (o, (s', c'), tr) →
  (s' = s ∧ store_inv s c' rows) ∨
  (∃ z citv cit,
     o = Return tt ∧ failed c' = false ∧
     obj !! "citations" = Some citv ∧
     (citv = VNone → cit = VNone) ∧
     (citv ≠ VNone → ∃ zs, cit = VList (VInt <$> zs)) ∧
     s' = mkStore (name s) (cols s) (rowIds s ++ [VInt z]) ∧
     store_inv s' c' (rows ++ [row_of (VInt z) (primary_vals obj cit)])).
Proof.
  intros Hinv Hrun. unfold_append_in Hrun.
  destruct (obj !! "citations") as [citv|] eqn:Hcit.
  2:{ inversion Hrun; subst. left. auto. }
  simpl in Hrun.
  destruct (citation_phase s citv c) as [[o1 c1] tr1] eqn:Hph.
  destruct (citation_phase_spec _ _ _ _ _ _ Hph) as [Hg Hids].
  pose proof (store_inv_grows _ _ _ _ Hg Hinv) as Hinv1.
  destruct o1 as [cit|e|]; simpl in Hrun;
    [|inversion Hrun; subst; left; auto..].
  destruct (run (Insert (name s) (primary_vals obj cit)) c1)
    as [o2 c2] eqn:Hins.
  destruct (run_insert_cases _ _ _ _ _ Hins) as [[cur ->]|[Hnr Hsame]].
  - destruct (run_insert_return _ _ _ _ _ Hins)
      as (tb & z & serial & Hf & Ht & Hid & Hconf & -> & ->).
    simpl in Hrun. inversion Hrun; subst. right.
    destruct (citation_phase_shape _ _ _ _ _ _ Hph) as [Hs1 Hs2].
    exists z, citv, cit. do 6 (split; [solve [auto]|]).
    destruct Hinv1 as [H1 (tp & Htp & Hrows) (tc & Htc & Hok & Hrefs)
                         H4 H5 H6 H7].
    assert (tb = tp) as -> by congruence. subst rows.
    split; simpl.
    + exact H1.
    + eexists. rewrite lookup_insert_eq. split; reflexivity.
    + exists tc. rewrite lookup_insert_ne
        by (intros Heq; symmetry in Heq; exact (citations_of_ne _ Heq)).
      split; [exact Htc|]. split; [exact Hok|].
      apply Forall_app. split; [exact Hrefs|]. constructor; [|constructor].
      eapply cit_ids_refs_ok; [exact Htc|exact (Hids cit eq_refl)|].
      apply cell_primary_citations.
    + rewrite fmap_app, H4. reflexivity.
    + apply Forall_app. split; [exact H5|]. repeat constructor.
    + apply Forall_app. split; [exact H6|]. repeat constructor. eauto.
    + apply (pk_ok_snoc _ _ z); [exact H7|reflexivity|].
      apply first_conflict_id. exact Hconf.
  - left.
    assert (store_inv s c2 rows) as Hinv2
      by (eapply store_inv_same_rows; eauto).
    assert (store_inv s (commit_conn c2) rows) as Hinv3.
    { eapply store_inv_same_rows; [|exact Hinv2].
      apply same_rows_tables. reflexivity. }
    destruct o2 as [cur|e|]; [destruct (Hnr cur eq_refl)| |];
      simpl in Hrun.
    + destruct e; simpl in Hrun; try (inversion Hrun; subst; auto; fail).
      destruct complain; simpl in Hrun; inversion Hrun; subst; auto.
    + inversion Hrun; subst; auto.
Qed.

(** ** A fresh store *)

Definition fresh_conn (u : N) (c0 : conn) : conn :=
  mkConn (<[citations_of (fresh_name u) := mkTable [] 0]>
            (<[fresh_name u := mkTable [] 0]> (tables c0)))
         false (dbname c0).

Definition fresh_store (u : N) : SQLPapers :=
  mkStore (fresh_name u) (VStr <$> paper_columns) [].

Lemma init_fresh_inv u c0 s c tr :
  init None u c0 = (Return s, c, tr) →
  s = fresh_store u ∧ c = fresh_conn u c0 ∧ failed c0 = false ∧
  tables c0 !! fresh_name u = None ∧
  tables c0 !! citations_of (fresh_name u) = None.
Proof.
  unfold init, bind, execute, commit, run. simpl.
  destruct (failed c0); [discriminate|].
  destruct (tables c0 !! fresh_name u) eqn:H1; [discriminate|]. simpl.
  rewrite lookup_insert_ne
    by (intros Heq; symmetry in Heq; exact (citations_of_ne _ Heq)).
  destruct (tables c0 !! citations_of (fresh_name u)) eqn:H2;
    [discriminate|]. simpl.
  rewrite lookup_insert_ne by apply citations_of_ne.
  rewrite lookup_insert_eq. simpl.
  intros [= <- <- <-]. auto.
Qed.

Lemma init_fresh u c0 :
  failed c0 = false →
  tables c0 !! fresh_name u = None →
  tables c0 !! citations_of (fresh_name u) = None →
  init None u c0 =
    (Return (fresh_store u), fresh_conn u c0,
     [CreateTable (fresh_name u); Commit;
      CreateTable (citations_of (fresh_name u)); Commit;
      SelectColumns (fresh_name u)]).
Proof.
  intros Hf H1 H2. unfold init, bind, execute, commit, run. simpl.
  rewrite Hf, H1. simpl.
  rewrite lookup_insert_ne
    by (intros Heq; symmetry in Heq; exact (citations_of_ne _ Heq)).
  rewrite H2. simpl.
  rewrite lookup_insert_ne by apply citations_of_ne.
  rewrite lookup_insert_eq. reflexivity.
Qed.

Lemma store_inv_fresh u c0 : store_inv (fresh_store u) (fresh_conn u c0) [].
Proof.
  split; simpl; try constructor.
  - eexists. rewrite lookup_insert_ne by apply citations_of_ne.
    rewrite lookup_insert_eq. split; reflexivity.
  - eexists. rewrite lookup_insert_eq. split; [reflexivity|].
    split; constructor.
  - intros i j r r' H. rewrite lookup_nil in H. discriminate.
Qed.

(** ** Stores built by [append] from a fresh store

    [built s c objs]: the list [s] and the connection [c] result from a
    fresh store by calls of [append], of which those that added to the list
    were given the Records [objs], in this order. *)
Inductive built : SQLPapers → conn → list Paper → Prop :=
| built_init u c0 s c tr :
    init None u c0 = (Return s, c, tr) →
    built s c []
| built_append s c objs obj complain s' c' tr id :
    built s c objs →
    append obj complain (s, c) = (Return tt, (s', c'), tr) →
    rowIds s' = rowIds s ++ [id] →
    built s' c' (objs ++ [obj])
| built_other s c objs obj complain o s' c' tr :
    built s c objs →
    append obj complain (s, c) = (o, (s', c'), tr) →
    rowIds s' = rowIds s →
    built s' c' objs.

(** The row [append] stores for a Record. *)
Definition row_for (obj : Paper) (r : list value) : Prop :=
  ∃ z cit,
    r = row_of (VInt z) (primary_vals obj cit) ∧
    (obj !! "citations" = Some VNone → cit = VNone) ∧
    (obj !! "citations" ≠ Some VNone → ∃ zs, cit = VList (VInt <$> zs)).

Lemma built_inv s c objs :
  built s c objs →
  ∃ rows, store_inv s c rows ∧ Forall2 row_for objs rows.
Proof.
  induction 1 as [u c0 s c tr Hinit
                 |s c objs obj complain s' c' tr id _ IH Happ Hids
                 |s c objs obj complain o s' c' tr _ IH Happ Hids].
  - destruct (init_fresh_inv _ _ _ _ _ Hinit) as (-> & -> & _).
    exists []. split; [apply store_inv_fresh|constructor].
  - destruct IH as (rows & Hinv & Hrows).
    destruct (append_step _ _ _ _ _ _ _ _ _ Hinv Happ)
      as [[-> _]|(z & citv & cit & _ & _ & Hcit & H1 & H2 & -> & Hinv')].
    + exfalso. apply (f_equal List.length) in Hids.
      rewrite length_app in Hids. simpl in Hids. lia.
    + eexists. split; [exact Hinv'|].
      apply Forall2_app; [exact Hrows|]. constructor; [|constructor].
      exists z, cit. split; [reflexivity|]. split.
      * intros Hn. apply H1. congruence.
      * intros Hn. apply H2. congruence.
  - destruct IH as (rows & Hinv & Hrows).
    destruct (append_step _ _ _ _ _ _ _ _ _ Hinv Happ)
      as [[-> Hinv']|(z & citv & cit & _ & _ & Hcit & H1 & H2 & -> & Hinv')].
    + exists rows. auto.
    + exfalso. simpl in Hids. apply (f_equal List.length) in Hids.
      rewrite length_app in Hids. simpl in Hids. lia.
Qed.

(** ** Reading from a store that satisfies the invariant *)

(** What [_yield_paper] puts in the [citations] field for a cell. *)
Definition resolved (rows_c : list (list value)) (cit : value) : value :=
  match cit with
  | VList ks =>
      VList ((λ k, VPaper (decode (default [] (find_row rows_c k)) VNone))
               <$> ks)
  | v => v
  end.

Lemma find_row_pk rows i r z :
  pk_ok rows → rows !! i = Some r → cell r "id" = VInt z →
  find_row rows (VInt z) = Some r.
Proof.
  intros Hpk Hi Hid.
  destruct (find_row_is_Some rows r z) as [r' Hr'];
    [apply list_elem_of_lookup; eauto|exact Hid|].
  rewrite Hr'. f_equal.
  destruct (find_row_elem _ _ _ Hr') as [Hin Heq].
  apply list_elem_of_lookup in Hin as [j Hj].
  rewrite <- Hid in Heq.
  pose proof (Hpk _ _ _ _ Hj Hi Heq) as ->. congruence.
Qed.

Lemma get_by_id_inv fuel s c rows tc i r :
  store_inv s c rows → failed c = false →
  tables c !! citations_of (name s) = Some tc →
  rows !! i = Some r →
  ∃ tr,
    get_by_id (S (S fuel)) s (cell r "id") c =
      (Return (decode r (resolved (t_rows tc) (cell r "citations"))), c, tr).
Proof.
  intros [H1 (tp & Htp & Hrows) (tc' & Htc & Hok & Hrefs) H4 H5 H6 H7]
         Hf Htc' Hi.
  assert (tc' = tc) as -> by congruence.
  rewrite Forall_forall in H5, H6, Hrefs.
  assert (r ∈ rows) as Hin by (apply list_elem_of_lookup; eauto).
  destruct (H6 r Hin) as [z Hz].
  rewrite (get_by_id_step _ _ _ _ _ Htp Hf), Hrows, Hz.
  rewrite (find_row_pk _ _ _ _ H7 Hi Hz). cbn [yield_paper].
  rewrite (yield_fields_row _ _ _ _ H1 (H5 r Hin)).
  destruct (Hrefs r Hin) as [Hn|(zs & Hzs & Hall)].
  - rewrite Hn.
    change (is_citations (VStr "citations") VNone) with false. cbv iota.
    rewrite bind_ret_l. eexists. reflexivity.
  - rewrite Hzs.
    change (is_citations (VStr "citations") (VList (VInt <$> zs))) with true.
    cbv iota.
    erewrite bind_return; cycle 1.
    { apply (resolve_citations_ok fuel s zs c tc Htc Hf Hok).
      rewrite Forall_forall in Hall. exact Hall. }
    cbn [ret resolved]. eexists. f_equal. f_equal. f_equal. f_equal.
    rewrite <- !list_fmap_compose. reflexivity.
Qed.

(** [list.__getitem__] inside and outside the range of the list. *)
Lemma list_getitem_in {S A} (l : list A) (i : nat) (x : A) (s : S) :
  l !! i = Some x → list_getitem l (Z.of_nat i) s = (Return x, s, []).
Proof.
  intros Hi. pose proof (lookup_lt_Some _ _ _ Hi) as Hlt.
  unfold list_getitem.
  destruct (Z.ltb_spec (Z.of_nat i) 0) as [?|_]; [lia|].
  destruct (Z.leb_spec 0 (Z.of_nat i)) as [_|?]; [|lia].
  destruct (Z.ltb_spec (Z.of_nat i) (Z.of_nat (List.length l))) as [_|?];
    [|lia].
  simpl. rewrite Nat2Z.id, Hi. reflexivity.
Qed.


(** ** Indexing *)

(** [appended s c objs]: [s] and [c] result from a fresh store by
    [length objs] calls of [append], each of which added to the list; the
    Records given to them were [objs], in this order. *)
Inductive appended : SQLPapers → conn → list Paper → Prop :=
| appended_init u c0 s c tr :
    init None u c0 = (Return s, c, tr) →
    appended s c []
| appended_step s c objs obj complain s' c' tr id :
    appended s c objs →
    append obj complain (s, c) = (Return tt, (s', c'), tr) →
    rowIds s' = rowIds s ++ [id] →
    appended s' c' (objs ++ [obj]).

Lemma appended_built s c objs :
  appended s c objs → built s c objs ∧ failed c = false.
Proof.
  induction 1 as [u c0 s c tr Hinit
                 |s c objs obj complain s' c' tr id _ [IH _] Happ Hids].
  - split; [econstructor; exact Hinit|].
    destruct (init_fresh_inv _ _ _ _ _ Hinit) as (_ & -> & _). reflexivity.
  - split; [econstructor; eassumption|].
    destruct (built_inv _ _ _ IH) as (rows & Hinv & _).
    destruct (append_step _ _ _ _ _ _ _ _ _ Hinv Happ)
      as [[-> _]|(z & citv & cit & _ & Hf & _)]; [|exact Hf].
    exfalso. apply (f_equal List.length) in Hids.
    rewrite length_app in Hids. simpl in Hids. lia.
Qed.

Lemma cell_row_for_field obj r k :
  row_for obj r → k ∈ paper_fields → k ≠ "citations" →
  cell r k = default VNone (obj !! k).
Proof.
  intros (z & cit & -> & _) Hk Hne.
  destruct (paper_fields_columns k Hk) as [Hcol Hid].
  rewrite cell_row_of by assumption. unfold primary_vals.
  rewrite lookup_insert_ne, lookup_delete_ne by congruence. reflexivity.
Qed.

(** A fresh store to which two Records were appended. *)
Definition ex_cited : Paper :=
  {[ "doi" := VStr "10.1/b"; "citations" := VNone ]}.
Definition ex_first : Paper :=
  {[ "doi" := VStr "10.1/a1"; "citations" := VList [VPaper ex_cited] ]}.
Definition ex_second : Paper :=
  {[ "doi" := VStr "10.1/a2"; "citations" := VNone ]}.

Definition ex_fresh : SQLPapers * conn :=
  match init None 7%N (mkConn ∅ false "db") with
  | (Return s, c, _) => (s, c)
  | (_, c, _) => (fresh_store 7%N, c)
  end.

Definition ex_world : SQLPapers * conn :=
  (append ex_second true (append ex_first true ex_fresh).1.2).1.2.

Lemma ex_appended : appended ex_world.1 ex_world.2 [ex_first; ex_second].
Proof.
  eapply (appended_step _ _ [ex_first] ex_second true).
  - eapply (appended_step _ _ [] ex_first true).
    + eapply (appended_init 7%N (mkConn ∅ false "db")).
      vm_compute. reflexivity.
    + vm_compute. reflexivity.
    + reflexivity.
  - vm_compute. reflexivity.
  - reflexivity.
Qed.

(** ** The depth of the resolution *)

Lemma get_by_id_failed fuel s id c :
  failed c = true →
  get_by_id (S fuel) s id c =
    (Raise InternalError, c, [SelectById (name s) id]).
Proof.
  intros Hf. cbn [get_by_id]. apply bind_raise.
  unfold execute. rewrite run_failed by (exact Hf || discriminate).
  reflexivity.
Qed.

Lemma get_by_id_no_table fuel s id c :
  failed c = false → tables c !! name s = None →
  get_by_id (S fuel) s id c =
    (Raise ProgrammingError, mkConn (tables c) true (dbname c),
     [SelectById (name s) id]).
Proof.
  intros Hf Ht. cbn [get_by_id]. apply bind_raise.
  unfold execute, run. rewrite Hf, Ht. reflexivity.
Qed.

(** In a table whose rows all have a NULL [citations] cell, resolution
    never starts a nested resolution: one unit of budget is enough. *)
Lemma get_by_id_citation_total cs c tc id :
  tables c !! name cs = Some tc →
  cols cs = VStr <$> paper_columns →
  citation_rows_ok (t_rows tc) →
  ∃ o c' tr, o ≠ Fuel ∧ ∀ fuel, get_by_id (S fuel) cs id c = (o, c', tr).
Proof.
  intros Ht Hcols Hok. destruct (failed c) eqn:Hf.
  { eexists _, _, _. split; [|intros fuel; apply get_by_id_failed, Hf].
    discriminate. }
  destruct (find_row (t_rows tc) id) as [r|] eqn:Hr.
  - destruct (find_row_elem _ _ _ Hr) as [Hin _].
    unfold citation_rows_ok in Hok. rewrite Forall_forall in Hok.
    destruct (Hok r Hin) as [Hlen Hcit].
    eexists _, _, _. split; [|intros fuel].
    2: apply (get_by_id_plain fuel cs id c tc r); assumption.
    discriminate.
  - exists (Raise TypeError), c, [SelectById (name cs) id].
    split; [discriminate|]. intros fuel.
    rewrite (get_by_id_step _ _ _ _ _ Ht Hf), Hr. reflexivity.
Qed.

(** Under the invariant, the resolution of a primary record goes one
    level deep at most: two units of budget are enough. *)
Lemma get_by_id_primary_total s c rows id :
  store_inv s c rows →
  ∃ o c' tr,
    o ≠ Fuel ∧ ∀ fuel, get_by_id (S (S fuel)) s id c = (o, c', tr).
Proof.
  intros [H1 (tp & Htp & Hrows) (tc & Htc & Hok & Hrefs) H4 H5 H6 H7].
  destruct (failed c) eqn:Hf.
  { eexists _, _, _. split; [|intros fuel; apply get_by_id_failed, Hf].
    discriminate. }
  destruct (find_row (t_rows tp) id) as [r|] eqn:Hr.
  - destruct (find_row_elem _ _ _ Hr) as [Hin _]. rewrite Hrows in Hin.
    rewrite Forall_forall in H5, Hrefs.
    destruct (Hrefs r Hin) as [Hn|(zs & Hzs & Hall)].
    + exists (Return (decode r VNone)), c, [SelectById (name s) id].
      split; [discriminate|]. intros fuel.
      apply (get_by_id_plain _ s id c tp r); auto.
    + eexists (Return _), c, _. split; [discriminate|]. intros fuel.
      rewrite (get_by_id_step _ _ _ _ _ Htp Hf), Hr. cbn [yield_paper].
      rewrite (yield_fields_row _ _ _ _ H1 (H5 r Hin)), Hzs.
      change (is_citations (VStr "citations") (VList (VInt <$> zs)))
        with true.
      cbv iota.
      erewrite bind_return; cycle 1.
      { apply (resolve_citations_ok fuel s zs c tc Htc Hf Hok).
        rewrite Forall_forall in Hall. exact Hall. }
      cbn [ret]. reflexivity.
  - exists (Raise TypeError), c, [SelectById (name s) id].
    split; [discriminate|]. intros fuel.
    rewrite (get_by_id_step _ _ _ _ _ Htp Hf), Hr. reflexivity.
Qed.

(** C9: in a store built by [append] from a fresh store, every row of the
    citation table has a NULL [citations] cell; resolving an identifier in
    the citation table never starts a nested resolution (a budget of one
    is enough, a larger one changes nothing), and resolving an identifier
    of the primary table recurses one level at most (a budget of two is
    enough). *)
Theorem citation_rows_null_one_level (s : SQLPapers) (c : conn)
    (objs : list Paper) :
  built s c objs →
  ∃ tc,
    tables c !! citations_of (name s) = Some tc ∧
    Forall (λ r, cell r "citations" = VNone) (t_rows tc) ∧
    (∀ fuel ids id,
       let cs := mkStore (citations_of (name s)) (VStr <$> paper_columns)
                         ids in
       get_by_id (S fuel) cs id c = get_by_id 1 cs id c ∧
       (get_by_id 1 cs id c).1.1 ≠ Fuel) ∧
    (∀ fuel id,
       get_by_id (S (S fuel)) s id c = get_by_id 2 s id c ∧
       (get_by_id 2 s id c).1.1 ≠ Fuel).
Proof.
  intros Hb. destruct (built_inv _ _ _ Hb) as (rows & Hinv & _).
  destruct (inv_citations _ _ _ Hinv) as (tc & Htc & Hok & _).
  exists tc. split; [exact Htc|]. split; [|split].
  - eapply Forall_impl; [exact Hok|]. intros r [_ H]. exact H.
  - intros fuel ids id cs.
    destruct (get_by_id_citation_total cs c tc id Htc eq_refl Hok)
      as (o & c' & tr & Ho & Hget).
    rewrite (Hget fuel), (Hget 0%nat). split; [reflexivity|exact Ho].
  - intros fuel id.
    destruct (get_by_id_primary_total s c rows id Hinv)
      as (o & c' & tr & Ho & Hget).
    rewrite (Hget fuel), (Hget 0%nat). split; [reflexivity|exact Ho].
Qed.

Lemma citation_rows_null_one_level_witness :
  ∃ tc,
    tables ex_world.2 !! citations_of (name ex_world.1) = Some tc ∧
    Forall (λ r, cell r "citations" = VNone) (t_rows tc) ∧
    (∀ fuel ids id,
       let cs := mkStore (citations_of (name ex_world.1))
                         (VStr <$> paper_columns) ids in
       get_by_id (S fuel) cs id ex_world.2 = get_by_id 1 cs id ex_world.2 ∧
       (get_by_id 1 cs id ex_world.2).1.1 ≠ Fuel) ∧
    (∀ fuel id,
       get_by_id (S (S fuel)) ex_world.1 id ex_world.2 =
         get_by_id 2 ex_world.1 id ex_world.2 ∧
       (get_by_id 2 ex_world.1 id ex_world.2).1.1 ≠ Fuel).
Proof.
  apply (citation_rows_null_one_level ex_world.1 ex_world.2
           [ex_first; ex_second]).
  exact (proj1 (appended_built _ _ _ ex_appended)).
Defined.

(** ** Reading leaves the connection as it was *)

(** [reads c m]: when [m], started on [c], returns, the connection is [c]. *)
Definition reads {A} (c : conn) (m : Db A) : Prop :=
  triple (λ s, s = c) m (λ _ s, s = c) (λ _, True).

Lemma reads_ret {A} c (a : A) : reads c (ret a).
Proof. apply triple_ret. auto. Qed.

Lemma reads_raise {A} c e : reads (A := A) c (raise e).
Proof. apply triple_raise. auto. Qed.

Lemma reads_bind {A B} c (m : Db A) (k : A → Db B) :
  reads c m → (∀ a, reads c (k a)) → reads c (bind m k).
Proof. intros Hm Hk. eapply triple_bind; [exact Hm|exact Hk]. Qed.

Lemma reads_execute c s : is_select s = true → reads c (execute s).
Proof.
  intros Hs. apply triple_execute. intros c1 o c' Hrun ->.
  destruct o; auto. exact (run_read_return _ _ _ _ Hs Hrun).
Qed.

Lemma reads_mapM {A B} c (f : A → Db B) (l : list A) :
  (∀ x, reads c (f x)) → reads c (mapM f l).
Proof.
  intros Hf. induction l as [|x l IH]; cbn [mapM]; [apply reads_ret|].
  apply reads_bind; [apply Hf|]. intros y.
  apply reads_bind; [apply IH|]. intros ys. apply reads_ret.
Qed.

Lemma reads_cursor_rows c cur : reads c (cursor_rows cur).
Proof. destruct cur; [apply reads_ret|apply reads_raise]. Qed.

Lemma reads_subscript c x i : reads c (subscript x i).
Proof.
  destruct x as [r|]; [|apply reads_raise]. simpl.
  destruct (r !! i); [apply reads_ret|apply reads_raise].
Qed.

Lemma reads_init c t u : reads c (init (Some t) u).
Proof.
  unfold init. apply reads_bind.
  - apply reads_bind; [apply reads_execute; reflexivity|]. intros cur.
    apply reads_bind; [apply reads_cursor_rows|]. intros rows.
    apply reads_bind; [|intros; apply reads_ret].
    apply reads_mapM. intros. apply reads_subscript.
  - intros this.
    apply reads_bind; [apply reads_execute; reflexivity|]. intros cur.
    apply reads_bind; [apply reads_cursor_rows|]. intros rows.
    apply reads_bind; [|intros; apply reads_ret].
    apply reads_mapM. intros. apply reads_subscript.
Qed.

Lemma reads_py_iter c v : reads c (py_iter v).
Proof. destruct v; first [apply reads_ret|apply reads_raise]. Qed.

Lemma reads_yield_paper c resolve self data :
  (∀ s id, reads c (resolve s id)) →
  reads c (yield_paper resolve self data).
Proof.
  intros Hres. destruct data as [data|]; [|apply reads_raise].
  cbn [yield_paper]. generalize (∅ : Paper) as paper. generalize 0%nat as i.
  induction data as [|v data IH]; intros i paper; cbn [yield_fields].
  - apply reads_ret.
  - destruct (cols self !! i) as [key|]; [|apply reads_raise].
    apply reads_bind; [|intros; apply IH].
    unfold yield_field. apply reads_bind; [|intros; apply reads_ret].
    destruct (is_citations key v); [|apply reads_ret].
    apply reads_bind; [apply reads_init|]. intros citations.
    apply reads_bind; [apply reads_py_iter|]. intros ks.
    apply reads_bind; [|intros; apply reads_ret].
    apply reads_mapM. intros. apply Hres.
Qed.

Lemma reads_get_by_id c fuel self id : reads c (get_by_id fuel self id).
Proof.
  revert self id. induction fuel as [|fuel IH]; intros self id.
  - intros s o s' tr [= <- <- <-] _. exact I.
  - cbn [get_by_id].
    apply reads_bind; [apply reads_execute; reflexivity|]. intros cur.
    apply reads_bind; [|intros; apply reads_yield_paper; exact IH].
    eapply triple_try with (E1 := λ _, True); [|auto|].
    + destruct cur as [[|r rows]|]; first [apply reads_ret|apply reads_raise].
    + intros e k Hk. destruct e; try discriminate Hk. injection Hk as <-.
      apply triple_raise. auto.
Qed.

(** ** Iteration *)

(** Iteration as the specification words it: one Record per row of the
    table, each obtained by resolving the identifier of the row. *)
Fixpoint resolve_rows (fuel : nat) (self : SQLPapers)
    (rows : list (list value)) (c : conn)
    : list Paper * outcome unit * conn :=
  match rows with
  | [] => ([], Return tt, c)
  | r :: rows' =>
      match get_by_id fuel self (cell r "id") c with
      | (Return p, c1, _) =>
          let '(ps, o, c2) := resolve_rows fuel self rows' c1 in
          (p :: ps, o, c2)
      | (Raise e, c1, _) => ([], Raise e, c1)
      | (Fuel, c1, _) => ([], Fuel, c1)
      end
  end.

(** What a caller sees of an iteration: the Papers, how it ended and the
    connection. *)
Definition observe {A B C D} (x : A * B * C * D) : A * B * C := x.1.

(** The rows have identifiers, as the primary key requires. *)
Definition ids_not_null (rows : list (list value)) : Prop :=
  Forall (λ r, ∃ z, cell r "id" = VInt z) rows.

Lemma iter_rows_resolve fuel self c tb rs :
  tables c !! name self = Some tb → failed c = false →
  pk_ok (t_rows tb) → ids_not_null (t_rows tb) →
  rs ⊆ t_rows tb →
  observe (iter_rows fuel self rs c) = resolve_rows (S fuel) self rs c ∧
  ∀ ps c' tr, iter_rows fuel self rs c = (ps, Return tt, c', tr) →
              List.length ps = List.length rs ∧ c' = c.
Proof.
  intros Ht Hf Hpk Hids. induction rs as [|r rs IH]; intros Hsub.
  - split; [reflexivity|]. intros ps c' tr [= <- <- <-]. auto.
  - assert (r ∈ t_rows tb) as Hin by (apply Hsub; left).
    assert (rs ⊆ t_rows tb) as Hsub'
      by (intros x Hx; apply Hsub; right; exact Hx).
    destruct (IH Hsub') as [IH1 IH2]. clear IH.
    unfold ids_not_null in Hids. rewrite Forall_forall in Hids.
    destruct (Hids r Hin) as [z Hz].
    apply list_elem_of_lookup in Hin as [i Hi].
    cbn [iter_rows resolve_rows].
    rewrite (get_by_id_step _ _ _ _ _ Ht Hf), Hz.
    rewrite (find_row_pk _ _ _ _ Hpk Hi Hz).
    destruct (yield_paper (get_by_id fuel) self (Some r) c)
      as [[[p|e|] c1] tr1] eqn:Hy.
    + assert (c1 = c) as ->.
      { refine (reads_yield_paper c _ self (Some r) _ _ _ _ _ Hy eq_refl).
        intros s id. apply reads_get_by_id. }
      destruct (iter_rows fuel self rs c) as [[[ps o] c2] tr2] eqn:Hit.
      unfold observe in IH1 |- *. simpl in IH1 |- *. rewrite <- IH1.
      split; [reflexivity|].
      intros ps' c' tr [= <- -> <- <-].
      destruct (IH2 _ _ _ eq_refl) as [Hlen ->]. simpl. auto.
    + split; [reflexivity|]. discriminate.
    + split; [reflexivity|]. discriminate.
Qed.

Lemma iter_scan fuel self c tb :
  tables c !! name self = Some tb → failed c = false →
  iter fuel self c =
    let '(ps, o, c2, tr2) := iter_rows fuel self (t_rows tb) c in
    (ps, o, c2, SelectAll (name self) :: tr2).
Proof.
  intros Ht Hf. unfold iter.
  erewrite bind_return
    by (unfold execute, run; rewrite Hf, Ht; reflexivity).
  reflexivity.
Qed.

Lemma resolve_rows_inv fuel s c rows tc rs :
  store_inv s c rows → failed c = false →
  tables c !! citations_of (name s) = Some tc →
  rs ⊆ rows →
  resolve_rows (S (S fuel)) s rs c =
    ((λ r, decode r (resolved (t_rows tc) (cell r "citations"))) <$> rs,
     Return tt, c).
Proof.
  intros Hinv Hf Htc. induction rs as [|r rs IH]; intros Hsub;
    [reflexivity|].
  assert (r ∈ rows) as Hin by (apply Hsub; left).
  apply list_elem_of_lookup in Hin as [i Hi].
  destruct (get_by_id_inv fuel _ _ _ _ _ _ Hinv Hf Htc Hi) as [tr Hget].
  cbn [resolve_rows]. rewrite Hget, IH; [reflexivity|].
  intros x Hx. apply Hsub. right. exact Hx.
Qed.

(** C7: on a table whose [id] column is a primary key, the iteration
    yields what resolving the identifier of every row, in scan order,
    yields, and ends as that ends; when it ends normally it has yielded
    one Paper per row and left the connection as it was, so that a new
    iteration yields the same sequence again.  On a store built by
    [append] from a fresh store the iteration does end normally. *)
Theorem iter_resolves_every_row (fuel : nat) (self : SQLPapers) (c : conn)
    (tb : table) :
  tables c !! name self = Some tb →
  failed c = false →
  pk_ok (t_rows tb) →
  ids_not_null (t_rows tb) →
  observe (iter fuel self c) = resolve_rows (S fuel) self (t_rows tb) c ∧
  (∀ ps c' tr,
     iter fuel self c = (ps, Return tt, c', tr) →
     List.length ps = List.length (t_rows tb) ∧
     c' = c ∧
     iter fuel self c' = (ps, Return tt, c', tr)) ∧
  (∀ objs, built self c objs →
     ∃ ps tr, iter (S fuel) self c = (ps, Return tt, c, tr) ∧
              List.length ps = List.length (t_rows tb)).
Proof.
  intros Ht Hf Hpk Hids.
  assert (∀ fuel,
    observe (iter fuel self c) = resolve_rows (S fuel) self (t_rows tb) c ∧
    ∀ ps c' tr,
      iter fuel self c = (ps, Return tt, c', tr) →
      List.length ps = List.length (t_rows tb) ∧
      c' = c ∧
      iter fuel self c' = (ps, Return tt, c', tr)) as Hgen.
  { intros fuel'.
    destruct (iter_rows_resolve fuel' self c tb (t_rows tb) Ht Hf Hpk Hids)
      as [H1 H2]; [intros x Hx; exact Hx|].
    rewrite (iter_scan _ _ _ _ Ht Hf).
    destruct (iter_rows fuel' self (t_rows tb) c)
      as [[[ps o] c2] tr2] eqn:Hit.
    split; [exact H1|].
    intros ps' c' tr [= <- -> <- <-].
    destruct (H2 _ _ _ eq_refl) as [Hlen ->].
    repeat split; [exact Hlen|].
    rewrite (iter_scan _ _ _ _ Ht Hf), Hit. reflexivity. }
  destruct (Hgen fuel) as [H1 H2]. split; [exact H1|]. split; [exact H2|].
  intros objs Hb. destruct (built_inv _ _ _ Hb) as (rows & Hinv & _).
  destruct (inv_citations _ _ _ Hinv) as (tc & Htc & _).
  destruct (inv_primary _ _ _ Hinv) as (tp & Htp & Hrows).
  assert (tp = tb) as -> by congruence.
  destruct (Hgen (S fuel)) as [H3 H4].
  rewrite (resolve_rows_inv fuel self c rows tc (t_rows tb) Hinv Hf Htc)
    in H3 by (rewrite Hrows; intros x Hx; exact Hx).
  destruct (iter (S fuel) self c) as [[[ps o] c'] tr] eqn:Hit.
  unfold observe in H3. simpl in H3. injection H3 as -> -> ->.
  eexists _, tr. split; [reflexivity|]. rewrite length_fmap. reflexivity.
Qed.

Definition ex_table : table :=
  default (mkTable [] 0) (tables ex_world.2 !! name ex_world.1).

Lemma iter_resolves_every_row_witness :
  let self := ex_world.1 in
  let c := ex_world.2 in
  List.length (t_rows ex_table) = 2%nat ∧
  observe (iter 1 self c) = resolve_rows 2 self (t_rows ex_table) c ∧
  (∀ ps c' tr,
     iter 1 self c = (ps, Return tt, c', tr) →
     List.length ps = List.length (t_rows ex_table) ∧
     c' = c ∧
     iter 1 self c' = (ps, Return tt, c', tr)) ∧
  (∀ objs, built self c objs →
     ∃ ps tr, iter 2 self c = (ps, Return tt, c, tr) ∧
              List.length ps = List.length (t_rows ex_table)).
Proof.
  intros self c. split; [vm_compute; reflexivity|].
  apply (iter_resolves_every_row 1 self c ex_table).
  - vm_compute. reflexivity.
  - vm_compute. reflexivity.
  - intros i j r r' Hi Hj Heq.
    destruct i as [|[|i]], j as [|[|j]]; try reflexivity;
      vm_compute in Hi, Hj; try discriminate;
      injection Hi as <-; injection Hj as <-;
      vm_compute in Heq; discriminate.
  - repeat constructor; eexists; vm_compute; reflexivity.
Defined.

(** ** Records *)

(** The value of a field, [None] when the mapping lacks it. *)
Definition field (p : Paper) (k : string) : value := default VNone (p !! k).

Definition natural_keys : list string :=
  [ "uri"; "doi"; "pmid"; "wosid"; "eid" ]%string.

(** A Record as [append] expects it: its fields are fields of the Paper
    class, and it has a field besides [citations]. *)
Definition is_record (p : Paper) : bool :=
  bool_decide (map_Forall (λ k _, k ∈ paper_fields) p) &&
  negb (bool_decide (delete "citations" p = ∅)).

Lemma is_record_fields p k v :
  is_record p = true → p !! k = Some v → k ∈ paper_fields.
Proof.
  intros Hp Hk. apply andb_prop in Hp as [Hp _].
  apply bool_decide_eq_true in Hp. exact (Hp k v Hk).
Qed.

Lemma is_record_no_id p : is_record p = true → p !! "id" = None.
Proof.
  intros Hp. destruct (p !! "id") as [v|] eqn:Hid; [|reflexivity].
  destruct (paper_fields_columns _ (is_record_fields _ _ _ Hp Hid)).
  congruence.
Qed.

(** *** Values of the column types

    The statements of the model keep the Python value of every cell and
    compare cells as Python values.  PostgreSQL does the same for values
    of the type of their column; other values it converts or refuses.
    What follows singles out the Records on which the two agree: every
    property that says an INSERT of a Record is accepted is stated for
    these. *)

Inductive coltype :=
| TText          (* text *)
| TKey           (* text UNIQUE *)
| TInteger       (* integer *)
| TTextArray     (* text[] *)
| TTextMatrix.   (* text[][] *)

(** The types [PAPER_TABLE] gives the columns a Record fills. *)
Definition column_type (k : string) : option coltype :=
  if bool_decide (k ∈ ["aulast"; "auinit"; "auuri"]%string) then
    Some TTextArray
  else if String.eqb k "institutions" then Some TTextMatrix
  else if String.eqb k "date" then Some TInteger
  else if bool_decide (k ∈ ["uri"; "doi"; "pmid"; "wosid"; "eid"]%string) then
    Some TKey
  else if bool_decide (k ∈ ["atitle"; "jtitle"; "volume"; "issue"; "spage";
                            "epage"; "ayjid"; "abstract"; "contents";
                            "topics"; "accession"]%string) then
    Some TText
  else None.

(** A string the driver and the server take as it is: ASCII, without the
    NUL character. *)
Definition is_text (v : value) : bool :=
  match v with
  | VStr s =>
      all_chars (λ a, (1 <=? nat_of_ascii a)%nat &&
                      (nat_of_ascii a <=? 127)%nat) s
  | _ => false
  end.

(** A [text] value short enough for an entry of a unique index. *)
Definition is_key (v : value) : bool :=
  match v with
  | VStr s => is_text v && (String.length s <=? 2000)%nat
  | _ => false
  end.

(** A 32-bit integer. *)
Definition is_int32 (v : value) : bool :=
  match v with
  | VInt z => (-2147483648 <=? z) && (z <=? 2147483647)
  | _ => false
  end.

Definition is_text_list (v : value) : bool :=
  match v with
  | VList l => forallb is_text l
  | _ => false
  end.

(** A list of lists of strings that is a PostgreSQL array: the inner lists
    are not empty and have the same length. *)
Definition is_text_matrix (v : value) : bool :=
  match v with
  | VList [] => true
  | VList (VList l0 :: ls) =>
      negb (Nat.eqb (List.length l0) 0) &&
      forallb (λ x, match x with
                    | VList l =>
                        Nat.eqb (List.length l) (List.length l0) &&
                        forallb is_text l
                    | _ => false
                    end) (VList l0 :: ls)
  | _ => false
  end.

(** The value [v] of the field [k] is NULL or of the type of the
    column. *)
Definition typed_value (k : string) (v : value) : bool :=
  match v with
  | VNone => true
  | _ =>
      match column_type k with
      | Some TText => is_text v
      | Some TKey => is_key v
      | Some TInteger => is_int32 v
      | Some TTextArray => is_text_list v
      | Some TTextMatrix => is_text_matrix v
      | None => false
      end
  end.

(** A Record whose fields, [citations] apart, hold values of the types of
    their columns. *)
Definition typed_record (p : Paper) : bool :=
  is_record p &&
  bool_decide (map_Forall (λ k v, k = "citations" ∨ typed_value k v = true) p).

(** An element of a [citations] list: a typed Record (its own
    [citations] is left out by [append]). *)
Definition good_citation (x : value) : bool :=
  match x with
  | VPaper X => typed_record X
  | _ => false
  end.

(** A Record as [append] is meant to get it: typed, with [citations]
    [None] or a list of typed Records. *)
Definition good_record (p : Paper) : bool :=
  typed_record p &&
  match p !! "citations" with
  | Some VNone => true
  | Some (VList l) => forallb good_citation l
  | _ => false
  end.

Lemma typed_record_is_record p : typed_record p = true → is_record p = true.
Proof. intros H. apply andb_prop in H as [H _]. exact H. Qed.

Lemma good_record_typed p : good_record p = true → typed_record p = true.
Proof. intros H. apply andb_prop in H as [H _]. exact H. Qed.

Lemma typed_record_field p k v :
  typed_record p = true → p !! k = Some v → k ≠ "citations" →
  typed_value k v = true.
Proof.
  intros H Hk Hne. apply andb_prop in H as [_ H].
  apply bool_decide_eq_true in H. destruct (H k v Hk); [contradiction|].
  assumption.
Qed.

Lemma good_citations_records l :
  forallb good_citation l = true →
  Forall (λ x, ∃ X, x = VPaper X ∧ is_record X = true) l.
Proof.
  intros H. apply Forall_forall. intros x Hx.
  rewrite forallb_forall in H. specialize (H x).
  rewrite <- list_elem_of_In in H. specialize (H Hx).
  destruct x as [| | | |X]; try discriminate.
  exists X. split; [reflexivity|apply typed_record_is_record, H].
Qed.

Lemma good_record_citations p l :
  good_record p = true → p !! "citations" = Some (VList l) →
  forallb good_citation l = true.
Proof.
  intros H Hl. apply andb_prop in H as [_ H]. rewrite Hl in H. exact H.
Qed.

(** The [citations] of a good Record: [None], or a list of Records. *)
Lemma good_record_cases p :
  good_record p = true →
  p !! "citations" = Some VNone ∨
  ∃ l, p !! "citations" = Some (VList l) ∧ forallb good_citation l = true.
Proof.
  intros H. apply andb_prop in H as [_ H].
  destruct (p !! "citations") as [[| | |l|]|]; try discriminate; eauto.
Qed.

Lemma good_citations_papers l :
  forallb good_citation l = true → ∃ ps, l = VPaper <$> ps.
Proof.
  induction l as [|x l IH]; intros H; [exists []; reflexivity|].
  cbn [forallb] in H. apply andb_prop in H as [Hx Hl].
  destruct (IH Hl) as [ps ->]. destruct x as [| | | |X]; try discriminate.
  exists (X :: ps). reflexivity.
Qed.

Lemma defined_columns vals :
  (∀ k v, vals !! k = Some v → k ∈ paper_columns) →
  undefined_column vals = false.
Proof.
  intros H. unfold undefined_column.
  rewrite bool_decide_eq_true_2; [reflexivity|]. exact H.
Qed.

Lemma citation_vals_ok p :
  is_record p = true →
  let vals := delete "citations" p in
  vals ≠ ∅ ∧ undefined_column vals = false ∧ vals !! "id" = None.
Proof.
  intros Hp vals. split; [|split].
  - apply andb_prop in Hp as [_ Hp]. apply negb_true_iff in Hp.
    apply bool_decide_eq_false in Hp. exact Hp.
  - apply defined_columns. intros k v Hk.
    apply lookup_delete_Some in Hk as [_ Hk].
    apply (paper_fields_columns k), (is_record_fields _ _ _ Hp Hk).
  - unfold vals. rewrite lookup_delete_ne by discriminate.
    apply is_record_no_id, Hp.
Qed.

Lemma primary_vals_ok p cit :
  is_record p = true →
  let vals := primary_vals p cit in
  vals ≠ ∅ ∧ undefined_column vals = false ∧ vals !! "id" = None.
Proof.
  intros Hp vals. unfold vals, primary_vals. split; [|split].
  - apply insert_non_empty.
  - apply defined_columns. intros k v Hk.
    apply lookup_insert_Some in Hk as [[<- _]|[_ Hk]];
      [apply citations_column|].
    apply lookup_delete_Some in Hk as [_ Hk].
    apply (paper_fields_columns k), (is_record_fields _ _ _ Hp Hk).
  - rewrite lookup_insert_ne, lookup_delete_ne by discriminate.
    apply is_record_no_id, Hp.
Qed.

(** ** Statements that succeed *)

Lemma run_insert_ok t vals c tb :
  failed c = false → tables c !! t = Some tb →
  vals ≠ ∅ → undefined_column vals = false → vals !! "id" = None →
  let z := t_serial tb + 1 in
  first_conflict unique_columns (t_rows tb) (row_of (VInt z) vals) = None →
  run (Insert t vals) c =
    (Return (Some [[VInt z]]),
     set_table c t (mkTable (t_rows tb ++ [row_of (VInt z) vals]) z)).
Proof.
  intros Hf Ht Hne Hcols Hid z Hconf. unfold run, run_insert.
  rewrite Hf, Ht, Hcols.
  rewrite bool_decide_eq_false_2 by exact Hne.
  unfold insert_id. rewrite Hid. fold z. rewrite Hconf. reflexivity.
Qed.

(** The citation is new: it is inserted and its identifier is kept. *)
Lemma append_citation_new s p c tb :
  failed c = false → tables c !! citations_of (name s) = Some tb →
  is_record p = true →
  let vals := delete "citations" p in
  let z := t_serial tb + 1 in
  first_conflict unique_columns (t_rows tb) (row_of (VInt z) vals) = None →
  append_citation s (VPaper p) c =
    (Return (Some z),
     commit_conn (set_table c (citations_of (name s))
                    (mkTable (t_rows tb ++ [row_of (VInt z) vals]) z)),
     [Insert (citations_of (name s)) vals; Commit]).
Proof.
  intros Hf Ht Hp vals z Hconf.
  destruct (citation_vals_ok p Hp) as (H1 & H2 & H3).
  pose proof (run_insert_ok _ _ _ _ Hf Ht H1 H2 H3 Hconf) as Hrun.
  subst vals z. cbn [append_citation].
  unfold bind, try_except, execute, commit. rewrite Hrun.
  reflexivity.
Qed.

(** The primary row is new: it is inserted, the transaction is committed
    and the identifier is appended to the list. *)
Lemma append_new obj complain s c c1 citv cit tr1 tb :
  obj !! "citations" = Some citv →
  citation_phase s citv c = (Return cit, c1, tr1) →
  failed c1 = false → tables c1 !! name s = Some tb →
  is_record obj = true →
  let vals := primary_vals obj cit in
  let z := t_serial tb + 1 in
  first_conflict unique_columns (t_rows tb) (row_of (VInt z) vals) = None →
  append obj complain (s, c) =
    (Return tt,
     (mkStore (name s) (cols s) (rowIds s ++ [VInt z]),
      commit_conn (set_table c1 (name s)
                     (mkTable (t_rows tb ++ [row_of (VInt z) vals]) z))),
     tr1 ++ [Insert (name s) vals; Commit]).
Proof.
  intros Hcit Hph Hf Ht Hp vals z Hconf.
  destruct (primary_vals_ok obj cit Hp) as (H1 & H2 & H3).
  pose proof (run_insert_ok _ _ _ _ Hf Ht H1 H2 H3 Hconf) as Hrun.
  subst vals z. unfold_append. rewrite Hcit; simpl. rewrite Hph; simpl.
  rewrite Hrun. reflexivity.
Qed.

(** ** A Record with two citations on a fresh store *)

Lemma first_conflict_none_1 z1 z2 vals1 vals2 :
  z1 ≠ z2 →
  vals1 !! "id" = None → vals2 !! "id" = None →
  (∀ k, k ∈ natural_keys → sql_eq (field vals1 k) (field vals2 k) = false) →
  first_conflict unique_columns [row_of (VInt z1) vals1]
    (row_of (VInt z2) vals2) = None.
Proof.
  intros Hz H1 H2 Hk. unfold unique_columns.
  cbn [first_conflict existsb].
  change (cell (row_of (VInt z1) vals1) "id") with (VInt z1).
  change (cell (row_of (VInt z2) vals2) "id") with (VInt z2).
  cbn [sql_eq]. rewrite bool_decide_eq_false_2 by exact Hz. cbn [orb].
  assert (∀ k, k ∈ natural_keys →
            sql_eq (cell (row_of (VInt z1) vals1) k)
                   (cell (row_of (VInt z2) vals2) k) || false = false) as H.
  { intros k Hin. rewrite orb_false_r.
    assert (k ∈ paper_columns ∧ k ≠ "id") as [Hc Hne].
    { unfold natural_keys in Hin.
      repeat (apply elem_of_cons in Hin as [->|Hin];
              [split; [apply (bool_decide_unpack _); reflexivity
                      |discriminate]|]).
      apply elem_of_nil in Hin. destruct Hin. }
    rewrite !cell_row_of by assumption. apply Hk, Hin. }
  rewrite !H; [reflexivity|..]; apply (bool_decide_unpack _); reflexivity.
Qed.

Lemma field_delete p k :
  k ≠ "citations" → field (delete "citations" p) k = field p k.
Proof.
  intros Hne. unfold field. rewrite lookup_delete_ne by congruence.
  reflexivity.
Qed.

Lemma natural_key_not_citations k : k ∈ natural_keys → k ≠ "citations".
Proof.
  intros Hin ->.
  assert (bool_decide ("citations" ∈ natural_keys) = false) as H
    by reflexivity.
  apply bool_decide_eq_false_1 in H. contradiction.
Qed.

Section two_citations.
Variable u : N.
Variable c0 : conn.
Variables obj b1 b2 : Paper.
Hypothesis c0_ready : failed c0 = false.
Hypothesis c0_fresh : tables c0 !! fresh_name u = None.
Hypothesis c0_fresh_cit : tables c0 !! citations_of (fresh_name u) = None.
Hypothesis obj_typed : typed_record obj = true.
Hypothesis b1_typed : typed_record b1 = true.
Hypothesis b2_typed : typed_record b2 = true.
Hypothesis obj_cites :
  obj !! "citations" = Some (VList [VPaper b1; VPaper b2]).
Hypothesis keys_distinct :
  ∀ k, k ∈ natural_keys → sql_eq (field b1 k) (field b2 k) = false.

Let obj_record : is_record obj = true :=
  typed_record_is_record obj obj_typed.
Let b1_record : is_record b1 = true := typed_record_is_record b1 b1_typed.
Let b2_record : is_record b2 = true := typed_record_is_record b2 b2_typed.
Let tname := fresh_name u.
Let cname := citations_of (fresh_name u).
Let r1 := row_of (VInt 1) (delete "citations" b1).
Let r2 := row_of (VInt 2) (delete "citations" b2).
Let rp := row_of (VInt 1) (primary_vals obj (VList [VInt 1; VInt 2])).

(** The connection after the citation phase and after the append. *)
Let conn_cited : conn :=
  mkConn (<[cname := mkTable [r1; r2] 2]>
            (<[cname := mkTable [r1] 1]> (tables (fresh_conn u c0))))
         false (dbname c0).
Let conn_appended : conn :=
  mkConn (<[tname := mkTable [rp] 1]> (tables conn_cited)) false (dbname c0).

Lemma two_citations_phase :
  citation_phase (fresh_store u) (VList [VPaper b1; VPaper b2])
    (fresh_conn u c0) =
  (Return (VList [VInt 1; VInt 2]), conn_cited,
   [Insert cname (delete "citations" b1); Commit;
    Insert cname (delete "citations" b2); Commit]).
Proof.
  cbn [citation_phase py_iter]. rewrite bind_ret_l.
  cbn [append_citations].
  erewrite bind_return; cycle 1.
  { erewrite bind_return; cycle 1.
    { apply (append_citation_new (fresh_store u) b1 (fresh_conn u c0)
               (mkTable [] 0)); [reflexivity| |exact b1_record|reflexivity].
      apply lookup_insert_eq. }
    erewrite bind_return; cycle 1.
    { eapply (append_citation_new (fresh_store u) b2 _ (mkTable [r1] 1));
        [reflexivity| |exact b2_record|].
      - apply lookup_insert_eq.
      - destruct (citation_vals_ok b1 b1_record) as (_ & _ & Hid1).
        destruct (citation_vals_ok b2 b2_record) as (_ & _ & Hid2).
        apply first_conflict_none_1; [discriminate|assumption..|].
        intros k Hk. pose proof (natural_key_not_citations k Hk).
        rewrite !field_delete by assumption. apply keys_distinct, Hk. }
    reflexivity. }
  reflexivity.
Qed.

Lemma two_citations_append complain :
  append obj complain (fresh_store u, fresh_conn u c0) =
  (Return tt,
   (mkStore tname (VStr <$> paper_columns) [VInt 1], conn_appended),
   [Insert cname (delete "citations" b1); Commit;
    Insert cname (delete "citations" b2); Commit;
    Insert tname (primary_vals obj (VList [VInt 1; VInt 2])); Commit]).
Proof.
  rewrite (append_new obj complain (fresh_store u) (fresh_conn u c0)
             conn_cited _ _ _ (mkTable [] 0) obj_cites two_citations_phase);
    [reflexivity|reflexivity| |exact obj_record|reflexivity].
  unfold conn_cited. cbn [tables fresh_conn].
  rewrite !lookup_insert_ne by apply citations_of_ne.
  apply lookup_insert_eq.
Qed.

Lemma two_citations_appended :
  appended (mkStore tname (VStr <$> paper_columns) [VInt 1]) conn_appended
    [obj].
Proof.
  eapply (appended_step _ _ [] obj true).
  - eapply appended_init.
    exact (init_fresh u c0 c0_ready c0_fresh c0_fresh_cit).
  - apply two_citations_append.
  - reflexivity.
Qed.

Lemma two_citations_find_1 : find_row [r1; r2] (VInt 1) = Some r1.
Proof. reflexivity. Qed.

Lemma two_citations_find_2 : find_row [r1; r2] (VInt 2) = Some r2.
Proof. reflexivity. Qed.

Lemma decode_citation_field b z k :
  k ∈ paper_fields → k ≠ "citations" →
  decode (row_of (VInt z) (delete "citations" b)) VNone !! k =
    Some (field b k).
Proof.
  intros Hk Hne. rewrite decode_field by assumption.
  destruct (paper_fields_columns k Hk) as [Hcol Hid].
  rewrite cell_row_of by assumption.
  rewrite lookup_delete_ne by congruence. reflexivity.
Qed.

(** C2: on a fresh store, appending a Record with two nested citation
    Records whose natural keys differ and reading it back at index 0
    returns a Paper whose [citations] is a list of two Papers, in the
    order of the originals, that have the fields of the originals
    (natural keys and title among them); the Paper itself has the fields
    of the Record.  The three Records hold values of the types of their
    columns ([typed_record]): a [date] outside the 32-bit integers, or a
    number in a [text] column, is refused or converted by PostgreSQL and
    is not read back as it was given. *)
Theorem roundtrip_two_citations (complain : bool) :
  ∃ s0 c1 tr1 s c tr2 p tr3 q1 q2,
    init None u c0 = (Return s0, c1, tr1) ∧
    append obj complain (s0, c1) = (Return tt, (s, c), tr2) ∧
    getitem 2 s 0 c = (Return p, c, tr3) ∧
    p !! "citations" = Some (VList [VPaper q1; VPaper q2]) ∧
    (∀ k, k ∈ paper_fields → k ≠ "citations" →
       q1 !! k = Some (field b1 k) ∧ q2 !! k = Some (field b2 k)) ∧
    (∀ k, k ∈ paper_fields → k ≠ "citations" → p !! k = Some (field obj k)).
Proof.
  pose proof two_citations_appended as Happ.
  destruct (appended_built _ _ _ Happ) as [Hb Hf].
  destruct (built_inv _ _ _ Hb) as (rows & Hinv & _).
  assert (rows = [rp]) as ->.
  { destruct (inv_primary _ _ _ Hinv) as (tp & Htp & <-).
    cbn [name conn_appended tables] in Htp.
    rewrite lookup_insert_eq in Htp. injection Htp as <-. reflexivity. }
  assert (tables conn_appended !! citations_of tname =
            Some (mkTable [r1; r2] 2)) as Htc.
  { cbn [conn_appended tables conn_cited].
    rewrite lookup_insert_ne by (symmetry; apply citations_of_ne).
    apply lookup_insert_eq. }
  destruct (get_by_id_inv 0 _ _ _ _ 0 rp Hinv Hf Htc eq_refl) as [tr Hget].
  eexists _, _, _, _, _, _, _, tr, _, _.
  split; [exact (init_fresh u c0 c0_ready c0_fresh c0_fresh_cit)|].
  split; [exact (two_citations_append complain)|].
  split; [|split; [|split]].
  - unfold getitem.
    rewrite (bind_return_nil _ _ _ (VInt 1) conn_appended eq_refl).
    exact Hget.
  - rewrite decode_citations. unfold rp.
    rewrite cell_primary_citations. cbn [resolved fmap list_fmap t_rows].
    rewrite two_citations_find_1, two_citations_find_2. reflexivity.
  - intros k Hk Hne. split; apply decode_citation_field; assumption.
  - intros k Hk Hne. rewrite decode_field by assumption.
    destruct (paper_fields_columns k Hk) as [Hcol Hid].
    unfold rp. rewrite cell_row_of by assumption. unfold primary_vals.
    rewrite lookup_insert_ne, lookup_delete_ne by congruence. reflexivity.
Qed.

End two_citations.

Lemma roundtrip_two_citations_witness :
  let c0 := mkConn ∅ false "db" in
  let b1 : Paper :=
    {[ "doi" := VStr "10.1/b1"; "atitle" := VStr "First cited";
       "citations" := VNone ]} in
  let b2 : Paper :=
    {[ "doi" := VStr "10.1/b2"; "atitle" := VStr "Second cited";
       "citations" := VNone ]} in
  let obj : Paper :=
    {[ "doi" := VStr "10.1/a"; "atitle" := VStr "Citing";
       "citations" := VList [VPaper b1; VPaper b2] ]} in
  ∃ s0 c1 tr1 s c tr2 p tr3 q1 q2,
    init None 7%N c0 = (Return s0, c1, tr1) ∧
    append obj true (s0, c1) = (Return tt, (s, c), tr2) ∧
    getitem 2 s 0 c = (Return p, c, tr3) ∧
    p !! "citations" = Some (VList [VPaper q1; VPaper q2]) ∧
    (∀ k, k ∈ paper_fields → k ≠ "citations" →
       q1 !! k = Some (field b1 k) ∧ q2 !! k = Some (field b2 k)) ∧
    (∀ k, k ∈ paper_fields → k ≠ "citations" → p !! k = Some (field obj k)).
Proof.
  intros c0 b1 b2 obj.
  apply (roundtrip_two_citations 7%N c0 obj b1 b2);
    try (vm_compute; reflexivity).
  intros k Hk. unfold natural_keys in Hk.
  repeat (apply elem_of_cons in Hk as [->|Hk]; [vm_compute; reflexivity|]).
  apply elem_of_nil in Hk. destruct Hk.
Defined.

(** ** The text of a unique violation and the pattern *)

Fixpoint no_K (s : string) : bool :=
  match s with
  | EmptyString => true
  | String a s' => negb (Ascii.eqb a "K") && no_K s'
  end.

Lemma no_K_app a b : no_K (a +:+ b) = no_K a && no_K b.
Proof.
  induction a as [|x a IH]; simpl; [reflexivity|].
  rewrite IH, andb_assoc. reflexivity.
Qed.

Lemma match_here_not_K a s :
  Ascii.eqb a "K" = false → match_here (String a s) = None.
Proof.
  destruct a as [[] [] [] [] [] [] [] []]; try reflexivity; discriminate.
Qed.

Lemma re_search_key_cons a s :
  re_search_key (String a s) =
    match match_here (String a s) with
    | Some g => Some g
    | None => re_search_key s
    end.
Proof. reflexivity. Qed.

(** A prefix without the letter K holds no match. *)
Lemma re_search_skip pre s :
  no_K pre = true → re_search_key (pre +:+ s) = re_search_key s.
Proof.
  induction pre as [|a pre IH]; [reflexivity|].
  intros H. cbn [no_K] in H.
  apply andb_prop in H as [Ha Hpre]. apply negb_true_iff in Ha.
  change (String a pre +:+ s) with (String a (pre +:+ s)).
  rewrite re_search_key_cons, (match_here_not_K _ _ Ha). apply IH, Hpre.
Qed.

Lemma no_K_hex_digit n : Ascii.eqb (hex_digit n) "K" = false.
Proof.
  unfold hex_digit. generalize (N.to_nat n) as m. intros m.
  do 16 (destruct m as [|m]; [reflexivity|]). destruct m; reflexivity.
Qed.

Lemma no_K_hex k u : no_K (hex k u) = true.
Proof.
  revert u. induction k as [|k IH]; intros u; [reflexivity|].
  cbn [hex]. rewrite no_K_app, IH. cbn [no_K andb].
  rewrite no_K_hex_digit. reflexivity.
Qed.

Lemma no_K_substring n m s : no_K s = true → no_K (substring n m s) = true.
Proof.
  revert n m. induction s as [|a s IH]; intros n m H.
  - destruct n, m; reflexivity.
  - simpl in H. apply andb_prop in H as [Ha Hs].
    destruct n as [|n]; [destruct m as [|m]|]; simpl; auto.
    rewrite Ha. apply IH, Hs.
Qed.

Lemma no_K_replace a b s :
  Ascii.eqb b "K" = false → no_K s = true → no_K (replace_char a b s) = true.
Proof.
  intros Hb. induction s as [|x s IH]; [reflexivity|]. simpl.
  intros H. apply andb_prop in H as [Hx Hs]. rewrite (IH Hs).
  destruct (Ascii.eqb x a); [rewrite Hb|rewrite Hx]; reflexivity.
Qed.

Lemma no_K_fresh_name u : no_K (fresh_name u) = true.
Proof.
  unfold fresh_name, uuid_str. rewrite no_K_app.
  rewrite no_K_replace; [reflexivity|reflexivity|].
  rewrite !no_K_app, !no_K_substring by apply no_K_hex. reflexivity.
Qed.

(** The pattern finds the column PostgreSQL names in the violation of a
    unique constraint of the citation table of a fresh store. *)
Lemma re_search_unique_violation u col v :
  col ∈ natural_keys →
  re_search_key (unique_violation (citations_of (fresh_name u)) col v) =
    Some col.
Proof.
  intros Hcol. unfold unique_violation, citations_of.
  pose proof string_app_assoc as Hassoc.
  unfold natural_keys in Hcol.
  repeat (apply elem_of_cons in Hcol as [->|Hcol];
    [cbn [String.eqb Ascii.eqb Bool.eqb];
     rewrite (Hassoc _ dquote), (Hassoc _ (fresh_name u +:+ "_citations"));
     rewrite re_search_skip; [reflexivity|];
     rewrite !no_K_app, no_K_fresh_name; reflexivity|]).
  apply elem_of_nil in Hcol. destruct Hcol.
Qed.

(** ** A citation that is already in the citation table *)

Lemma run_insert_conflict t vals c tb col :
  failed c = false → tables c !! t = Some tb →
  vals ≠ ∅ → undefined_column vals = false → vals !! "id" = None →
  let z := t_serial tb + 1 in
  first_conflict unique_columns (t_rows tb) (row_of (VInt z) vals)
    = Some col →
  run (Insert t vals) c =
    (Raise (IntegrityError
              (unique_violation t col (cell (row_of (VInt z) vals) col))),
     mkConn (<[t := mkTable (t_rows tb) z]> (tables c)) true (dbname c)).
Proof.
  intros Hf Ht Hne Hcols Hid z Hconf. unfold run, run_insert.
  rewrite Hf, Ht, Hcols.
  rewrite bool_decide_eq_false_2 by exact Hne.
  unfold insert_id. rewrite Hid. fold z. rewrite Hconf. reflexivity.
Qed.

Lemma natural_key_column k :
  k ∈ natural_keys → k ∈ paper_columns ∧ k ≠ "id" ∧ k ≠ "citations".
Proof.
  intros Hin. unfold natural_keys in Hin.
  repeat (apply elem_of_cons in Hin as [->|Hin];
          [split; [apply (bool_decide_unpack _); reflexivity
                  |split; discriminate]|]).
  apply elem_of_nil in Hin. destruct Hin.
Qed.

(** The INSERT of the citation violates the unique constraint on [col]:
    the transaction is committed, the column is read from the message,
    and the identifier of the first row with that value is kept. *)
Lemma append_citation_existing u s p c tb col v r0 z0 :
  name s = fresh_name u →
  failed c = false → tables c !! citations_of (name s) = Some tb →
  is_record p = true →
  let vals := delete "citations" p in
  let z := t_serial tb + 1 in
  first_conflict unique_columns (t_rows tb) (row_of (VInt z) vals)
    = Some col →
  col ∈ natural_keys →
  vals !! col = Some v →
  head (filter (λ r, sql_eq (cell r col) v = true) (t_rows tb)) = Some r0 →
  cell r0 "id" = VInt z0 →
  append_citation s (VPaper p) c =
    (Return (Some z0),
     mkConn (<[citations_of (name s) := mkTable (t_rows tb) z]> (tables c))
            false (dbname c),
     [Insert (citations_of (name s)) vals; Commit;
      SelectIdWhere (citations_of (name s)) col v]).
Proof.
  intros Hname Hf Ht Hp vals z Hconf Hcol Hv Hhead Hid.
  destruct s as [n cs ids]. cbn [name] in *. subst n.
  destruct (citation_vals_ok p Hp) as (H1 & H2 & H3).
  pose proof (run_insert_conflict _ _ _ _ _ Hf Ht H1 H2 H3 Hconf) as Hrun.
  destruct (natural_key_column col Hcol) as (Hc1 & Hc2 & Hc3).
  subst vals z. cbn [append_citation name].
  destruct (filter _ (t_rows tb)) as [|r rows] eqn:Hfl; [discriminate|].
  injection Hhead as ->.
  erewrite bind_return; cycle 1.
  { erewrite try_except_raise; cycle 1.
    { apply bind_raise. unfold execute. rewrite Hrun. reflexivity. }
    { reflexivity. }
    rewrite (bind_return _ _ _ _ _ _ (commit_run _)).
    rewrite re_search_unique_violation by exact Hcol.
    rewrite Hv, bind_ret_l.
    erewrite bind_return; cycle 1.
    { unfold execute, run. cbn [failed tables].
      rewrite lookup_insert_eq, bool_decide_eq_true_2 by exact Hc1.
      cbn [t_rows]. rewrite Hfl. reflexivity. }
    cbn [fmap list_fmap fetchone]. rewrite bind_ret_l.
    cbn [subscript lookup list_lookup]. rewrite bind_ret_l.
    cbn [ret]. rewrite Hid. reflexivity. }
  reflexivity.
Qed.

Lemma first_conflict_self z1 z2 vals :
  z1 ≠ z2 → vals !! "id" = None →
  (∃ k, k ∈ natural_keys ∧ sql_eq (field vals k) (field vals k) = true) →
  ∃ col,
    col ∈ natural_keys ∧
    sql_eq (field vals col) (field vals col) = true ∧
    first_conflict unique_columns [row_of (VInt z1) vals]
      (row_of (VInt z2) vals) = Some col.
Proof.
  intros Hz Hid (k & Hk & Heq). unfold unique_columns.
  cbn [first_conflict existsb].
  change (cell (row_of (VInt z1) vals) "id") with (VInt z1).
  change (cell (row_of (VInt z2) vals) "id") with (VInt z2).
  cbn [sql_eq]. rewrite bool_decide_eq_false_2 by exact Hz. cbn [orb].
  assert (∀ c, c ∈ natural_keys →
            sql_eq (cell (row_of (VInt z1) vals) c)
                   (cell (row_of (VInt z2) vals) c) || false =
            sql_eq (field vals c) (field vals c)) as Hcell.
  { intros c Hc. destruct (natural_key_column c Hc) as (H1 & H2 & _).
    rewrite orb_false_r, !cell_row_of by assumption. reflexivity. }
  assert (∀ c, bool_decide (c ∈ natural_keys) = true → c ∈ natural_keys)
    as Hin by (intros c; apply bool_decide_eq_true_1).
  rewrite !Hcell by (apply Hin; reflexivity).
  unfold natural_keys in Hk.
  destruct (sql_eq (field vals "uri") (field vals "uri")) eqn:E1;
    [exists "uri"%string; auto|].
  destruct (sql_eq (field vals "doi") (field vals "doi")) eqn:E2;
    [exists "doi"%string; auto|].
  destruct (sql_eq (field vals "pmid") (field vals "pmid")) eqn:E3;
    [exists "pmid"%string; auto|].
  destruct (sql_eq (field vals "wosid") (field vals "wosid")) eqn:E4;
    [exists "wosid"%string; auto|].
  destruct (sql_eq (field vals "eid") (field vals "eid")) eqn:E5;
    [exists "eid"%string; auto|].
  exfalso.
  repeat (apply elem_of_cons in Hk as [->|Hk]; [congruence|]).
  apply elem_of_nil in Hk. destruct Hk.
Qed.

Lemma field_primary_vals p cit k :
  k ≠ "citations" → field (primary_vals p cit) k = field p k.
Proof.
  intros Hne. unfold field, primary_vals.
  rewrite lookup_insert_ne, lookup_delete_ne by congruence. reflexivity.
Qed.

Lemma field_Some p k :
  sql_eq (field p k) (field p k) = true → p !! k = Some (field p k).
Proof.
  unfold field. destruct (p !! k) as [v|]; [reflexivity|discriminate].
Qed.

(** ** Conflicts *)

Lemma first_conflict_ext ucols rows1 rows2 r1 r2 :
  (∀ col, col ∈ ucols →
     existsb (λ r', sql_eq (cell r' col) (cell r1 col)) rows1 =
     existsb (λ r', sql_eq (cell r' col) (cell r2 col)) rows2) →
  first_conflict ucols rows1 r1 = first_conflict ucols rows2 r2.
Proof.
  induction ucols as [|c ucols IH]; intros H; [reflexivity|].
  cbn [first_conflict]. rewrite (H c) by left.
  rewrite IH; [reflexivity|]. intros col Hcol. apply H. right. exact Hcol.
Qed.

Lemma first_conflict_Some ucols rows r col :
  first_conflict ucols rows r = Some col →
  col ∈ ucols ∧
  existsb (λ r', sql_eq (cell r' col) (cell r col)) rows = true.
Proof.
  induction ucols as [|c ucols IH]; [discriminate|]. cbn [first_conflict].
  destruct (existsb (λ r', sql_eq (cell r' c) (cell r c)) rows) eqn:He.
  - intros [= Hc]. subst c. split; [left|exact He].
  - intros H. destruct (IH H) as [Hin Hex].
    split; [right; exact Hin|exact Hex].
Qed.

Lemma first_conflict_None ucols rows r :
  (∀ col, col ∈ ucols →
     existsb (λ r', sql_eq (cell r' col) (cell r col)) rows = false) →
  first_conflict ucols rows r = None.
Proof.
  induction ucols as [|c ucols IH]; intros H; [reflexivity|].
  cbn [first_conflict]. rewrite (H c) by left.
  apply IH. intros col Hcol. apply H. right. exact Hcol.
Qed.

Lemma sql_eq_refl_r a b : sql_eq a b = true → sql_eq b b = true.
Proof.
  destruct a, b; try discriminate; simpl; intros _.
  - apply String.eqb_refl.
  - apply bool_decide_eq_true. reflexivity.
Qed.

Lemma existsb_false_Forall {A} (f : A → bool) (l : list A) :
  Forall (λ x, f x = false) l → existsb f l = false.
Proof.
  induction 1 as [|x l Hx _ IH]; [reflexivity|]. simpl. rewrite Hx, IH.
  reflexivity.
Qed.

Lemma unique_column_cases col :
  col ∈ unique_columns → col = "id"%string ∨ col ∈ natural_keys.
Proof. intros [->|H]%elem_of_cons; [left; reflexivity|right; exact H]. Qed.

(** ** Deduplication of a citation *)

(** The row [r] holds a natural key of the Record [B]. *)
Definition touches (B : Paper) (r : list value) : bool :=
  existsb (λ k, sql_eq (cell r k) (field B k)) natural_keys.

(** The Record [X] shares no natural key with [B]. *)
Definition foreign (B X : Paper) : Prop :=
  ∀ k, k ∈ natural_keys → sql_eq (field X k) (field B k) = false.

(** An element of a [citations] list: [B] itself, or a Record that shares
    no natural key with it. *)
Definition cites_ok (B : Paper) (x : value) : Prop :=
  x = VPaper B ∨ ∃ X, x = VPaper X ∧ is_record X = true ∧ foreign B X.

(** The citation table with respect to [B]: identifiers come from the
    sequence, and [B] has no row ([owner = None]) or exactly one, with
    identifier [z] ([owner = Some z]). *)
Definition dedup_inv (B : Paper) (owner : option Z) (tb : table) : Prop :=
  Forall (λ r, ∃ z, cell r "id" = VInt z ∧ z ≤ t_serial tb) (t_rows tb) ∧
  match owner with
  | None => Forall (λ r, touches B r = false) (t_rows tb)
  | Some z =>
      ∃ pre post,
        t_rows tb = pre ++ [row_of (VInt z) (delete "citations" B)] ++ post ∧
        z ≤ t_serial tb ∧
        Forall (λ r, touches B r = false) (pre ++ post)
  end.

Lemma touches_false B r k :
  touches B r = false → k ∈ natural_keys →
  sql_eq (cell r k) (field B k) = false.
Proof.
  intros Ht Hk. unfold touches in Ht.
  destruct (sql_eq (cell r k) (field B k)) eqn:He; [|reflexivity].
  assert (existsb (λ k, sql_eq (cell r k) (field B k)) natural_keys = true).
  { apply existsb_exists. exists k. split; [|exact He].
    apply list_elem_of_In. exact Hk. }
  congruence.
Qed.

Lemma touches_foreign B X z :
  foreign B X → touches B (row_of (VInt z) (delete "citations" X)) = false.
Proof.
  intros Hf. unfold touches. apply existsb_false_Forall.
  apply Forall_forall. intros k Hk.
  destruct (natural_key_column k Hk) as (H1 & H2 & H3).
  rewrite cell_row_of by assumption. fold (field (delete "citations" X) k).
  rewrite field_delete by exact H3. apply Hf, Hk.
Qed.

Lemma conn_canon c t tb :
  failed c = false → tables c !! t = Some tb →
  c = mkConn (<[t := tb]> (tables c)) false (dbname c).
Proof.
  intros Hf Ht. destruct c as [tbs f d]. simpl in *. subst f.
  rewrite fin_maps.insert_id by exact Ht. reflexivity.
Qed.

Lemma id_no_conflict tb r :
  Forall (λ r, ∃ z, cell r "id" = VInt z ∧ z ≤ t_serial tb) (t_rows tb) →
  cell r "id" = VInt (t_serial tb + 1) →
  existsb (λ r', sql_eq (cell r' "id") (cell r "id")) (t_rows tb) = false.
Proof.
  intros Hids Hr. apply existsb_false_Forall.
  eapply Forall_impl; [exact Hids|]. intros r' (z & Hz & Hle).
  rewrite Hz, Hr. simpl. apply bool_decide_eq_false. lia.
Qed.

Lemma head_filter_Some {A} (P : A → Prop) `{∀ x, Decision (P x)}
    (l : list A) (x : A) :
  x ∈ l → P x → ∃ y, head (filter P l) = Some y ∧ y ∈ l ∧ P y.
Proof.
  intros Hin HP.
  assert (x ∈ filter P l) as Hx by (apply list_elem_of_filter; auto).
  destruct (filter P l) as [|y l'] eqn:Hfl.
  - apply elem_of_nil in Hx. destruct Hx.
  - exists y. split; [reflexivity|].
    assert (y ∈ filter P l) as Hy by (rewrite Hfl; left).
    apply list_elem_of_filter in Hy. tauto.
Qed.

(** The statements [tr] hold an INSERT of [B] into [t] that is answered by
    a COMMIT and the SELECT of the identifier by a natural-key column. *)
Definition looked_up (t : string) (B : Paper) (tr : list stmt) : Prop :=
  ∃ col pre post,
    col ∈ natural_keys ∧
    tr = pre ++ [Insert t (delete "citations" B); Commit;
                 SelectIdWhere t col (field B col)] ++ post.

Lemma looked_up_app_l t B tr1 tr2 :
  looked_up t B tr1 → looked_up t B (tr1 ++ tr2).
Proof.
  intros (col & pre & post & Hcol & ->). exists col, pre, (post ++ tr2).
  split; [exact Hcol|]. rewrite <- !app_assoc. reflexivity.
Qed.

Lemma looked_up_app_r t B tr1 tr2 :
  looked_up t B tr2 → looked_up t B (tr1 ++ tr2).
Proof.
  intros (col & pre & post & Hcol & ->). exists col, (tr1 ++ pre), post.
  split; [exact Hcol|]. rewrite <- !app_assoc. reflexivity.
Qed.

Section dedup.
Variable u : N.
Variable pb : Paper.
Hypothesis pb_record : is_record pb = true.
Hypothesis pb_has_key :
  ∃ k, k ∈ natural_keys ∧ sql_eq (field pb k) (field pb k) = true.

Variable s : SQLPapers.
Hypothesis s_name : name s = fresh_name u.

Let cname := citations_of (name s).
Let vb := delete "citations" pb.

Lemma dedup_inv_serial owner tb z :
  dedup_inv pb owner tb → t_serial tb ≤ z →
  dedup_inv pb owner (mkTable (t_rows tb) z).
Proof.
  intros [Hids Hown] Hle. split; cbn [t_rows t_serial].
  - eapply Forall_impl; [exact Hids|]. intros r (z' & Hz & Hz').
    exists z'. split; [exact Hz|lia].
  - destruct owner as [z0|]; [|exact Hown].
    destruct Hown as (pre & post & Hrows & Hz0 & Hall).
    exists pre, post. split; [exact Hrows|]. split; [lia|exact Hall].
Qed.

(** A citation that shares no natural key with [pb]. *)
Lemma append_citation_foreign X c tb owner :
  failed c = false → tables c !! cname = Some tb →
  dedup_inv pb owner tb →
  is_record X = true → foreign pb X →
  ∃ z tb' tr,
    append_citation s (VPaper X) c =
      (Return (Some z),
       mkConn (<[cname := tb']> (tables c)) false (dbname c), tr) ∧
    dedup_inv pb owner tb'.
Proof.
  intros Hf Ht Hinv HX Hfor.
  pose proof Hinv as [Hids Hown].
  destruct (citation_vals_ok X HX) as (H1 & H2 & H3).
  set (vals := delete "citations" X) in *.
  set (z := t_serial tb + 1).
  set (rX := row_of (VInt z) vals).
  destruct (first_conflict unique_columns (t_rows tb) rX) as [col|] eqn:Hconf.
  - (* already there *)
    destruct (first_conflict_Some _ _ _ _ Hconf) as [Hcol Hex].
    destruct (unique_column_cases col Hcol) as [->|Hnat].
    { rewrite (id_no_conflict tb rX Hids eq_refl) in Hex. discriminate. }
    destruct (natural_key_column col Hnat) as (Hc1 & Hc2 & Hc3).
    apply existsb_exists in Hex as (r' & Hr' & Heq).
    apply list_elem_of_In in Hr'.
    assert (cell rX col = field vals col) as Hcell
      by (unfold rX; rewrite cell_row_of by assumption; reflexivity).
    rewrite Hcell in Heq.
    destruct (head_filter_Some
                (λ r, sql_eq (cell r col) (field vals col) = true)
                (t_rows tb) r' Hr' Heq) as (r0 & Hhead & Hin0 & _).
    rewrite Forall_forall in Hids.
    destruct (Hids r0 Hin0) as (z0 & Hz0 & _).
    eexists z0, (mkTable (t_rows tb) z), _. split.
    + apply (append_citation_existing u s X c tb col (field vals col) r0 z0);
        auto.
      apply field_Some. exact (sql_eq_refl_r _ _ Heq).
    + apply dedup_inv_serial; [exact Hinv|lia].
  - (* new *)
    eexists z, (mkTable (t_rows tb ++ [rX]) z), _. split.
    + exact (append_citation_new s X c tb Hf Ht HX Hconf).
    + pose proof (touches_foreign pb X z Hfor) as Htouch.
      split; cbn [t_rows t_serial].
      * apply Forall_app. split.
        -- eapply Forall_impl; [exact Hids|]. intros r (z' & Hz & Hz').
           exists z'. split; [exact Hz|lia].
        -- repeat constructor. exists z. split; [reflexivity|lia].
      * destruct owner as [z0|].
        -- destruct Hown as (pre & post & Hrows & Hz0 & Hall).
           exists pre, (post ++ [rX]). split; [|split; [lia|]].
           ++ rewrite Hrows, <- !app_assoc. reflexivity.
           ++ rewrite app_assoc. apply Forall_app. split; [exact Hall|].
              repeat constructor. exact Htouch.
        -- apply Forall_app. split; [exact Hown|].
           repeat constructor. exact Htouch.
Qed.

Lemma filter_untouched rows col :
  col ∈ natural_keys →
  Forall (λ r, touches pb r = false) rows →
  filter (λ r, sql_eq (cell r col) (field pb col) = true) rows = [].
Proof.
  intros Hcol Hall. apply filter_none.
  eapply Forall_impl; [exact Hall|]. intros r Hr.
  rewrite (touches_false pb r col Hr Hcol). discriminate.
Qed.

Lemma existsb_untouched rows col r :
  col ∈ natural_keys →
  cell r col = field pb col →
  Forall (λ r, touches pb r = false) rows →
  existsb (λ r', sql_eq (cell r' col) (cell r col)) rows = false.
Proof.
  intros Hcol Hr Hall. apply existsb_false_Forall.
  eapply Forall_impl; [exact Hall|]. intros r' Hr'. rewrite Hr.
  exact (touches_false pb r' col Hr' Hcol).
Qed.

Lemma cell_pb z col :
  col ∈ natural_keys → cell (row_of (VInt z) vb) col = field pb col.
Proof.
  intros Hcol. destruct (natural_key_column col Hcol) as (H1 & H2 & H3).
  rewrite cell_row_of by assumption. fold (field vb col).
  apply field_delete. exact H3.
Qed.

(** The citation [pb]: inserted when it has no row yet, found again by
    the column of the violation when it has one. *)
Lemma append_citation_shared c tb owner :
  failed c = false → tables c !! cname = Some tb →
  dedup_inv pb owner tb →
  ∃ z tb' tr,
    append_citation s (VPaper pb) c =
      (Return (Some z),
       mkConn (<[cname := tb']> (tables c)) false (dbname c), tr) ∧
    dedup_inv pb (Some z) tb' ∧
    (∀ z0, owner = Some z0 →
       z = z0 ∧
       ∃ col, col ∈ natural_keys ∧
              tr = [Insert cname vb; Commit;
                    SelectIdWhere cname col (field pb col)]).
Proof.
  intros Hf Ht Hinv. pose proof Hinv as [Hids Hown].
  destruct (citation_vals_ok pb pb_record) as (H1 & H2 & H3).
  set (z := t_serial tb + 1).
  set (rB := row_of (VInt z) vb).
  destruct owner as [z0|].
  - (* [pb] has a row *)
    destruct Hown as (pre & post & Hrows & Hz0 & Hall).
    apply Forall_app in Hall as [Hpre Hpost].
    set (r0 := row_of (VInt z0) vb) in *.
    destruct (first_conflict_self z0 z vb) as (col & Hcol & Hself & Hconf);
      [unfold z; lia|exact H3| |].
    { destruct pb_has_key as (k & Hk & Heq). exists k. split; [exact Hk|].
      unfold vb. rewrite field_delete; [exact Heq|].
      apply natural_key_not_citations, Hk. }
    fold r0 rB in Hconf.
    assert (first_conflict unique_columns (t_rows tb) rB = Some col) as Hc.
    { rewrite <- Hconf. apply first_conflict_ext. intros k Hk.
      rewrite Hrows, !existsb_app. cbn [existsb].
      destruct (unique_column_cases k Hk) as [->|Hnat].
      - pose proof (id_no_conflict tb rB Hids eq_refl) as Hno.
        rewrite Hrows, !existsb_app in Hno. cbn [existsb] in Hno.
        rewrite Hno.
        change (cell r0 "id") with (VInt z0).
        change (cell rB "id") with (VInt z). simpl.
        rewrite bool_decide_eq_false_2 by (unfold z; lia). reflexivity.
      - rewrite (existsb_untouched pre k rB Hnat (cell_pb z k Hnat) Hpre).
        rewrite (existsb_untouched post k rB Hnat (cell_pb z k Hnat) Hpost).
        rewrite orb_false_r. reflexivity. }
    assert (field vb col = field pb col) as Hfield
      by (apply field_delete, natural_key_not_citations, Hcol).
    eexists z0, (mkTable (t_rows tb) z), _. split; [|split].
    + apply (append_citation_existing u s pb c tb col (field pb col) r0 z0);
        auto.
      * rewrite <- Hfield. apply field_Some. exact Hself.
      * rewrite Hrows, !filter_app.
        rewrite (filter_untouched pre col Hcol Hpre). cbn [app].
        rewrite filter_cons_True; [reflexivity|].
        unfold r0. rewrite cell_pb by exact Hcol. rewrite <- Hfield.
        exact Hself.
    + apply (dedup_inv_serial (Some z0) tb z); [exact Hinv|unfold z; lia].
    + intros z1 [= <-]. split; [reflexivity|]. exists col. auto.
  - (* [pb] has no row *)
    assert (first_conflict unique_columns (t_rows tb) rB = None) as Hc.
    { apply first_conflict_None. intros k Hk.
      destruct (unique_column_cases k Hk) as [->|Hnat].
      - exact (id_no_conflict tb rB Hids eq_refl).
      - exact (existsb_untouched _ k rB Hnat (cell_pb z k Hnat) Hown). }
    eexists z, (mkTable (t_rows tb ++ [rB]) z), _. split; [|split].
    + exact (append_citation_new s pb c tb Hf Ht pb_record Hc).
    + split; cbn [t_rows t_serial].
      * apply Forall_app. split.
        -- eapply Forall_impl; [exact Hids|]. intros r (z' & Hz & Hz').
           exists z'. split; [exact Hz|unfold z; lia].
        -- repeat constructor. exists z. split; [reflexivity|lia].
      * exists (t_rows tb), []. split; [reflexivity|]. split; [lia|].
        rewrite app_nil_r. exact Hown.
    + discriminate.
Qed.

Lemma foreign_not_shared X : foreign pb X → X ≠ pb.
Proof.
  intros Hfor ->. destruct pb_has_key as (k & Hk & Heq).
  rewrite (Hfor k Hk) in Heq. discriminate.
Qed.

(** One turn of the citation loop on an element of the list. *)
Lemma append_citation_dedup x c tb owner :
  failed c = false → tables c !! cname = Some tb →
  dedup_inv pb owner tb → cites_ok pb x →
  ∃ z tb' tr owner',
    append_citation s x c =
      (Return (Some z),
       mkConn (<[cname := tb']> (tables c)) false (dbname c), tr) ∧
    dedup_inv pb owner' tb' ∧
    (∀ z0, owner = Some z0 → owner' = Some z0) ∧
    (x = VPaper pb →
       owner' = Some z ∧
       ∀ z0, owner = Some z0 →
         looked_up cname pb tr).
Proof.
  intros Hf Ht Hinv [->|(X & -> & HX & Hfor)].
  - destruct (append_citation_shared c tb owner Hf Ht Hinv)
      as (z & tb' & tr & Happ & Hinv' & Hold).
    exists z, tb', tr, (Some z). split; [exact Happ|].
    split; [exact Hinv'|]. split.
    + intros z0 Hz0. destruct (Hold z0 Hz0) as [-> _]. reflexivity.
    + intros _. split; [reflexivity|]. intros z0 Hz0.
      destruct (Hold z0 Hz0) as (_ & col & Hcol & ->).
      exists col, [], []. split; [exact Hcol|reflexivity].
  - destruct (append_citation_foreign X c tb owner Hf Ht Hinv HX Hfor)
      as (z & tb' & tr & Happ & Hinv').
    exists z, tb', tr, owner. split; [exact Happ|].
    split; [exact Hinv'|]. split; [auto|].
    intros [= HXB]. destruct (foreign_not_shared X Hfor HXB).
Qed.

(** The citation loop over a list whose elements are [pb] or Records that
    share no natural key with it: every element yields an identifier,
    [pb] keeps the row it has, and gets one when it has none. *)
Lemma append_citations_dedup l :
  ∀ acc c tb owner,
    failed c = false → tables c !! cname = Some tb →
    dedup_inv pb owner tb → Forall (cites_ok pb) l →
    ∃ ids tb' tr owner',
      append_citations s l acc c =
        (Return (acc ++ ids),
         mkConn (<[cname := tb']> (tables c)) false (dbname c), tr) ∧
      dedup_inv pb owner' tb' ∧
      (∀ z0, owner = Some z0 → owner' = Some z0) ∧
      (VPaper pb ∈ l →
         ∃ z, owner' = Some z ∧ z ∈ ids ∧
              ∀ z0, owner = Some z0 →
                looked_up cname pb tr).
Proof.
  induction l as [|x l IH]; intros acc c tb owner Hf Ht Hinv Hall.
  - exists [], tb, [], owner. cbn [append_citations]. unfold ret.
    rewrite app_nil_r, <- (conn_canon c cname tb Hf Ht).
    split; [reflexivity|]. split; [exact Hinv|]. split; [auto|].
    intros Hin. apply elem_of_nil in Hin. destruct Hin.
  - apply Forall_cons in Hall as [Hx Hall].
    destruct (append_citation_dedup x c tb owner Hf Ht Hinv Hx)
      as (z & tb1 & tr1 & owner1 & Happ & Hinv1 & Hkeep1 & Hx1).
    set (c1 := mkConn (<[cname := tb1]> (tables c)) false (dbname c)) in *.
    destruct (IH (acc ++ [z]) c1 tb1 owner1 eq_refl
                (lookup_insert_eq _ _ _) Hinv1 Hall)
      as (ids & tb' & tr & owner' & Hrest & Hinv' & Hkeep & Hin).
    exists (z :: ids), tb', (tr1 ++ tr), owner'.
    split; [|split; [exact Hinv'|split]].
    + cbn [append_citations]. rewrite (bind_return _ _ _ _ _ _ Happ).
      rewrite Hrest. unfold c1. cbn [tables dbname].
      rewrite insert_insert_eq, <- app_assoc. reflexivity.
    + intros z0 Hz0. apply Hkeep, Hkeep1, Hz0.
    + intros [Hhead|Htail]%elem_of_cons.
      * destruct (Hx1 (eq_sym Hhead)) as [Hown1 Hsel].
        exists z. split; [apply Hkeep, Hown1|]. split; [left|].
        intros z0 Hz0. apply looked_up_app_l, (Hsel z0 Hz0).
      * destruct (Hin Htail) as (z' & Hown' & Hz' & Hsel).
        exists z'. split; [exact Hown'|]. split; [right; exact Hz'|].
        intros z0 Hz0. apply looked_up_app_r, (Hsel z0 (Hkeep1 z0 Hz0)).
Qed.

(** The citation phase of [append] on such a list. *)
Lemma citation_phase_dedup l c tb owner :
  failed c = false → tables c !! cname = Some tb →
  dedup_inv pb owner tb → Forall (cites_ok pb) l →
  ∃ ids tb' tr owner',
    citation_phase s (VList l) c =
      (Return (VList (VInt <$> ids)),
       mkConn (<[cname := tb']> (tables c)) false (dbname c), tr) ∧
    dedup_inv pb owner' tb' ∧
    (∀ z0, owner = Some z0 → owner' = Some z0) ∧
    (VPaper pb ∈ l →
       ∃ z, owner' = Some z ∧ z ∈ ids ∧
            ∀ z0, owner = Some z0 →
              looked_up cname pb tr).
Proof.
  intros Hf Ht Hinv Hall.
  destruct (append_citations_dedup l [] c tb owner Hf Ht Hinv Hall)
    as (ids & tb' & tr & owner' & Happ & Hrest).
  exists ids, tb', tr, owner'. split; [|exact Hrest].
  cbn [citation_phase py_iter]. rewrite bind_ret_l.
  rewrite (bind_return _ _ _ _ _ _ Happ). unfold ret.
  rewrite app_nil_r. reflexivity.
Qed.

End dedup.

(** * Further properties of the methods *)

(** ** What a statement does to the tables *)

(** A statement that raises leaves the connection in the failed state. *)
Lemma run_raise_failed s c e c' :
  run s c = (Raise e, c') → failed c' = true.
Proof.
  unfold run, run_insert, fail_stmt.
  destruct s; try discriminate;
    destruct (failed c) eqn:Hf; try (intros [= <- <-]; exact Hf);
    repeat case_match; intros [= <- <-]; reflexivity.
Qed.

(** A statement that is not an INSERT leaves the rows of every table; it
    changes the table map only when it is a CREATE TABLE. *)
Lemma run_select_tables s c o c' :
  is_select s = true → run s c = (o, c') →
  tables c' = tables c ∧ dbname c' = dbname c.
Proof.
  unfold run, fail_stmt.
  destruct s; try discriminate; intros _;
    repeat case_match; intros [= <- <-]; auto.
Qed.

(** ** Computations that only read

    [readonly m]: whatever [m] does, it sends SELECT statements only and
    leaves the tables as they were; when it returns, the connection is the
    one it started on. *)
Definition readonly {A} (m : Db A) : Prop :=
  ∀ c o c' tr, m c = (o, c', tr) →
    forallb is_select tr = true ∧
    tables c' = tables c ∧ dbname c' = dbname c ∧
    (∀ a, o = Return a → c' = c).

Lemma readonly_ret {A} (a : A) : readonly (ret a).
Proof. intros c o c' tr [= <- <- <-]. auto. Qed.

Lemma readonly_raise {A} e : readonly (A := A) (raise e).
Proof. intros c o c' tr [= <- <- <-]. repeat split; discriminate. Qed.

Lemma readonly_bind {A B} (m : Db A) (k : A → Db B) :
  readonly m → (∀ a, readonly (k a)) → readonly (bind m k).
Proof.
  intros Hm Hk c o c' tr. unfold bind.
  destruct (m c) as [[[a|e|] c1] tr1] eqn:H1;
    destruct (Hm _ _ _ _ H1) as (Ht1 & Hs1 & Hd1 & Hr1).
  - destruct (k a c1) as [[o2 c2] tr2] eqn:H2.
    destruct (Hk a _ _ _ _ H2) as (Ht2 & Hs2 & Hd2 & Hr2).
    intros [= <- <- <-]. rewrite forallb_app, Ht1, Ht2.
    repeat split; try congruence.
    intros b Hb. rewrite (Hr2 b Hb). apply (Hr1 a eq_refl).
  - intros [= <- <- <-]. repeat split; auto; discriminate.
  - intros [= <- <- <-]. repeat split; auto; discriminate.
Qed.

Lemma readonly_execute s : is_select s = true → readonly (execute s).
Proof.
  intros Hs c o c' tr. unfold execute.
  destruct (run s c) as [o1 c1] eqn:Hrun. intros [= <- <- <-].
  destruct (run_select_tables _ _ _ _ Hs Hrun) as [Ht Hd].
  cbn [forallb]. rewrite Hs. repeat split; auto.
  intros cur ->. exact (run_read_return _ _ _ _ Hs Hrun).
Qed.

Lemma readonly_mapM {A B} (f : A → Db B) (l : list A) :
  (∀ x, readonly (f x)) → readonly (mapM f l).
Proof.
  intros Hf. induction l as [|x l IH]; cbn [mapM]; [apply readonly_ret|].
  apply readonly_bind; [apply Hf|]. intros y.
  apply readonly_bind; [apply IH|]. intros ys. apply readonly_ret.
Qed.

Lemma readonly_cursor_rows cur : readonly (cursor_rows cur).
Proof. destruct cur; [apply readonly_ret|apply readonly_raise]. Qed.

Lemma readonly_subscript x i : readonly (subscript x i).
Proof.
  destruct x as [r|]; [|apply readonly_raise]. simpl.
  destruct (r !! i); [apply readonly_ret|apply readonly_raise].
Qed.

Lemma readonly_py_iter v : readonly (py_iter v).
Proof. destruct v; first [apply readonly_ret|apply readonly_raise]. Qed.

Lemma readonly_fetchone cur :
  readonly
    (try_except (fetchone cur)
       (on_programming (raise (KeyError "No Paper with that ID exists.")))).
Proof.
  destruct cur as [[|r rows]|]; intros c o c' tr [= <- <- <-];
    repeat split; auto; discriminate.
Qed.

Lemma readonly_list_getitem {A} (l : list A) key :
  readonly (list_getitem l key).
Proof.
  unfold list_getitem.
  destruct (_ && _); [|apply readonly_raise].
  destruct (l !! _); [apply readonly_ret|apply readonly_raise].
Qed.

Lemma readonly_init t u : readonly (init (Some t) u).
Proof.
  unfold init. apply readonly_bind.
  - apply readonly_bind; [apply readonly_execute; reflexivity|]. intros cur.
    apply readonly_bind; [apply readonly_cursor_rows|]. intros rows.
    apply readonly_bind; [|intros; apply readonly_ret].
    apply readonly_mapM. intros. apply readonly_subscript.
  - intros this.
    apply readonly_bind; [apply readonly_execute; reflexivity|]. intros cur.
    apply readonly_bind; [apply readonly_cursor_rows|]. intros rows.
    apply readonly_bind; [|intros; apply readonly_ret].
    apply readonly_mapM. intros. apply readonly_subscript.
Qed.

Lemma readonly_yield_paper resolve self data :
  (∀ s id, readonly (resolve s id)) →
  readonly (yield_paper resolve self data).
Proof.
  intros Hres. destruct data as [data|]; [|apply readonly_raise].
  cbn [yield_paper]. generalize (∅ : Paper) as paper. generalize 0%nat as i.
  induction data as [|v data IH]; intros i paper; cbn [yield_fields].
  - apply readonly_ret.
  - destruct (cols self !! i) as [key|]; [|apply readonly_raise].
    apply readonly_bind; [|intros; apply IH].
    unfold yield_field. apply readonly_bind; [|intros; apply readonly_ret].
    destruct (is_citations key v); [|apply readonly_ret].
    apply readonly_bind; [apply readonly_init|]. intros citations.
    apply readonly_bind; [apply readonly_py_iter|]. intros ks.
    apply readonly_bind; [|intros; apply readonly_ret].
    apply readonly_mapM. intros. apply Hres.
Qed.

Lemma readonly_get_by_id fuel self id : readonly (get_by_id fuel self id).
Proof.
  revert self id. induction fuel as [|fuel IH]; intros self id.
  - intros c o c' tr [= <- <- <-]. repeat split; discriminate.
  - cbn [get_by_id].
    apply readonly_bind; [apply readonly_execute; reflexivity|]. intros cur.
    apply readonly_bind; [apply readonly_fetchone|].
    intros data. apply readonly_yield_paper. exact IH.
Qed.

(** X1: [__getitem__] only reads.  Whatever the key, the identifier list
    and the state of the connection, and however the call ends, every
    statement it sends is a SELECT (no INSERT, no DDL, no COMMIT) and no
    table is changed; when it returns a Paper the connection is exactly
    as it was before the call. *)
Theorem getitem_only_reads (fuel : nat) (self : SQLPapers) (key : Z)
    (c c' : conn) (o : outcome Paper) (tr : list stmt) :
  getitem fuel self key c = (o, c', tr) →
  forallb is_select tr = true ∧
  tables c' = tables c ∧
  (∀ p, o = Return p → c' = c).
Proof.
  intros Hrun.
  assert (readonly (getitem fuel self key)) as H.
  { unfold getitem. apply readonly_bind; [apply readonly_list_getitem|].
    intros id. apply readonly_get_by_id. }
  destruct (H _ _ _ _ Hrun) as (H1 & H2 & _ & H3). auto.
Qed.

Lemma getitem_only_reads_witness :
  let r := getitem 2 ex_world.1 0 ex_world.2 in
  forallb is_select r.2 = true ∧
  tables r.1.2 = tables ex_world.2 ∧
  (∀ p, r.1.1 = Return p → r.1.2 = ex_world.2).
Proof.
  intros r.
  apply (getitem_only_reads 2 ex_world.1 0 ex_world.2 r.1.2 r.1.1 r.2).
  subst r. destruct (getitem 2 _ 0 _) as [[o c'] tr]. reflexivity.
Defined.

Lemma iter_rows_only_reads fuel self rows :
  ∀ c ps o c' tr,
    iter_rows fuel self rows c = (ps, o, c', tr) →
    forallb is_select tr = true ∧ tables c' = tables c ∧
    (o = Return tt → c' = c).
Proof.
  induction rows as [|r rows IH]; intros c ps o c' tr.
  - intros [= <- <- <- <-]. auto.
  - cbn [iter_rows].
    destruct (yield_paper (get_by_id fuel) self (Some r) c)
      as [[[p|e|] c1] tr1] eqn:Hy;
      destruct (readonly_yield_paper (get_by_id fuel) self (Some r)
                  (readonly_get_by_id fuel) _ _ _ _ Hy)
        as (Ht1 & Hs1 & _ & Hr1).
    + destruct (iter_rows fuel self rows c1) as [[[ps2 o2] c2] tr2] eqn:Hit.
      destruct (IH _ _ _ _ _ Hit) as (Ht2 & Hs2 & Hr2).
      intros [= <- <- <- <-]. rewrite forallb_app, Ht1, Ht2.
      repeat split; try congruence.
      intros Ho. rewrite (Hr2 Ho). exact (Hr1 p eq_refl).
    + intros [= <- <- <- <-]. repeat split; auto; discriminate.
    + intros [= <- <- <- <-]. repeat split; auto; discriminate.
Qed.

(** X2: [__iter__] only reads.  However the iteration ends, every
    statement it sends is a SELECT and no table is changed; an iteration
    that ends normally leaves the connection exactly as it was. *)
Theorem iter_only_reads (fuel : nat) (self : SQLPapers) (c c' : conn)
    (ps : list Paper) (o : outcome unit) (tr : list stmt) :
  iter fuel self c = (ps, o, c', tr) →
  forallb is_select tr = true ∧
  tables c' = tables c ∧
  (o = Return tt → c' = c).
Proof.
  unfold iter.
  destruct ((let* cur := execute (SelectAll (name self)) in cursor_rows cur) c)
    as [[[rows|e|] c1] tr1] eqn:Hscan.
  all: assert (readonly (let* cur := execute (SelectAll (name self)) in
                         cursor_rows cur)) as Hro
    by (apply readonly_bind;
        [apply readonly_execute; reflexivity
        |intros; apply readonly_cursor_rows]).
  all: destruct (Hro _ _ _ _ Hscan) as (Ht1 & Hs1 & _ & Hr1).
  - destruct (iter_rows fuel self rows c1) as [[[ps2 o2] c2] tr2] eqn:Hit.
    destruct (iter_rows_only_reads _ _ _ _ _ _ _ _ Hit) as (Ht2 & Hs2 & Hr2).
    intros [= <- <- <- <-]. rewrite forallb_app, Ht1, Ht2.
    repeat split; try congruence.
    intros Ho. rewrite (Hr2 Ho). exact (Hr1 rows eq_refl).
  - intros [= <- <- <- <-]. repeat split; auto; discriminate.
  - intros [= <- <- <- <-]. repeat split; auto; discriminate.
Qed.

Lemma iter_only_reads_witness :
  let r := iter 2 ex_world.1 ex_world.2 in
  forallb is_select r.2 = true ∧
  tables r.1.2 = tables ex_world.2 ∧
  (r.1.1.2 = Return tt → r.1.2 = ex_world.2).
Proof.
  intros r.
  apply (iter_only_reads 2 ex_world.1 ex_world.2 r.1.2 r.1.1.1 r.1.1.2 r.2).
  subst r. destruct (iter 2 _ _) as [[[ps o] c'] tr]. reflexivity.
Defined.

(** ** What [append] does to the tables *)

(** The rows of table [t] before and after: the old rows, then [new]. *)
Definition rows_added (c c' : conn) (t : string) (new : list (list value))
    : Prop :=
  match tables c !! t with
  | Some tb => ∃ tb', tables c' !! t = Some tb' ∧ t_rows tb' = t_rows tb ++ new
  | None => tables c' !! t = None ∧ new = []
  end.

Lemma rows_added_same c c' t :
  same_rows c c' → rows_added c c' t [].
Proof.
  intros H. specialize (H t). unfold rows_added.
  destruct (tables c !! t) as [tb|]; destruct (tables c' !! t) as [tb'|];
    try discriminate; [|auto].
  injection H as H. exists tb'. rewrite app_nil_r. auto.
Qed.

Lemma rows_added_tables c c' c'' t new :
  tables c'' = tables c' → rows_added c c' t new → rows_added c c'' t new.
Proof. unfold rows_added. intros ->. auto. Qed.

Lemma rows_added_trans c c1 c2 t new1 new2 :
  rows_added c c1 t new1 → rows_added c1 c2 t new2 →
  rows_added c c2 t (new1 ++ new2).
Proof.
  unfold rows_added. destruct (tables c !! t) as [tb|].
  - intros (tb1 & -> & H1) (tb2 & H2 & H3). exists tb2.
    split; [exact H2|]. rewrite H3, H1, app_assoc. reflexivity.
  - intros [-> ->] [H2 ->]. auto.
Qed.

Lemma grows_rows_added t c c' :
  grows t c c' →
  (∀ t', t' ≠ t → rows_added c c' t' []) ∧
  ∃ new, rows_added c c' t new ∧
         Forall (λ r, cell r "citations" = VNone) new.
Proof.
  intros [Ho Hg]. split.
  - intros t' Hne. unfold rows_added. rewrite (Ho t' Hne).
    destruct (tables c !! t') as [tb|]; [|auto].
    exists tb. rewrite app_nil_r. auto.
  - unfold rows_added. destruct (tables c !! t) as [tb|].
    + destruct Hg as (tb' & new & Ht & Hr & Hok). exists new. split; [eauto|].
      eapply Forall_impl; [exact Hok|]. intros r [_ H]. exact H.
    + exists []. auto.
Qed.

(** The INSERT of the primary row. *)
Lemma run_insert_rows_added t vals c o c' :
  run (Insert t vals) c = (o, c') →
  (∀ t', t' ≠ t → rows_added c c' t' []) ∧
  ((∃ z, o = Return (Some [[VInt z]]) ∧
         rows_added c c' t [row_of (VInt z) vals]) ∨
   ((∀ cur, o ≠ Return cur) ∧ rows_added c c' t [])).
Proof.
  intros Hrun.
  destruct (run_insert_cases _ _ _ _ _ Hrun) as [[cur ->]|[Hnr Hsame]].
  - destruct (run_insert_return _ _ _ _ _ Hrun)
      as (tb & z & serial & Hf & Ht & Hid & Hconf & -> & ->).
    split.
    + intros t' Hne. unfold rows_added. cbn [tables set_table].
      rewrite lookup_insert_ne by congruence.
      destruct (tables c !! t') as [tb'|]; [|auto].
      exists tb'. rewrite app_nil_r. auto.
    + left. exists z. split; [reflexivity|]. unfold rows_added.
      rewrite Ht. cbn [tables set_table]. rewrite lookup_insert_eq. eauto.
  - split; [intros t' _; apply rows_added_same, Hsame|].
    right. split; [exact Hnr|apply rows_added_same, Hsame].
Qed.

(** X3: [append] never deletes or changes a row.  Whatever the Record,
    the flag and the state, and however the call ends: no table is created
    or dropped; every table other than the primary table and the citation
    table keeps its rows; the citation table keeps its rows and gets new
    ones at its end, all with a NULL [citations] cell; the primary table
    keeps its rows and gets at most one new row at its end, and the list
    is extended by the identifier of exactly that row. *)
Theorem append_only_adds_rows (obj : Paper) (complain : bool)
    (s s' : SQLPapers) (c c' : conn) (o : outcome unit) (tr : list stmt) :
  append obj complain (s, c) = (o, (s', c'), tr) →
  (∀ t, t ≠ name s → t ≠ citations_of (name s) → rows_added c c' t []) ∧
  (∃ new, rows_added c c' (citations_of (name s)) new ∧
          Forall (λ r, cell r "citations" = VNone) new) ∧
  (∃ new, rows_added c c' (name s) new ∧
          (List.length new ≤ 1)%nat ∧
          name s' = name s ∧ cols s' = cols s ∧
          rowIds s' = rowIds s ++ ((λ r, cell r "id") <$> new)).
Proof.
  intros Hrun. unfold_append_in Hrun.
  assert (∀ c1, tables c1 = tables c →
            (∀ t, t ≠ name s → t ≠ citations_of (name s) →
               rows_added c c1 t []) ∧
            (∃ new, rows_added c c1 (citations_of (name s)) new ∧
                    Forall (λ r, cell r "citations" = VNone) new) ∧
            (∃ new, rows_added c c1 (name s) new ∧
                    (List.length new ≤ 1)%nat ∧
                    name s = name s ∧ cols s = cols s ∧
                    rowIds s = rowIds s ++ ((λ r, cell r "id") <$> new)))
    as Hidle.
  { intros c1 Hc1.
    assert (∀ t, rows_added c c1 t []) as H
      by (intros t; apply rows_added_same, same_rows_tables, Hc1).
    split; [auto|]. split; exists []; [auto|].
    rewrite app_nil_r. repeat split; auto. }
  destruct (obj !! "citations") as [citv|] eqn:Hcit.
  2:{ inversion Hrun; subst. apply Hidle. reflexivity. }
  simpl in Hrun.
  destruct (citation_phase s citv c) as [[o1 c1] tr1] eqn:Hph.
  destruct (citation_phase_spec _ _ _ _ _ _ Hph) as [Hg _].
  destruct (grows_rows_added _ _ _ Hg) as [Hother (newc & Hnewc & Hnull)].
  assert (rows_added c c1 (name s) []) as Hprim
    by (apply Hother; intros Heq; exact (citations_of_ne _ (eq_sym Heq))).
  assert (∀ c2, tables c2 = tables c1 →
            (∀ t, t ≠ name s → t ≠ citations_of (name s) →
               rows_added c c2 t []) ∧
            (∃ new, rows_added c c2 (citations_of (name s)) new ∧
                    Forall (λ r, cell r "citations" = VNone) new) ∧
            (∃ new, rows_added c c2 (name s) new ∧
                    (List.length new ≤ 1)%nat ∧
                    name s = name s ∧ cols s = cols s ∧
                    rowIds s = rowIds s ++ ((λ r, cell r "id") <$> new)))
    as Hkept.
  { intros c2 Hc2. split; [|split].
    - intros t _ Ht. apply (rows_added_tables _ c1); [exact Hc2|].
      apply Hother, Ht.
    - exists newc. split; [|exact Hnull].
      apply (rows_added_tables _ c1); [exact Hc2|exact Hnewc].
    - exists []. rewrite app_nil_r. repeat split; auto.
      apply (rows_added_tables _ c1); [exact Hc2|exact Hprim]. }
  destruct o1 as [cit|e|]; simpl in Hrun;
    [|inversion Hrun; subst; apply Hkept; reflexivity..].
  destruct (run (Insert (name s) (primary_vals obj cit)) c1)
    as [o2 c2] eqn:Hins.
  destruct (run_insert_rows_added _ _ _ _ _ Hins)
    as [Hother2 [(z & -> & Hadd)|[Hnr Hsame]]].
  - simpl in Hrun. inversion Hrun; subst. cbn [name cols rowIds].
    split; [|split].
    + intros t Hn Hc.
      apply (rows_added_tables _ c2); [reflexivity|].
      apply (rows_added_trans _ c1 _ _ [] []); [apply Hother, Hc|].
      apply Hother2, Hn.
    + exists newc. split; [|exact Hnull].
      apply (rows_added_tables _ c2); [reflexivity|].
      rewrite <- (app_nil_r newc).
      apply (rows_added_trans _ c1); [exact Hnewc|].
      apply Hother2, citations_of_ne.
    + exists [row_of (VInt z) (primary_vals obj cit)].
      split; [|repeat split; simpl; lia].
      apply (rows_added_tables _ c2); [reflexivity|].
      apply (rows_added_trans _ c1 _ _ []); [exact Hprim|exact Hadd].
  - assert (∀ c3, tables c3 = tables c2 →
              (∀ t, t ≠ name s → t ≠ citations_of (name s) →
                 rows_added c c3 t []) ∧
              (∃ new, rows_added c c3 (citations_of (name s)) new ∧
                      Forall (λ r, cell r "citations" = VNone) new) ∧
              (∃ new, rows_added c c3 (name s) new ∧
                      (List.length new ≤ 1)%nat ∧
                      name s = name s ∧ cols s = cols s ∧
                      rowIds s = rowIds s ++ ((λ r, cell r "id") <$> new)))
      as Hkept2.
    { intros c3 Hc3. split; [|split].
      - intros t Hn Hc. apply (rows_added_tables _ c2); [exact Hc3|].
        apply (rows_added_trans _ c1 _ _ [] []); [apply Hother, Hc|].
        apply Hother2, Hn.
      - exists newc. split; [|exact Hnull].
        apply (rows_added_tables _ c2); [exact Hc3|].
        rewrite <- (app_nil_r newc).
        apply (rows_added_trans _ c1); [exact Hnewc|].
        apply Hother2, citations_of_ne.
      - exists []. rewrite app_nil_r. repeat split; auto.
        apply (rows_added_tables _ c2); [exact Hc3|].
        apply (rows_added_trans _ c1 _ _ [] []); [exact Hprim|exact Hsame]. }
    destruct o2 as [cur|e|]; [destruct (Hnr cur eq_refl)| |];
      simpl in Hrun.
    + destruct e; simpl in Hrun;
        try (inversion Hrun; subst; apply Hkept2; reflexivity).
      destruct complain; simpl in Hrun; inversion Hrun; subst;
        apply Hkept2; reflexivity.
    + inversion Hrun; subst. apply Hkept2; reflexivity.
Qed.

Lemma append_only_adds_rows_witness :
  let s := ex_fresh.1 in
  let c := ex_fresh.2 in
  let r := append ex_first true (s, c) in
  let s' := r.1.2.1 in
  let c' := r.1.2.2 in
  (∀ t, t ≠ name s → t ≠ citations_of (name s) → rows_added c c' t []) ∧
  (∃ new, rows_added c c' (citations_of (name s)) new ∧
          Forall (λ r, cell r "citations" = VNone) new) ∧
  (∃ new, rows_added c c' (name s) new ∧
          (List.length new ≤ 1)%nat ∧
          name s' = name s ∧ cols s' = cols s ∧
          rowIds s' = rowIds s ++ ((λ r, cell r "id") <$> new)).
Proof.
  intros s c r s' c'.
  apply (append_only_adds_rows ex_first true s s' c c' r.1.1 r.2).
  subst s' c' r. destruct (append ex_first true (s, c)) as [[o [s' c']] tr].
  reflexivity.
Defined.

(** ** The statements [append] sends *)

(** [sends ok m]: every statement [m] sends satisfies [ok]. *)
Definition sends {S A} (ok : stmt → bool) (m : M S A) : Prop :=
  ∀ s o s' tr, m s = (o, s', tr) → forallb ok tr = true.

Lemma sends_ret {S A} ok (a : A) : sends (S := S) ok (ret a).
Proof. intros s o s' tr [= <- <- <-]. reflexivity. Qed.

Lemma sends_raise {S A} ok e : sends (S := S) (A := A) ok (raise e).
Proof. intros s o s' tr [= <- <- <-]. reflexivity. Qed.

Lemma sends_bind {S A B} ok (m : M S A) (k : A → M S B) :
  sends ok m → (∀ a, sends ok (k a)) → sends ok (bind m k).
Proof.
  intros Hm Hk s o s' tr. unfold bind.
  destruct (m s) as [[[a|e|] s1] tr1] eqn:H1; pose proof (Hm _ _ _ _ H1).
  - destruct (k a s1) as [[o2 s2] tr2] eqn:H2. pose proof (Hk _ _ _ _ _ H2).
    intros [= <- <- <-]. rewrite forallb_app. apply andb_true_intro. auto.
  - intros [= <- <- <-]. assumption.
  - intros [= <- <- <-]. assumption.
Qed.

Lemma sends_try {S A} ok (m : M S A) (h : exn → option (M S A)) :
  sends ok m → (∀ e k, h e = Some k → sends ok k) →
  sends ok (try_except m h).
Proof.
  intros Hm Hh s o s' tr. unfold try_except.
  destruct (m s) as [[[a|e|] s1] tr1] eqn:H1; pose proof (Hm _ _ _ _ H1);
    try (intros [= <- <- <-]; assumption).
  destruct (h e) as [k|] eqn:He; [|intros [= <- <- <-]; assumption].
  destruct (k s1) as [[o2 s2] tr2] eqn:H2.
  pose proof (Hh _ _ He _ _ _ _ H2).
  intros [= <- <- <-]. rewrite forallb_app. apply andb_true_intro. auto.
Qed.

Lemma sends_execute ok s : ok s = true → sends ok (execute s).
Proof.
  intros Hs c o c' tr. unfold execute. destruct (run s c).
  intros [= <- <- <-]. cbn [forallb]. rewrite Hs. reflexivity.
Qed.

Lemma sends_commit ok : ok Commit = true → sends ok commit.
Proof.
  intros H. apply sends_bind; [apply sends_execute, H|].
  intros. apply sends_ret.
Qed.

Lemma sends_fetchone {S} ok cur : sends (S := S) ok (fetchone cur).
Proof.
  destruct cur as [[|r rows]|]; first [apply sends_ret|apply sends_raise].
Qed.

Lemma sends_subscript {S} ok x i : sends (S := S) ok (subscript x i).
Proof.
  destruct x as [r|]; [|apply sends_raise]. simpl.
  destruct (r !! i); [apply sends_ret|apply sends_raise].
Qed.

(** The statements of the citation phase of a store on table [t]: INSERTs
    into the citation table that leave the [citations] column out, COMMITs
    and look-ups of an identifier in the citation table. *)
Definition is_citation_stmt (t : string) (s : stmt) : bool :=
  match s with
  | Insert t' vals =>
      String.eqb t' (citations_of t) &&
      bool_decide (vals !! "citations" = None)
  | SelectIdWhere t' _ _ => String.eqb t' (citations_of t)
  | Commit => true
  | _ => false
  end.

Lemma sends_append_citation self citation :
  sends (is_citation_stmt (name self)) (append_citation self citation).
Proof.
  destruct citation as [| | | |p]; try apply sends_raise.
  cbn [append_citation]. apply sends_bind.
  - apply sends_try.
    + apply sends_bind.
      { apply sends_execute. cbn [is_citation_stmt].
        rewrite String.eqb_refl, lookup_delete_eq. reflexivity. }
      intros cur. apply sends_bind; [apply sends_fetchone|]. intros row.
      apply sends_bind; [apply sends_subscript|]. intros id.
      apply sends_bind; [apply sends_commit; reflexivity|].
      intros. apply sends_ret.
    + intros e k Hk. destruct e; try discriminate Hk. injection Hk as <-.
      apply sends_bind; [apply sends_commit; reflexivity|]. intros _.
      destruct (re_search_key msg) as [ckey|]; [|apply sends_ret].
      apply sends_bind.
      { destruct (delete "citations" p !! ckey);
          [apply sends_ret|apply sends_raise]. }
      intros cval. apply sends_bind.
      { apply sends_execute. cbn [is_citation_stmt].
        apply String.eqb_refl. }
      intros cur. apply sends_bind; [apply sends_fetchone|]. intros row.
      apply sends_bind; [apply sends_subscript|]. intros id.
      apply sends_ret.
  - intros [id|]; [|apply sends_ret].
    apply sends_bind; [|intros; apply sends_ret].
    destruct id; first [apply sends_ret|apply sends_raise].
Qed.

Lemma sends_append_citations self cs :
  ∀ acc, sends (is_citation_stmt (name self)) (append_citations self cs acc).
Proof.
  induction cs as [|x cs IH]; intros acc; cbn [append_citations].
  - apply sends_ret.
  - apply sends_bind; [apply sends_append_citation|]. intros r. apply IH.
Qed.

Lemma sends_citation_phase self cit :
  sends (is_citation_stmt (name self)) (citation_phase self cit).
Proof.
  assert (sends (is_citation_stmt (name self))
            (let* cs := py_iter cit in
             let* ids := append_citations self cs [] in
             ret (VList (VInt <$> ids)))) as H.
  { apply sends_bind.
    - destruct cit; first [apply sends_ret|apply sends_raise].
    - intros cs. apply sends_bind; [apply sends_append_citations|].
      intros. apply sends_ret. }
  destruct cit; try exact H. apply sends_ret.
Qed.

(** X4: the statements of [append].  However the call ends, what it sends
    is a sequence of citation statements (INSERTs into the citation table
    without the [citations] column, COMMITs, and look-ups of an identifier
    in the citation table), followed by nothing, by one INSERT into the
    primary table, or by that INSERT and a COMMIT.  In particular it
    sends no DDL, reads no row of the primary table, and sends at most one
    INSERT into the primary table, after all citation statements. *)
Theorem append_statements (obj : Paper) (complain : bool)
    (s : SQLPapers) (c : conn) (o : outcome unit) (w' : SQLPapers * conn)
    (tr : list stmt) :
  append obj complain (s, c) = (o, w', tr) →
  ∃ tr1 tr2,
    tr = tr1 ++ tr2 ∧
    forallb (is_citation_stmt (name s)) tr1 = true ∧
    (tr2 = [] ∨
     ∃ cit, tr2 = [Insert (name s) (primary_vals obj cit)] ∨
            tr2 = [Insert (name s) (primary_vals obj cit); Commit]).
Proof.
  intros Hrun. unfold_append_in Hrun.
  destruct (obj !! "citations") as [citv|] eqn:Hcit.
  2:{ injection Hrun as <- <- <-. exists [], []. auto. }
  simpl in Hrun.
  destruct (citation_phase s citv c) as [[o1 c1] tr1] eqn:Hph.
  pose proof (sends_citation_phase _ _ _ _ _ _ Hph) as Htr1.
  destruct o1 as [cit|e|]; simpl in Hrun;
    [|injection Hrun as <- <- <-; exists tr1, []; rewrite app_nil_r; auto..].
  destruct (run (Insert (name s) (primary_vals obj cit)) c1)
    as [[cur|e|] c2] eqn:Hins; simpl in Hrun.
  - destruct (run_insert_return _ _ _ _ _ Hins)
      as (tb & z & serial & _ & _ & _ & _ & -> & _).
    simpl in Hrun. injection Hrun as <- <- <-.
    exists tr1. eexists. split; [reflexivity|]. split; [exact Htr1|].
    right. exists cit. right. reflexivity.
  - assert (∃ tr2, tr = tr1 ++ tr2 ∧
              (tr2 = [Insert (name s) (primary_vals obj cit)] ∨
               tr2 = [Insert (name s) (primary_vals obj cit); Commit]))
      as (tr2 & -> & Htr2).
    { destruct e; simpl in Hrun;
        try (injection Hrun as <- <- <-; eexists; split; [reflexivity|];
             left; reflexivity).
      destruct complain; simpl in Hrun; injection Hrun as <- <- <-;
        eexists; (split; [reflexivity|]); [right|left]; reflexivity. }
    exists tr1, tr2. split; [reflexivity|]. split; [exact Htr1|].
    right. exists cit. exact Htr2.
  - injection Hrun as <- <- <-. exists tr1. eexists.
    split; [reflexivity|]. split; [exact Htr1|].
    right. exists cit. left. reflexivity.
Qed.

Lemma append_statements_witness :
  let s := ex_fresh.1 in
  let c := ex_fresh.2 in
  let r := append ex_first true (s, c) in
  ∃ tr1 tr2,
    r.2 = tr1 ++ tr2 ∧
    forallb (is_citation_stmt (name s)) tr1 = true ∧
    (tr2 = [] ∨
     ∃ cit, tr2 = [Insert (name s) (primary_vals ex_first cit)] ∨
            tr2 = [Insert (name s) (primary_vals ex_first cit); Commit]).
Proof.
  intros s c r.
  apply (append_statements ex_first true s c r.1.1 r.1.2 r.2).
  subst r. destruct (append ex_first true (s, c)) as [[o w'] tr].
  reflexivity.
Defined.

(** ** The list and the tables of a store built by [append] *)

Lemma sql_eq_VInt v z : sql_eq v (VInt z) = true → v = VInt z.
Proof.
  destruct v; simpl; try discriminate.
  intros H. apply bool_decide_eq_true in H. congruence.
Qed.




(** X6: no dangling reference.  In a store reached from a fresh one by
    calls of [append], the [citations] cell of every row of the primary
    table is NULL or a list of integers, each of which is the identifier
    of a row of the citation table. *)
Theorem built_citations_resolve (s : SQLPapers) (c : conn)
    (objs : list Paper) :
  built s c objs →
  ∃ tp tc,
    tables c !! name s = Some tp ∧
    tables c !! citations_of (name s) = Some tc ∧
    ∀ r, r ∈ t_rows tp →
      cell r "citations" = VNone ∨
      ∃ zs, cell r "citations" = VList (VInt <$> zs) ∧
            ∀ z, z ∈ zs → ∃ rc, rc ∈ t_rows tc ∧ cell rc "id" = VInt z.
Proof.
  intros Hb. destruct (built_inv _ _ _ Hb) as (rows & Hinv & _).
  destruct Hinv as [_ (tp & Htp & <-) (tc & Htc & _ & Hrefs) _ _ _ _].
  exists tp, tc. split; [exact Htp|]. split; [exact Htc|].
  intros r Hr. rewrite Forall_forall in Hrefs.
  destruct (Hrefs r Hr) as [Hn|(zs & Hzs & Hall)]; [left; exact Hn|right].
  exists zs. split; [exact Hzs|]. intros z Hz.
  rewrite Forall_forall in Hall. destruct (Hall z Hz) as [rc Hrc].
  destruct (find_row_elem _ _ _ Hrc) as [Hin Heq].
  exists rc. split; [exact Hin|]. apply sql_eq_VInt, Heq.
Qed.

Lemma built_citations_resolve_witness :
  let s := ex_world.1 in
  let c := ex_world.2 in
  ∃ tp tc,
    tables c !! name s = Some tp ∧
    tables c !! citations_of (name s) = Some tc ∧
    ∀ r, r ∈ t_rows tp →
      cell r "citations" = VNone ∨
      ∃ zs, cell r "citations" = VList (VInt <$> zs) ∧
            ∀ z, z ∈ zs → ∃ rc, rc ∈ t_rows tc ∧ cell rc "id" = VInt z.
Proof.
  intros s c.
  apply (built_citations_resolve s c [ex_first; ex_second]).
  exact (proj1 (appended_built _ _ _ ex_appended)).
Defined.

(** X7: attaching to the table of a store gives the store back.  For a
    store reached from a fresh one by calls of [append], on a connection
    that is not in a failed transaction, the constructor called with the
    name of the store's table returns a list object with the same name,
    the same columns and the same identifiers in the same order; it sends
    two SELECTs and leaves the connection as it was. *)
Theorem reattach_recovers_store (s : SQLPapers) (c : conn)
    (objs : list Paper) (u : N) :
  built s c objs → failed c = false →
  init (Some (name s)) u c =
    (Return s, c, [SelectIds (name s); SelectColumns (name s)]).
Proof.
  intros Hb Hf. destruct (built_inv _ _ _ Hb) as (rows & Hinv & _).
  destruct Hinv as [H1 (tp & Htp & <-) _ H4 _ _ _].
  rewrite (init_existing _ u _ _ Htp Hf).
  destruct s as [n cs ids]. cbn [name cols rowIds] in *. subst cs ids.
  reflexivity.
Qed.

Lemma reattach_recovers_store_witness :
  let s := ex_world.1 in
  let c := ex_world.2 in
  init (Some (name s)) 0%N c =
    (Return s, c, [SelectIds (name s); SelectColumns (name s)]).
Proof.
  intros s c.
  apply (reattach_recovers_store s c [ex_first; ex_second] 0%N).
  - exact (proj1 (appended_built _ _ _ ex_appended)).
  - exact (proj2 (appended_built _ _ _ ex_appended)).
Defined.

(** ** Indexing and iteration on a store built by [append] *)

(** The Paper read from a row. *)
Definition paper_of_row (tc : table) (r : list value) : Paper :=
  decode r (resolved (t_rows tc) (cell r "citations")).

Lemma getitem_row fuel s c rows tc i r :
  store_inv s c rows → failed c = false →
  tables c !! citations_of (name s) = Some tc →
  rows !! i = Some r →
  ∃ tr, getitem (S (S fuel)) s (Z.of_nat i) c =
          (Return (paper_of_row tc r), c, tr).
Proof.
  intros Hinv Hf Htc Hr.
  destruct (get_by_id_inv fuel _ _ _ _ _ _ Hinv Hf Htc Hr) as [tr Hget].
  exists tr. unfold getitem.
  rewrite (bind_return_nil _ _ _ (cell r "id") c); [exact Hget|].
  apply list_getitem_in.
  rewrite (inv_rowIds _ _ _ Hinv), list_lookup_fmap, Hr. reflexivity.
Qed.

Lemma iter_rows_store fuel s c rows tc :
  store_inv s c rows → failed c = false →
  tables c !! citations_of (name s) = Some tc →
  ∃ tr, iter (S fuel) s c = (paper_of_row tc <$> rows, Return tt, c, tr).
Proof.
  intros Hinv Hf Htc.
  destruct (inv_primary _ _ _ Hinv) as (tp & Htp & Hrows).
  destruct (iter_rows_resolve (S fuel) s c tp (t_rows tp) Htp Hf) as [H1 _].
  - rewrite Hrows. exact (inv_pk _ _ _ Hinv).
  - rewrite Hrows. exact (inv_ids _ _ _ Hinv).
  - intros x Hx. exact Hx.
  - rewrite (resolve_rows_inv fuel s c rows tc (t_rows tp) Hinv Hf Htc)
      in H1 by (rewrite Hrows; intros x Hx; exact Hx).
    rewrite (iter_scan _ _ _ _ Htp Hf).
    destruct (iter_rows (S fuel) s (t_rows tp) c) as [[[ps o] c'] tr].
    unfold observe in H1. simpl in H1. injection H1 as -> -> ->.
    rewrite Hrows. eexists. reflexivity.
Qed.

(** X8: iteration and indexing agree.  On a store reached from a fresh
    one by calls of [append], on a connection that is not in a failed
    transaction, the iteration ends normally, yields as many Papers as the
    list has identifiers, and the [i]-th Paper it yields is the Paper
    that indexing with [i] returns. *)
Theorem iter_agrees_with_getitem (fuel : nat) (s : SQLPapers) (c : conn)
    (objs : list Paper) :
  built s c objs → failed c = false →
  ∃ ps tr,
    iter (S fuel) s c = (ps, Return tt, c, tr) ∧
    List.length ps = List.length (rowIds s) ∧
    ∀ i p, ps !! i = Some p →
      ∃ tr', getitem (S (S fuel)) s (Z.of_nat i) c = (Return p, c, tr').
Proof.
  intros Hb Hf. destruct (built_inv _ _ _ Hb) as (rows & Hinv & _).
  destruct (inv_citations _ _ _ Hinv) as (tc & Htc & _).
  destruct (iter_rows_store fuel s c rows tc Hinv Hf Htc) as [tr Hit].
  exists (paper_of_row tc <$> rows), tr. split; [exact Hit|]. split.
  - rewrite (inv_rowIds _ _ _ Hinv), !length_fmap. reflexivity.
  - intros i p Hi. rewrite list_lookup_fmap in Hi.
    destruct (rows !! i) as [r|] eqn:Hr; [|discriminate].
    injection Hi as <-.
    exact (getitem_row fuel s c rows tc i r Hinv Hf Htc Hr).
Qed.

Lemma iter_agrees_with_getitem_witness :
  let s := ex_world.1 in
  let c := ex_world.2 in
  ∃ ps tr,
    iter 1 s c = (ps, Return tt, c, tr) ∧
    List.length ps = List.length (rowIds s) ∧
    ∀ i p, ps !! i = Some p →
      ∃ tr', getitem 2 s (Z.of_nat i) c = (Return p, c, tr').
Proof.
  intros s c.
  apply (iter_agrees_with_getitem 0 s c [ex_first; ex_second]).
  - exact (proj1 (appended_built _ _ _ ex_appended)).
  - exact (proj2 (appended_built _ _ _ ex_appended)).
Defined.

(** A negative key counts from the end of the list. *)
Lemma list_getitem_neg {S A} (l : list A) (key : Z) (s : S) :
  - Z.of_nat (List.length l) ≤ key < 0 →
  list_getitem l key s = list_getitem l (key + Z.of_nat (List.length l)) s.
Proof.
  intros [Hlo Hhi]. unfold list_getitem.
  destruct (Z.ltb_spec key 0) as [_|?]; [|lia].
  destruct (Z.ltb_spec (key + Z.of_nat (List.length l)) 0) as [?|_]; [lia|].
  reflexivity.
Qed.

Lemma paper_of_row_fields tc obj r :
  row_for obj r →
  (∀ k, k ∈ paper_fields → k ≠ "citations" →
        paper_of_row tc r !! k = Some (field obj k)) ∧
  (obj !! "citations" = Some VNone →
     paper_of_row tc r !! "citations" = Some VNone) ∧
  (obj !! "citations" ≠ Some VNone →
     ∃ ps, paper_of_row tc r !! "citations" = Some (VList (VPaper <$> ps))).
Proof.
  intros Hfor. unfold paper_of_row. split; [|split].
  - intros k Hk Hne. rewrite decode_field by assumption.
    rewrite (cell_row_for_field obj) by assumption. reflexivity.
  - intros Hnone. rewrite decode_citations.
    destruct Hfor as (z & cit & -> & Hc1 & _).
    rewrite cell_primary_citations, (Hc1 Hnone). reflexivity.
  - intros Hsome. rewrite decode_citations.
    destruct Hfor as (z & cit & -> & _ & Hc2).
    destruct (Hc2 Hsome) as [zs ->].
    rewrite cell_primary_citations. cbn [resolved].
    exists ((λ z, decode (default [] (find_row (t_rows tc) (VInt z))) VNone)
              <$> zs).
    rewrite <- !list_fmap_compose. reflexivity.
Qed.

(** The example store after its first append. *)
Definition ex_mid : SQLPapers * conn := (append ex_first true ex_fresh).1.2.

(** ** A connection in a failed transaction *)

Lemma append_citation_failed s p c :
  failed c = true →
  append_citation s (VPaper p) c =
    (Raise InternalError, c,
     [Insert (citations_of (name s)) (delete "citations" p)]).
Proof.
  intros Hf. cbn [append_citation]. apply bind_raise.
  unfold try_except, bind, execute.
  rewrite run_failed by (exact Hf || discriminate). reflexivity.
Qed.

Lemma append_citation_phase_raise obj complain s c cit e c1 tr :
  obj !! "citations" = Some cit →
  citation_phase s cit c = (Raise e, c1, tr) →
  append obj complain (s, c) = (Raise e, (s, c1), tr).
Proof.
  intros Hcit Hph. unfold_append. rewrite Hcit; simpl. rewrite Hph.
  reflexivity.
Qed.

(** [append] on a connection in a failed transaction: the first statement
    is refused, and the error is not one [append] handles. *)
Lemma append_failed obj complain s c cit :
  failed c = true →
  obj !! "citations" = Some cit →
  cit = VNone ∨ (∃ ps, cit = VList (VPaper <$> ps)) →
  ∃ stm,
    append obj complain (s, c) = (Raise InternalError, (s, c), [stm]) ∧
    is_insert stm = true.
Proof.
  intros Hf Hcit Hshape.
  assert (∀ v, citation_phase s cit c = (Return v, c, []) →
            append obj complain (s, c) =
              (Raise InternalError, (s, c),
               [Insert (name s) (primary_vals obj v)])) as Hprim.
  { intros v Hph. unfold_append. rewrite Hcit; simpl. rewrite Hph; simpl.
    rewrite run_failed by (exact Hf || discriminate). reflexivity. }
  destruct Hshape as [->|[[|p ps] ->]].
  - eexists. split; [apply (Hprim VNone); reflexivity|reflexivity].
  - eexists. split; [apply (Hprim (VList [])); reflexivity|reflexivity].
  - exists (Insert (citations_of (name s)) (delete "citations" p)).
    split; [|reflexivity].
    apply (append_citation_phase_raise _ _ _ _ _ _ _ _ Hcit).
    cbn [citation_phase py_iter fmap list_fmap]. rewrite bind_ret_l.
    apply bind_raise. cbn [append_citations]. apply bind_raise.
    apply append_citation_failed, Hf.
Qed.

Lemma iter_failed fuel s c :
  failed c = true →
  iter fuel s c = ([], Raise InternalError, c, [SelectAll (name s)]).
Proof.
  intros Hf. unfold iter, bind, execute.
  rewrite run_failed by (exact Hf || discriminate). reflexivity.
Qed.

(** X10: a duplicate that is refused silently blocks the connection.
    When the INSERT of the primary row violates a unique constraint and
    [complain] is false, [append] returns without a COMMIT and the
    connection stays in the failed transaction: until someone commits,
    every indexing of an item of the list, every iteration and every
    further [append] (of a Record whose [citations] is [None] or a list
    of Records) raises [InternalError] after one refused statement.
    With [complain] the transaction is committed before [ValueError] is
    raised, and the connection is usable. *)
Theorem silent_duplicate_blocks_connection (obj : Paper)
    (self : SQLPapers) (c c1 c2 : conn) (cit ids : value)
    (tr1 : list stmt) (msg : string) :
  obj !! "citations" = Some cit →
  citation_phase self cit c = (Return ids, c1, tr1) →
  run (Insert (name self) (primary_vals obj ids)) c1 =
    (Raise (IntegrityError msg), c2) →
  append obj false (self, c) =
    (Return tt, (self, c2),
     tr1 ++ [Insert (name self) (primary_vals obj ids)]) ∧
  failed c2 = true ∧
  (∀ fuel i id, rowIds self !! i = Some id →
     getitem (S fuel) self (Z.of_nat i) c2 =
       (Raise InternalError, c2, [SelectById (name self) id])) ∧
  (∀ fuel,
     iter fuel self c2 =
       ([], Raise InternalError, c2, [SelectAll (name self)])) ∧
  (∀ obj' complain' cit',
     obj' !! "citations" = Some cit' →
     cit' = VNone ∨ (∃ ps, cit' = VList (VPaper <$> ps)) →
     ∃ stm,
       append obj' complain' (self, c2) =
         (Raise InternalError, (self, c2), [stm]) ∧
       is_insert stm = true) ∧
  (∃ c3 tr3,
     append obj true (self, c) =
       (Raise (ValueError ("Paper already exists: " +:+ msg)),
        (self, c3), tr3) ∧
     failed c3 = false).
Proof.
  intros Hcit Hph Hrun.
  pose proof (run_raise_failed _ _ _ _ Hrun) as Hf.
  split; [|split; [exact Hf|split; [|split; [|split]]]].
  - unfold_append. rewrite Hcit; simpl. rewrite Hph; simpl.
    rewrite Hrun. reflexivity.
  - intros fuel i id Hi. unfold getitem.
    rewrite (bind_return_nil _ _ _ id c2) by (apply list_getitem_in, Hi).
    apply get_by_id_failed, Hf.
  - intros fuel. apply iter_failed, Hf.
  - intros obj' complain' cit' Hcit' Hshape.
    exact (append_failed obj' complain' self c2 cit' Hf Hcit' Hshape).
  - exists (commit_conn c2),
      (tr1 ++ [Insert (name self) (primary_vals obj ids); Commit]).
    split; [|reflexivity].
    unfold_append. rewrite Hcit; simpl. rewrite Hph; simpl.
    rewrite Hrun. reflexivity.
Qed.

Lemma silent_duplicate_blocks_connection_witness :
  let obj : Paper := {[ "doi" := VStr "10.1/a"; "citations" := VNone ]} in
  let self := mkStore "papers" (VStr <$> paper_columns) [VInt 1] in
  let vals := primary_vals obj VNone in
  let c :=
    mkConn {[ "papers" := mkTable [row_of (VInt 1) vals] 1;
              "papers_citations" := mkTable [] 0 ]} false "db" in
  let c2 :=
    mkConn {[ "papers" := mkTable [row_of (VInt 1) vals] 2;
              "papers_citations" := mkTable [] 0 ]} true "db" in
  let msg := unique_violation "papers" "doi" (VStr "10.1/a") in
  append obj false (self, c) = (Return tt, (self, c2), [Insert "papers" vals]) ∧
  failed c2 = true ∧
  (∀ fuel i id, rowIds self !! i = Some id →
     getitem (S fuel) self (Z.of_nat i) c2 =
       (Raise InternalError, c2, [SelectById "papers" id])) ∧
  (∀ fuel,
     iter fuel self c2 = ([], Raise InternalError, c2, [SelectAll "papers"])) ∧
  (∀ obj' complain' cit',
     obj' !! "citations" = Some cit' →
     cit' = VNone ∨ (∃ ps, cit' = VList (VPaper <$> ps)) →
     ∃ stm,
       append obj' complain' (self, c2) =
         (Raise InternalError, (self, c2), [stm]) ∧
       is_insert stm = true) ∧
  (∃ c3 tr3,
     append obj true (self, c) =
       (Raise (ValueError ("Paper already exists: " +:+ msg)),
        (self, c3), tr3) ∧
     failed c3 = false).
Proof.
  intros obj self vals c c2 msg.
  apply (silent_duplicate_blocks_connection obj self c c c2 VNone VNone []
           msg); vm_compute; reflexivity.
Defined.

(** ** A Record that is refused after its citations were stored *)

Lemma append_rejected obj complain s c cit ids c1 tr1 msg c2 :
  obj !! "citations" = Some cit →
  citation_phase s cit c = (Return ids, c1, tr1) →
  run (Insert (name s) (primary_vals obj ids)) c1 =
    (Raise (IntegrityError msg), c2) →
  append obj complain (s, c) =
    if complain then
      (Raise (ValueError ("Paper already exists: " +:+ msg)),
       (s, commit_conn c2),
       tr1 ++ [Insert (name s) (primary_vals obj ids); Commit])
    else
      (Return tt, (s, c2), tr1 ++ [Insert (name s) (primary_vals obj ids)]).
Proof.
  intros Hcit Hphase Hrun. unfold_append.
  rewrite Hcit; simpl. rewrite Hphase; simpl. rewrite Hrun; simpl.
  destruct complain; reflexivity.
Qed.

(** Two rows that agree on a natural key collide on a natural key. *)
Lemma first_conflict_shared z1 z2 vals1 vals2 :
  z1 ≠ z2 → vals1 !! "id" = None → vals2 !! "id" = None →
  (∃ k, k ∈ natural_keys ∧ sql_eq (field vals1 k) (field vals2 k) = true) →
  ∃ col,
    col ∈ natural_keys ∧
    first_conflict unique_columns [row_of (VInt z1) vals1]
      (row_of (VInt z2) vals2) = Some col.
Proof.
  intros Hz Hid1 Hid2 (k & Hk & Heq).
  destruct (first_conflict unique_columns [row_of (VInt z1) vals1]
              (row_of (VInt z2) vals2)) as [col|] eqn:Hconf.
  - exists col. split; [|reflexivity].
    destruct (first_conflict_Some _ _ _ _ Hconf) as [Hcol Hex].
    destruct (unique_column_cases col Hcol) as [->|Hnat]; [|exact Hnat].
    cbn [existsb] in Hex.
    change (cell (row_of (VInt z1) vals1) "id") with (VInt z1) in Hex.
    change (cell (row_of (VInt z2) vals2) "id") with (VInt z2) in Hex.
    cbn [sql_eq] in Hex. rewrite bool_decide_eq_false_2 in Hex by exact Hz.
    discriminate.
  - exfalso.
    assert (existsb (λ r', sql_eq (cell r' k) (cell (row_of (VInt z2) vals2) k))
              [row_of (VInt z1) vals1] = false) as Hno.
    { clear Heq. revert k Hk.
      assert (∀ ucols k, k ∈ ucols →
                first_conflict ucols [row_of (VInt z1) vals1]
                  (row_of (VInt z2) vals2) = None →
                existsb (λ r', sql_eq (cell r' k)
                                 (cell (row_of (VInt z2) vals2) k))
                  [row_of (VInt z1) vals1] = false) as Hgen.
      { induction ucols as [|c ucols IH]; intros k Hk Hnone;
          [apply elem_of_nil in Hk; destruct Hk|].
        cbn [first_conflict] in Hnone.
        destruct (existsb _ [row_of (VInt z1) vals1]) eqn:He in Hnone;
          [discriminate|].
        apply elem_of_cons in Hk as [->|Hk]; [exact He|exact (IH k Hk Hnone)]. }
      intros k Hk. apply (Hgen unique_columns); [right; exact Hk|exact Hconf]. }
    cbn [existsb] in Hno. rewrite orb_false_r in Hno.
    destruct (natural_key_column k Hk) as (H1 & H2 & _).
    rewrite !cell_row_of in Hno by assumption.
    unfold field in Heq. congruence.
Qed.

(** The first [append] on a fresh store, of a Record without citations. *)
Lemma append_first_plain u c0 obj complain :
  is_record obj = true → obj !! "citations" = Some VNone →
  append obj complain (fresh_store u, fresh_conn u c0) =
    (Return tt,
     (mkStore (fresh_name u) (VStr <$> paper_columns) [VInt 1],
      mkConn (<[fresh_name u :=
                  mkTable [row_of (VInt 1) (primary_vals obj VNone)] 1]>
                (tables (fresh_conn u c0)))
             false (dbname c0)),
     [Insert (fresh_name u) (primary_vals obj VNone); Commit]).
Proof.
  intros Hrec Hcit.
  rewrite (append_new obj complain (fresh_store u) (fresh_conn u c0)
             _ _ _ _ (mkTable [] 0) Hcit (citation_phase_null _ _));
    [reflexivity|reflexivity| |exact Hrec|reflexivity].
  cbn [tables fresh_conn name fresh_store].
  rewrite lookup_insert_ne by apply citations_of_ne.
  apply lookup_insert_eq.
Qed.

Section rejected_parent.
Variable u : N.
Variable c0 : conn.
Variables pa pd b : Paper.
Hypothesis c0_ready : failed c0 = false.
Hypothesis c0_fresh : tables c0 !! fresh_name u = None.
Hypothesis c0_fresh_cit : tables c0 !! citations_of (fresh_name u) = None.
Hypothesis pa_typed : typed_record pa = true.
Hypothesis pd_typed : typed_record pd = true.
Hypothesis b_typed : typed_record b = true.
Hypothesis pa_cites : pa !! "citations" = Some VNone.
Hypothesis pd_cites : pd !! "citations" = Some (VList [VPaper b]).
Hypothesis same_key :
  ∃ k, k ∈ natural_keys ∧ sql_eq (field pa k) (field pd k) = true.

Let pa_record : is_record pa = true := typed_record_is_record pa pa_typed.
Let pd_record : is_record pd = true := typed_record_is_record pd pd_typed.
Let b_record : is_record b = true := typed_record_is_record b b_typed.
Let tname := fresh_name u.
Let cname := citations_of (fresh_name u).
Let ra := row_of (VInt 1) (primary_vals pa VNone).
Let rb := row_of (VInt 1) (delete "citations" b).
Let store_a := mkStore tname (VStr <$> paper_columns) [VInt 1].
Let conn_a : conn :=
  mkConn (<[tname := mkTable [ra] 1]> (tables (fresh_conn u c0)))
         false (dbname c0).
Let conn_b : conn :=
  mkConn (<[cname := mkTable [rb] 1]> (tables conn_a)) false (dbname c0).

Lemma rejected_first_append complain :
  append pa complain (fresh_store u, fresh_conn u c0) =
    (Return tt, (store_a, conn_a),
     [Insert tname (primary_vals pa VNone); Commit]).
Proof. exact (append_first_plain u c0 pa complain pa_record pa_cites). Qed.

Lemma rejected_citation_phase :
  citation_phase store_a (VList [VPaper b]) conn_a =
    (Return (VList [VInt 1]), conn_b,
     [Insert cname (delete "citations" b); Commit]).
Proof.
  cbn [citation_phase py_iter]. rewrite bind_ret_l.
  cbn [append_citations].
  erewrite bind_return; cycle 1.
  { erewrite bind_return; cycle 1.
    { apply (append_citation_new store_a b conn_a (mkTable [] 0));
        [reflexivity| |exact b_record|reflexivity].
      cbn [tables conn_a name store_a fresh_conn].
      rewrite lookup_insert_ne by (symmetry; apply citations_of_ne).
      apply lookup_insert_eq. }
    reflexivity. }
  reflexivity.
Qed.

(** X11: a refused Record leaves its citations behind.  On a fresh store
    a Record without citations is appended; then a second Record, which
    has the value of the first in some natural key and cites one Record,
    is given to [append].  The three Records hold values of the types of
    their columns ([typed_record]).  The citation is inserted into the citation
    table and committed before the INSERT of the primary row is refused:
    the call raises [ValueError] (or returns, without [complain]), the
    list and the rows of the primary table are as after the first call,
    and the citation table holds the row of the citation, to which no row
    of the primary table refers. *)
Theorem rejected_parent_keeps_citation (complain1 complain : bool) :
  ∃ s0 c1 tr1 s1 c2 tr2 o c3 tr3 tp tc,
    init None u c0 = (Return s0, c1, tr1) ∧
    append pa complain1 (s0, c1) = (Return tt, (s1, c2), tr2) ∧
    append pd complain (s1, c2) = (o, (s1, c3), tr3) ∧
    (if complain
     then ∃ msg, o = Raise (ValueError ("Paper already exists: " +:+ msg))
     else o = Return tt) ∧
    rowIds s1 = [VInt 1] ∧
    tables c3 !! name s1 = Some tp ∧
    t_rows tp = [row_of (VInt 1) (primary_vals pa VNone)] ∧
    Forall (λ r, cell r "citations" = VNone) (t_rows tp) ∧
    tables c3 !! citations_of (name s1) = Some tc ∧
    t_rows tc = [row_of (VInt 1) (delete "citations" b)].
Proof.
  destruct (primary_vals_ok pa VNone pa_record) as (_ & _ & Hida).
  destruct (primary_vals_ok pd (VList [VInt 1]) pd_record)
    as (Hned & Hcold & Hidd).
  destruct (first_conflict_shared 1 2 (primary_vals pa VNone)
              (primary_vals pd (VList [VInt 1]))) as (col & Hcol & Hconf);
    [discriminate|exact Hida|exact Hidd| |].
  { destruct same_key as (k & Hk & Heq). exists k. split; [exact Hk|].
    pose proof (natural_key_not_citations k Hk).
    rewrite !field_primary_vals by assumption. exact Heq. }
  assert (tables conn_b !! tname = Some (mkTable [ra] 1)) as Htp.
  { cbn [tables conn_b conn_a].
    rewrite lookup_insert_ne by apply citations_of_ne.
    apply lookup_insert_eq. }
  pose proof (run_insert_conflict tname _ conn_b (mkTable [ra] 1) col
                eq_refl Htp Hned Hcold Hidd Hconf) as Hrun.
  pose proof (append_rejected pd complain store_a conn_a _ _ _ _ _ _
                pd_cites rejected_citation_phase Hrun) as Happ.
  exists (fresh_store u), (fresh_conn u c0). eexists.
  exists store_a, conn_a. eexists.
  destruct complain.
  - eexists _, _, _, (mkTable [ra] 2), (mkTable [rb] 1).
    split; [exact (init_fresh u c0 c0_ready c0_fresh c0_fresh_cit)|].
    split; [exact (rejected_first_append complain1)|].
    split; [exact Happ|]. split; [eexists; reflexivity|].
    split; [reflexivity|]. cbn [tables commit_conn name store_a t_rows].
    split; [apply lookup_insert_eq|]. split; [reflexivity|].
    split; [repeat constructor; apply cell_primary_citations|].
    split; [|reflexivity].
    rewrite lookup_insert_ne by (symmetry; apply citations_of_ne).
    cbn [tables conn_b]. apply lookup_insert_eq.
  - eexists _, _, _, (mkTable [ra] 2), (mkTable [rb] 1).
    split; [exact (init_fresh u c0 c0_ready c0_fresh c0_fresh_cit)|].
    split; [exact (rejected_first_append complain1)|].
    split; [exact Happ|]. split; [reflexivity|].
    split; [reflexivity|]. cbn [tables name store_a t_rows].
    split; [apply lookup_insert_eq|]. split; [reflexivity|].
    split; [repeat constructor; apply cell_primary_citations|].
    split; [|reflexivity].
    rewrite lookup_insert_ne by (symmetry; apply citations_of_ne).
    cbn [tables conn_b]. apply lookup_insert_eq.
Qed.

End rejected_parent.

Lemma rejected_parent_keeps_citation_witness :
  let c0 := mkConn ∅ false "db" in
  let b : Paper := {[ "doi" := VStr "10.1/b"; "citations" := VNone ]} in
  let pa : Paper :=
    {[ "doi" := VStr "10.1/a"; "atitle" := VStr "First";
       "citations" := VNone ]} in
  let pd : Paper :=
    {[ "doi" := VStr "10.1/a"; "atitle" := VStr "Again";
       "citations" := VList [VPaper b] ]} in
  ∃ s0 c1 tr1 s1 c2 tr2 o c3 tr3 tp tc,
    init None 7%N c0 = (Return s0, c1, tr1) ∧
    append pa true (s0, c1) = (Return tt, (s1, c2), tr2) ∧
    append pd true (s1, c2) = (o, (s1, c3), tr3) ∧
    (∃ msg, o = Raise (ValueError ("Paper already exists: " +:+ msg))) ∧
    rowIds s1 = [VInt 1] ∧
    tables c3 !! name s1 = Some tp ∧
    t_rows tp = [row_of (VInt 1) (primary_vals pa VNone)] ∧
    Forall (λ r, cell r "citations" = VNone) (t_rows tp) ∧
    tables c3 !! citations_of (name s1) = Some tc ∧
    t_rows tc = [row_of (VInt 1) (delete "citations" b)].
Proof.
  intros c0 b pa pd.
  apply (rejected_parent_keeps_citation 7%N c0 pa pd b);
    try (vm_compute; reflexivity).
  exists "doi"%string. split; [|vm_compute; reflexivity].
  apply (bool_decide_unpack _). reflexivity.
Defined.

(** ** Tables that are missing *)

Lemma init_no_table t u c :
  failed c = false → tables c !! t = None →
  init (Some t) u c =
    (Raise ProgrammingError, mkConn (tables c) true (dbname c),
     [SelectIds t]).
Proof.
  intros Hf Ht. unfold init. apply bind_raise. apply bind_raise.
  unfold execute, run. rewrite Hf, Ht. reflexivity.
Qed.

(** X12: the constructor on a table that does not exist.  The name is
    one that PostgreSQL reads as it is written (lower-case letters, digits
    and underscores, at most 63 characters), so that no other spelling of
    it names a table.  The SELECT of the identifiers is refused: the
    constructor raises [ProgrammingError] after this one statement,
    creates no table, and leaves the connection in the failed
    transaction. *)
Theorem init_missing_table (t : string) (u : N) (c : conn) :
  plain_identifier t = true →
  failed c = false → tables c !! t = None →
  init (Some t) u c =
    (Raise ProgrammingError, mkConn (tables c) true (dbname c),
     [SelectIds t]).
Proof. intros _. exact (init_no_table t u c). Qed.

Lemma init_missing_table_witness :
  let c := mkConn {[ "papers" := mkTable [] 0 ]} false "db" in
  init (Some "articles") 0%N c =
    (Raise ProgrammingError, mkConn (tables c) true "db",
     [SelectIds "articles"]).
Proof.
  intros c. apply (init_missing_table "articles" 0%N c); reflexivity.
Defined.

(** X13: reading from a table that has no companion citation table.  A
    row whose [citations] cell is NULL is read with one SELECT and the
    citation table is never looked at; for a row whose [citations] cell
    is not NULL the nested constructor is refused, and the call raises
    [ProgrammingError] and leaves the connection in the failed
    transaction. *)
Theorem get_by_id_without_citation_table (fuel : nat) (s : SQLPapers)
    (id : value) (c : conn) (tb : table) (r : list value) :
  tables c !! name s = Some tb →
  tables c !! citations_of (name s) = None →
  failed c = false →
  cols s = VStr <$> paper_columns →
  find_row (t_rows tb) id = Some r →
  List.length r = 23%nat →
  get_by_id (S fuel) s id c =
    match cell r "citations" with
    | VNone => (Return (decode r VNone), c, [SelectById (name s) id])
    | _ =>
        (Raise ProgrammingError, mkConn (tables c) true (dbname c),
         [SelectById (name s) id; SelectIds (citations_of (name s))])
    end.
Proof.
  intros Ht Htc Hf Hcols Hr Hlen.
  rewrite (get_by_id_step _ _ _ _ _ Ht Hf), Hr. cbn [yield_paper].
  rewrite (yield_fields_row _ _ _ _ Hcols Hlen).
  assert (resolve_citations (get_by_id fuel) s (cell r "citations") c =
          (Raise ProgrammingError, mkConn (tables c) true (dbname c),
           [SelectIds (citations_of (name s))])) as Hres.
  { unfold resolve_citations. apply bind_raise.
    apply (init_no_table _ _ _ Hf Htc). }
  destruct (cell r "citations") eqn:Hcit;
    try (change (is_citations (VStr "citations") _) with true;
         cbv iota; rewrite (bind_raise _ _ _ _ _ _ Hres); reflexivity).
  reflexivity.
Qed.

Lemma get_by_id_without_citation_table_witness :
  let s := mkStore "papers" (VStr <$> paper_columns) [VInt 1; VInt 2] in
  let r1 := row_of (VInt 1) {[ "doi" := VStr "10.1/a" ]} in
  let r2 := row_of (VInt 2) {[ "doi" := VStr "10.1/b";
                               "citations" := VList [VInt 5] ]} in
  let c := mkConn {[ "papers" := mkTable [r1; r2] 2 ]} false "db" in
  get_by_id 1 s (VInt 1) c =
    (Return (decode r1 VNone), c, [SelectById "papers" (VInt 1)]) ∧
  get_by_id 1 s (VInt 2) c =
    (Raise ProgrammingError, mkConn (tables c) true "db",
     [SelectById "papers" (VInt 2); SelectIds "papers_citations"]).
Proof.
  intros s r1 r2 c. split.
  - apply (get_by_id_without_citation_table 0 s (VInt 1) c
             (mkTable [r1; r2] 2) r1); reflexivity.
  - apply (get_by_id_without_citation_table 0 s (VInt 2) c
             (mkTable [r1; r2] 2) r2); reflexivity.
Defined.

(** ** Identifiers of a store built by [append] *)

(** What an INSERT does to the sequence of its table. *)
Lemma run_insert_serial t vals c o c' tb :
  run (Insert t vals) c = (o, c') → tables c !! t = Some tb →
  ∃ tb',
    tables c' !! t = Some tb' ∧ t_serial tb ≤ t_serial tb' ∧
    (∀ cur, o = Return cur →
       ∃ z, cur = Some [[VInt z]] ∧
            (vals !! "id" = None → z = t_serial tb + 1 ∧ t_serial tb' = z)).
Proof.
  intros Hrun Ht. unfold run in Hrun.
  destruct (failed c).
  { injection Hrun as <- <-. exists tb. repeat split; [exact Ht|lia|].
    discriminate. }
  unfold run_insert, fail_stmt in Hrun. rewrite Ht in Hrun.
  destruct (bool_decide (vals = ∅)).
  { injection Hrun as <- <-. exists tb. repeat split; [exact Ht|lia|].
    discriminate. }
  destruct (undefined_column vals).
  { injection Hrun as <- <-. exists tb. repeat split; [exact Ht|lia|].
    discriminate. }
  unfold insert_id in Hrun.
  destruct (vals !! "id") as [[| |z| |]|] eqn:Hid;
    try (injection Hrun as <- <-; exists tb;
         repeat split; [exact Ht|lia|discriminate]).
  - destruct (first_conflict _ _ _); injection Hrun as <- <-;
      eexists; cbn [tables set_table]; rewrite lookup_insert_eq;
      (split; [reflexivity|]); cbn [t_serial]; (split; [lia|]);
      [discriminate|].
    intros cur [= <-]. exists z. split; [reflexivity|discriminate].
  - destruct (first_conflict _ _ _); injection Hrun as <- <-;
      eexists; cbn [tables set_table]; rewrite lookup_insert_eq;
      (split; [reflexivity|]); cbn [t_serial]; (split; [lia|]);
      [discriminate|].
    intros cur [= <-]. eexists. split; [reflexivity|]. auto.
Qed.

(** What [append] does to the list and to the sequence of the primary
    table. *)
Lemma append_primary_effect obj complain s c o s' c' tr tp :
  append obj complain (s, c) = (o, (s', c'), tr) →
  tables c !! name s = Some tp →
  name s' = name s ∧
  ∃ tp',
    tables c' !! name s = Some tp' ∧ t_serial tp ≤ t_serial tp' ∧
    (rowIds s' = rowIds s ∨
     ∃ z, rowIds s' = rowIds s ++ [VInt z] ∧
          (obj !! "id" = None → z = t_serial tp + 1 ∧ t_serial tp' = z)).
Proof.
  intros Hrun Htp. unfold_append_in Hrun.
  assert (∀ c1, tables c1 !! name s = Some tp →
            name s = name s ∧
            ∃ tp',
              tables c1 !! name s = Some tp' ∧ t_serial tp ≤ t_serial tp' ∧
              (rowIds s = rowIds s ∨
               ∃ z, rowIds s = rowIds s ++ [VInt z] ∧
                    (obj !! "id" = None →
                     z = t_serial tp + 1 ∧ t_serial tp' = z))) as Hidle.
  { intros c1 H1. split; [reflexivity|]. exists tp.
    split; [exact H1|]. split; [lia|]. left. reflexivity. }
  destruct (obj !! "citations") as [citv|] eqn:Hcit.
  2:{ injection Hrun as <- <- <- <-. apply Hidle, Htp. }
  simpl in Hrun.
  destruct (citation_phase s citv c) as [[o1 c1] tr1] eqn:Hph.
  destruct (citation_phase_spec _ _ _ _ _ _ Hph) as [[Hother _] _].
  assert (tables c1 !! name s = Some tp) as Htp1.
  { rewrite Hother; [exact Htp|].
    intros Heq. exact (citations_of_ne _ (eq_sym Heq)). }
  destruct o1 as [cit|e|]; simpl in Hrun;
    [|injection Hrun as <- <- <- <-; apply Hidle, Htp1..].
  destruct (run (Insert (name s) (primary_vals obj cit)) c1)
    as [o2 c2] eqn:Hins.
  destruct (run_insert_serial _ _ _ _ _ _ Hins Htp1)
    as (tp2 & Htp2 & Hle & Hret).
  assert (∀ c3, tables c3 = tables c2 →
            name s = name s ∧
            ∃ tp',
              tables c3 !! name s = Some tp' ∧ t_serial tp ≤ t_serial tp' ∧
              (rowIds s = rowIds s ∨
               ∃ z, rowIds s = rowIds s ++ [VInt z] ∧
                    (obj !! "id" = None →
                     z = t_serial tp + 1 ∧ t_serial tp' = z))) as Hsame.
  { intros c3 H3. split; [reflexivity|]. exists tp2. rewrite H3.
    split; [exact Htp2|]. split; [exact Hle|]. left. reflexivity. }
  destruct o2 as [cur|e|]; simpl in Hrun.
  - destruct (Hret cur eq_refl) as (z & -> & Hz).
    simpl in Hrun. injection Hrun as <- <- <- <-. cbn [name rowIds].
    split; [reflexivity|]. exists tp2. split; [exact Htp2|].
    split; [exact Hle|]. right. exists z. split; [reflexivity|].
    intros Hid. apply Hz. unfold primary_vals.
    rewrite lookup_insert_ne, lookup_delete_ne by discriminate. exact Hid.
  - destruct e; simpl in Hrun;
      try (injection Hrun as <- <- <- <-; apply Hsame; reflexivity).
    destruct complain; simpl in Hrun; injection Hrun as <- <- <- <-;
      apply Hsame; reflexivity.
  - injection Hrun as <- <- <- <-. apply Hsame; reflexivity.
Qed.

Lemma ascending_snoc ids z :
  ascending ids →
  Forall (λ v, ∃ z', v = VInt z' ∧ z' < z) ids →
  ascending (ids ++ [VInt z]).
Proof.
  intros Hasc Hall i j a b Hi Hj Hlt.
  apply lookup_snoc_Some in Hj as [[Hjl Hj]|[Hjl <-]].
  - apply lookup_snoc_Some in Hi as [[_ Hi]|[Hil _]]; [|lia].
    exact (Hasc i j a b Hi Hj Hlt).
  - apply lookup_snoc_Some in Hi as [[_ Hi]|[Hil _]]; [|lia].
    rewrite Forall_forall in Hall.
    destruct (Hall a) as (z' & -> & Hz'); [apply list_elem_of_lookup; eauto|].
    exact Hz'.
Qed.

(** The identifiers of the list are below the sequence of the primary
    table, and ascending. *)
Definition ids_below_serial (s : SQLPapers) (c : conn) : Prop :=
  ∃ tp, tables c !! name s = Some tp ∧
        ascending (rowIds s) ∧
        Forall (λ v, ∃ z, v = VInt z ∧ z ≤ t_serial tp) (rowIds s).

Lemma built_ids_below_serial s c objs :
  built s c objs → Forall (λ obj, obj !! "id" = None) objs →
  ids_below_serial s c.
Proof.
  induction 1 as [u c0 s c tr Hinit
                 |s c objs obj complain s' c' tr id _ IH Happ Hids
                 |s c objs obj complain o s' c' tr _ IH Happ Hids];
    intros Hobjs.
  - destruct (init_fresh_inv _ _ _ _ _ Hinit) as (-> & -> & _).
    exists (mkTable [] 0). split; [|split].
    + cbn [tables fresh_conn name fresh_store].
      rewrite lookup_insert_ne by apply citations_of_ne.
      apply lookup_insert_eq.
    + intros i j a b Hi. cbn [rowIds fresh_store] in Hi.
      rewrite lookup_nil in Hi. discriminate.
    + constructor.
  - apply Forall_app in Hobjs as [Hobjs Hobj].
    apply Forall_cons in Hobj as [Hobj _].
    destruct (IH Hobjs) as (tp & Htp & Hasc & Hbelow).
    destruct (append_primary_effect _ _ _ _ _ _ _ _ _ Happ Htp)
      as (Hname & tp' & Htp' & Hle & [Hsame|(z & Hgrow & Hz)]).
    + exfalso. rewrite Hsame in Hids. apply (f_equal List.length) in Hids.
      rewrite length_app in Hids. simpl in Hids. lia.
    + destruct (Hz Hobj) as [-> Hser].
      exists tp'. rewrite Hname. split; [exact Htp'|]. rewrite Hgrow. split.
      * apply ascending_snoc; [exact Hasc|].
        eapply Forall_impl; [exact Hbelow|].
        intros v (z' & -> & Hz'). exists z'. split; [reflexivity|lia].
      * apply Forall_app. split.
        -- eapply Forall_impl; [exact Hbelow|].
           intros v (z' & -> & Hz'). exists z'. split; [reflexivity|lia].
        -- repeat constructor. eexists. split; [reflexivity|lia].
  - destruct (IH Hobjs) as (tp & Htp & Hasc & Hbelow).
    destruct (append_primary_effect _ _ _ _ _ _ _ _ _ Happ Htp)
      as (Hname & tp' & Htp' & Hle & _).
    exists tp'. rewrite Hname, Hids. split; [exact Htp'|].
    split; [exact Hasc|].
    eapply Forall_impl; [exact Hbelow|].
    intros v (z' & -> & Hz'). exists z'. split; [reflexivity|lia].
Qed.

(** X14: the identifiers of a store built by [append] are ascending.  In
    a store reached from a fresh one by calls of [append], where the
    Records that were added have no [id] field of their own, the list is
    strictly ascending: every identifier comes from the sequence of the
    primary table, which only moves forward; no identifier exceeds the
    current value of the sequence. *)
Theorem built_ids_ascending (s : SQLPapers) (c : conn) (objs : list Paper) :
  built s c objs →
  Forall (λ obj, obj !! "id" = None) objs →
  ascending (rowIds s) ∧
  ∃ tp, tables c !! name s = Some tp ∧
        Forall (λ v, ∃ z, v = VInt z ∧ z ≤ t_serial tp) (rowIds s).
Proof.
  intros Hb Hobjs.
  destruct (built_ids_below_serial s c objs Hb Hobjs) as (tp & H1 & H2 & H3).
  eauto.
Qed.

Lemma built_ids_ascending_witness :
  ascending (rowIds ex_world.1) ∧
  ∃ tp, tables ex_world.2 !! name ex_world.1 = Some tp ∧
        Forall (λ v, ∃ z, v = VInt z ∧ z ≤ t_serial tp) (rowIds ex_world.1).
Proof.
  apply (built_ids_ascending ex_world.1 ex_world.2 [ex_first; ex_second]).
  - exact (proj1 (appended_built _ _ _ ex_appended)).
  - repeat constructor.
Defined.

(** ** Citations of citations *)

Lemma resolved_flat rows_c cit :
  resolved rows_c cit = cit ∧ (∀ l, cit ≠ VList l) ∨
  ∃ qs, resolved rows_c cit = VList (VPaper <$> qs) ∧
        Forall (λ q : Paper, q !! "citations" = Some VNone) qs.
Proof.
  destruct cit as [| | |ks|]; try (left; split; [reflexivity|discriminate]).
  right. cbn [resolved].
  exists ((λ k, decode (default [] (find_row rows_c k)) VNone) <$> ks).
  split; [rewrite <- list_fmap_compose; reflexivity|].
  apply Forall_fmap, Forall_forall. intros k _. unfold compose.
  exact (decode_citations _ VNone).
Qed.

(** X15: citations of citations are not kept.  Whatever the Records given
    to [append] held in the [citations] of their citations, the Paper
    that indexing returns from a store built by [append] has [None] or a
    list of Papers in [citations], and each Paper of that list has [None]
    in [citations]: the citation phase leaves the field out of the INSERT
    and the citation table never holds it. *)
Theorem nested_citations_are_dropped (fuel : nat) (s : SQLPapers)
    (c : conn) (objs : list Paper) (i : nat) :
  built s c objs → failed c = false →
  (i < List.length (rowIds s))%nat →
  ∃ p tr,
    getitem (S (S fuel)) s (Z.of_nat i) c = (Return p, c, tr) ∧
    (p !! "citations" = Some VNone ∨
     ∃ qs, p !! "citations" = Some (VList (VPaper <$> qs)) ∧
           Forall (λ q : Paper, q !! "citations" = Some VNone) qs).
Proof.
  intros Hb Hf Hi. destruct (built_inv _ _ _ Hb) as (rows & Hinv & _).
  destruct (inv_citations _ _ _ Hinv) as (tc & Htc & _ & Hrefs).
  rewrite (inv_rowIds _ _ _ Hinv), length_fmap in Hi.
  destruct (lookup_lt_is_Some_2 rows i Hi) as [r Hr].
  destruct (getitem_row fuel s c rows tc i r Hinv Hf Htc Hr) as [tr Hget].
  exists (paper_of_row tc r), tr. split; [exact Hget|].
  unfold paper_of_row. rewrite decode_citations.
  rewrite Forall_forall in Hrefs.
  destruct (Hrefs r) as [Hn|(zs & Hzs & _)];
    [apply list_elem_of_lookup; eauto|left; rewrite Hn; reflexivity|].
  right. rewrite Hzs.
  destruct (resolved_flat (t_rows tc) (VList (VInt <$> zs)))
    as [[_ Hno]|(qs & Hqs & Hall)]; [destruct (Hno _ eq_refl)|].
  exists qs. rewrite Hqs. auto.
Qed.

(** A store whose first Record cites a Record that has a citation of its
    own. *)
Definition ex_deep : Paper :=
  {[ "doi" := VStr "10.1/c"; "citations" := VList [VPaper ex_cited] ]}.
Definition ex_citing : Paper :=
  {[ "doi" := VStr "10.1/d"; "citations" := VList [VPaper ex_deep] ]}.
Definition ex_nested : SQLPapers * conn :=
  (append ex_citing true ex_fresh).1.2.

Lemma ex_nested_appended : appended ex_nested.1 ex_nested.2 [ex_citing].
Proof.
  eapply (appended_step _ _ [] ex_citing true).
  - eapply (appended_init 7%N (mkConn ∅ false "db")).
    vm_compute. reflexivity.
  - vm_compute. reflexivity.
  - reflexivity.
Qed.

Lemma nested_citations_are_dropped_witness :
  ∃ p tr,
    getitem 2 ex_nested.1 0 ex_nested.2 = (Return p, ex_nested.2, tr) ∧
    (p !! "citations" = Some VNone ∨
     ∃ qs, p !! "citations" = Some (VList (VPaper <$> qs)) ∧
           Forall (λ q : Paper, q !! "citations" = Some VNone) qs).
Proof.
  apply (nested_citations_are_dropped 0 ex_nested.1 ex_nested.2
           [ex_citing] 0).
  - exact (proj1 (appended_built _ _ _ ex_nested_appended)).
  - exact (proj2 (appended_built _ _ _ ex_nested_appended)).
  - vm_compute. reflexivity.
Defined.

(** ** Every citation gets an identifier *)

(** The citation table of a store whose citations are Records: the
    identifiers come from the sequence and are pairwise distinct. *)
Definition citation_table_ok (tb : table) : Prop :=
  Forall (λ r, ∃ z, cell r "id" = VInt z ∧ z ≤ t_serial tb) (t_rows tb) ∧
  pk_ok (t_rows tb).

(** The citation [x] is represented by the identifier [z]: the row with
    this identifier was inserted for [x], or it has the value of [x] in a
    natural key. *)
Definition stored_as (rows : list (list value)) (x : value) (z : Z) : Prop :=
  ∃ X r,
    x = VPaper X ∧ r ∈ rows ∧ cell r "id" = VInt z ∧
    (r = row_of (VInt z) (delete "citations" X) ∨
     ∃ col, col ∈ natural_keys ∧ sql_eq (cell r col) (field X col) = true).

Lemma stored_as_app rows new x z :
  stored_as rows x z → stored_as (rows ++ new) x z.
Proof.
  intros (X & r & Hx & Hr & Hrest). exists X, r. split; [exact Hx|].
  split; [apply elem_of_app; left; exact Hr|exact Hrest].
Qed.

Lemma citation_table_ok_serial tb z :
  citation_table_ok tb → t_serial tb ≤ z →
  citation_table_ok (mkTable (t_rows tb) z).
Proof.
  intros [Hids Hpk] Hle. split; [|exact Hpk]. cbn [t_rows t_serial].
  eapply Forall_impl; [exact Hids|]. intros r (z' & Hz & Hz').
  exists z'. split; [exact Hz|lia].
Qed.

Section record_citations.
Variable u : N.
Variable s : SQLPapers.
Hypothesis s_name : name s = fresh_name u.

Let cname := citations_of (name s).

(** One turn of the citation loop on a Record: it always yields an
    identifier. *)
Lemma append_citation_record X c tb :
  failed c = false → tables c !! cname = Some tb →
  citation_table_ok tb → is_record X = true →
  ∃ z tb' tr new,
    append_citation s (VPaper X) c =
      (Return (Some z),
       mkConn (<[cname := tb']> (tables c)) false (dbname c), tr) ∧
    citation_table_ok tb' ∧
    t_rows tb' = t_rows tb ++ new ∧
    stored_as (t_rows tb') (VPaper X) z.
Proof.
  intros Hf Ht Hok HX. pose proof Hok as [Hids Hpk].
  destruct (citation_vals_ok X HX) as (H1 & H2 & H3).
  set (vals := delete "citations" X) in *.
  set (z := t_serial tb + 1).
  set (rX := row_of (VInt z) vals).
  destruct (first_conflict unique_columns (t_rows tb) rX) as [col|] eqn:Hconf.
  - (* a row with the same natural key is there *)
    destruct (first_conflict_Some _ _ _ _ Hconf) as [Hcol Hex].
    destruct (unique_column_cases col Hcol) as [->|Hnat].
    { rewrite (id_no_conflict tb rX Hids eq_refl) in Hex. discriminate. }
    destruct (natural_key_column col Hnat) as (Hc1 & Hc2 & Hc3).
    apply existsb_exists in Hex as (r' & Hr' & Heq).
    apply list_elem_of_In in Hr'.
    assert (cell rX col = field vals col) as Hcell
      by (unfold rX; rewrite cell_row_of by assumption; reflexivity).
    rewrite Hcell in Heq.
    destruct (head_filter_Some
                (λ r, sql_eq (cell r col) (field vals col) = true)
                (t_rows tb) r' Hr' Heq) as (r0 & Hhead & Hin0 & Hr0).
    rewrite Forall_forall in Hids.
    destruct (Hids r0 Hin0) as (z0 & Hz0 & _).
    eexists z0, (mkTable (t_rows tb) z), _, []. split; [|split; [|split]].
    + apply (append_citation_existing u s X c tb col (field vals col) r0 z0);
        auto.
      apply field_Some. exact (sql_eq_refl_r _ _ Heq).
    + apply citation_table_ok_serial; [exact Hok|lia].
    + cbn [t_rows]. rewrite app_nil_r. reflexivity.
    + exists X, r0. split; [reflexivity|]. split; [exact Hin0|].
      split; [exact Hz0|]. right. exists col. split; [exact Hnat|].
      unfold vals in Hr0. rewrite field_delete in Hr0 by exact Hc3.
      exact Hr0.
  - (* new *)
    eexists z, (mkTable (t_rows tb ++ [rX]) z), _, [rX].
    split; [|split; [|split]].
    + exact (append_citation_new s X c tb Hf Ht HX Hconf).
    + split; cbn [t_rows t_serial].
      * apply Forall_app. split.
        -- eapply Forall_impl; [exact Hids|]. intros r (z' & Hz & Hz').
           exists z'. split; [exact Hz|lia].
        -- repeat constructor. exists z. split; [reflexivity|lia].
      * apply (pk_ok_snoc _ _ z); [exact Hpk|reflexivity|].
        apply first_conflict_id. exact Hconf.
    + reflexivity.
    + exists X, rX. split; [reflexivity|]. cbn [t_rows].
      split; [apply elem_of_app; right; left|].
      split; [reflexivity|]. left. reflexivity.
Qed.

(** The citation loop over a list of Records. *)
Lemma append_citations_records l :
  ∀ acc c tb,
    failed c = false → tables c !! cname = Some tb →
    citation_table_ok tb →
    Forall (λ x, ∃ X, x = VPaper X ∧ is_record X = true) l →
    ∃ ids tb' tr new,
      append_citations s l acc c =
        (Return (acc ++ ids),
         mkConn (<[cname := tb']> (tables c)) false (dbname c), tr) ∧
      citation_table_ok tb' ∧
      t_rows tb' = t_rows tb ++ new ∧
      Forall2 (stored_as (t_rows tb')) l ids.
Proof.
  induction l as [|x l IH]; intros acc c tb Hf Ht Hok Hall.
  - exists [], tb, [], []. cbn [append_citations]. unfold ret.
    rewrite !app_nil_r, <- (conn_canon c cname tb Hf Ht).
    split; [reflexivity|]. split; [exact Hok|]. split; [reflexivity|].
    constructor.
  - apply Forall_cons in Hall as [(X & -> & HX) Hall].
    destruct (append_citation_record X c tb Hf Ht Hok HX)
      as (z & tb1 & tr1 & new1 & Happ & Hok1 & Hrows1 & Hz).
    set (c1 := mkConn (<[cname := tb1]> (tables c)) false (dbname c)) in *.
    destruct (IH (acc ++ [z]) c1 tb1 eq_refl (lookup_insert_eq _ _ _)
                Hok1 Hall)
      as (ids & tb' & tr & new & Hrest & Hok' & Hrows' & Hids).
    exists (z :: ids), tb', (tr1 ++ tr), (new1 ++ new).
    split; [|split; [exact Hok'|split]].
    + cbn [append_citations]. rewrite (bind_return _ _ _ _ _ _ Happ).
      rewrite Hrest. unfold c1. cbn [tables dbname].
      rewrite insert_insert_eq, <- app_assoc. reflexivity.
    + rewrite Hrows', Hrows1, app_assoc. reflexivity.
    + constructor; [|exact Hids]. rewrite Hrows'.
      apply stored_as_app, Hz.
Qed.

End record_citations.

(** The Paper [q] read back for the citation [x]: it has no citations of
    its own, and it has the fields of [x], or it is an earlier Record
    that has the value of [x] in a natural key. *)
Definition reads_back_as (x : value) (q : Paper) : Prop :=
  ∃ X,
    x = VPaper X ∧ q !! "citations" = Some VNone ∧
    ((∀ k, k ∈ paper_fields → k ≠ "citations" → q !! k = Some (field X k)) ∨
     ∃ col, col ∈ natural_keys ∧ sql_eq (field q col) (field X col) = true).

Lemma natural_key_field k : k ∈ natural_keys → k ∈ paper_fields.
Proof.
  intros Hin. unfold natural_keys in Hin.
  repeat (apply elem_of_cons in Hin as [->|Hin];
          [apply (bool_decide_unpack _); reflexivity|]).
  apply elem_of_nil in Hin. destruct Hin.
Qed.

Lemma stored_reads_back rows x z :
  pk_ok rows → stored_as rows x z →
  reads_back_as x (decode (default [] (find_row rows (VInt z))) VNone).
Proof.
  intros Hpk (X & r & -> & Hr & Hid & Hrow).
  apply list_elem_of_lookup in Hr as [i Hi].
  rewrite (find_row_pk rows i r z Hpk Hi Hid). cbn [default from_option].
  exists X. split; [reflexivity|]. split; [apply decode_citations|].
  destruct Hrow as [->|(col & Hcol & Heq)].
  - left. intros k Hk Hne. apply decode_citation_field; assumption.
  - right. exists col. split; [exact Hcol|].
    unfold field at 1.
    rewrite decode_field
      by (apply natural_key_field, Hcol ||
          apply natural_key_not_citations, Hcol).
    exact Heq.
Qed.

Section many_citations.
Variable u : N.
Variable c0 : conn.
Variable obj : Paper.
Variable l : list value.
Hypothesis c0_ready : failed c0 = false.
Hypothesis c0_fresh : tables c0 !! fresh_name u = None.
Hypothesis c0_fresh_cit : tables c0 !! citations_of (fresh_name u) = None.
Hypothesis obj_good : good_record obj = true.
Hypothesis obj_cites : obj !! "citations" = Some (VList l).

Let obj_record : is_record obj = true :=
  typed_record_is_record obj (good_record_typed obj obj_good).
Let l_records : Forall (λ x, ∃ X, x = VPaper X ∧ is_record X = true) l :=
  good_citations_records l (good_record_citations obj l obj_good obj_cites).
Let tname := fresh_name u.
Let cname := citations_of (fresh_name u).

Lemma many_citations_phase :
  ∃ ids tc tr,
    citation_phase (fresh_store u) (VList l) (fresh_conn u c0) =
      (Return (VList (VInt <$> ids)),
       mkConn (<[cname := tc]> (tables (fresh_conn u c0))) false (dbname c0),
       tr) ∧
    citation_table_ok tc ∧
    Forall2 (stored_as (t_rows tc)) l ids.
Proof.
  destruct (append_citations_records u (fresh_store u) eq_refl l []
              (fresh_conn u c0) (mkTable [] 0) eq_refl
              (lookup_insert_eq _ _ _))
    as (ids & tc & tr & new & Happ & Hok & _ & Hids);
    [|exact l_records|].
  { split; [constructor|]. intros i j r r' Hi.
    cbn [t_rows] in Hi. rewrite lookup_nil in Hi. discriminate. }
  exists ids, tc, tr. split; [|split; [exact Hok|exact Hids]].
  cbn [citation_phase py_iter]. rewrite bind_ret_l.
  rewrite (bind_return _ _ _ _ _ _ Happ). unfold ret.
  rewrite app_nil_r. reflexivity.
Qed.

(** X16: every citation is kept.  On a fresh store, a Record whose
    [citations] is a list of Records (of any length, with or without
    repetitions and shared natural keys) is appended; the Record and its
    citations hold values of the types of their columns
    ([good_record]).  The call returns;
    the [citations] cell of the new row holds one identifier per
    citation, in the order of the list, each the identifier of the row
    inserted for that citation or of an earlier row with the same value
    in a natural key; no citation is skipped.  Indexing with 0 returns a
    Paper whose [citations] is a list of as many Papers, each with the
    fields of the citation at its position or with its value in a natural
    key, and each with [None] in [citations]. *)
Theorem every_citation_is_kept (complain : bool) :
  ∃ s0 c1 tr1 s c tr2 ids tp tc p tr3 qs,
    init None u c0 = (Return s0, c1, tr1) ∧
    append obj complain (s0, c1) = (Return tt, (s, c), tr2) ∧
    tables c !! name s = Some tp ∧
    t_rows tp = [row_of (VInt 1) (primary_vals obj (VList (VInt <$> ids)))] ∧
    tables c !! citations_of (name s) = Some tc ∧
    Forall2 (stored_as (t_rows tc)) l ids ∧
    getitem 2 s 0 c = (Return p, c, tr3) ∧
    p !! "citations" = Some (VList (VPaper <$> qs)) ∧
    Forall2 reads_back_as l qs.
Proof.
  destruct many_citations_phase as (ids & tc & tr & Hph & [_ Hpk] & Hids).
  set (c1 := mkConn (<[cname := tc]> (tables (fresh_conn u c0))) false
                    (dbname c0)) in *.
  set (r := row_of (VInt 1) (primary_vals obj (VList (VInt <$> ids)))).
  set (s := mkStore tname (VStr <$> paper_columns) [VInt 1]).
  set (c := mkConn (<[tname := mkTable [r] 1]> (tables c1)) false (dbname c0)).
  assert (append obj complain (fresh_store u, fresh_conn u c0) =
          (Return tt, (s, c),
           tr ++ [Insert tname (primary_vals obj (VList (VInt <$> ids)));
                  Commit])) as Happ.
  { rewrite (append_new obj complain (fresh_store u) (fresh_conn u c0)
               c1 _ _ _ (mkTable [] 0) obj_cites Hph);
      [reflexivity|reflexivity| |exact obj_record|reflexivity].
    cbn [tables c1 fresh_conn name fresh_store].
    rewrite !lookup_insert_ne by apply citations_of_ne.
    apply lookup_insert_eq. }
  assert (tables c !! citations_of tname = Some tc) as Htc.
  { cbn [tables c c1].
    rewrite lookup_insert_ne by (symmetry; apply citations_of_ne).
    apply lookup_insert_eq. }
  assert (appended s c [obj]) as Happd.
  { eapply (appended_step _ _ [] obj complain).
    - eapply appended_init.
      exact (init_fresh u c0 c0_ready c0_fresh c0_fresh_cit).
    - exact Happ.
    - reflexivity. }
  destruct (appended_built _ _ _ Happd) as [Hb Hf].
  destruct (built_inv _ _ _ Hb) as (rows & Hinv & _).
  assert (rows = [r]) as ->.
  { destruct (inv_primary _ _ _ Hinv) as (tp & Htp & <-).
    cbn [name s c tables] in Htp.
    rewrite lookup_insert_eq in Htp. injection Htp as <-. reflexivity. }
  destruct (getitem_row 0 s c [r] tc 0 r Hinv Hf Htc eq_refl) as [tr3 Hget].
  exists (fresh_store u), (fresh_conn u c0). eexists.
  exists s, c. eexists.
  exists ids, (mkTable [r] 1), tc, (paper_of_row tc r), tr3,
    ((λ z, decode (default [] (find_row (t_rows tc) (VInt z))) VNone) <$> ids).
  split; [exact (init_fresh u c0 c0_ready c0_fresh c0_fresh_cit)|].
  split; [exact Happ|].
  split; [apply lookup_insert_eq|]. split; [reflexivity|].
  split; [exact Htc|]. split; [exact Hids|]. split; [exact Hget|].
  split.
  - unfold paper_of_row. rewrite decode_citations. unfold r.
    rewrite cell_primary_citations. cbn [resolved].
    rewrite <- !list_fmap_compose. reflexivity.
  - apply Forall2_fmap_r. eapply Forall2_impl; [exact Hids|].
    intros x z Hxz. exact (stored_reads_back _ x z Hpk Hxz).
Qed.

End many_citations.

Lemma every_citation_is_kept_witness :
  let c0 := mkConn ∅ false "db" in
  let b1 : Paper :=
    {[ "doi" := VStr "10.1/b"; "atitle" := VStr "Cited";
       "citations" := VNone ]} in
  let b2 : Paper :=
    {[ "doi" := VStr "10.1/b"; "atitle" := VStr "Cited, again";
       "citations" := VNone ]} in
  let b3 : Paper := {[ "pmid" := VStr "77"; "citations" := VNone ]} in
  let l := [VPaper b1; VPaper b2; VPaper b3; VPaper b1] in
  let obj : Paper := {[ "doi" := VStr "10.1/a"; "citations" := VList l ]} in
  ∃ s0 c1 tr1 s c tr2 ids tp tc p tr3 qs,
    init None 7%N c0 = (Return s0, c1, tr1) ∧
    append obj true (s0, c1) = (Return tt, (s, c), tr2) ∧
    tables c !! name s = Some tp ∧
    t_rows tp = [row_of (VInt 1) (primary_vals obj (VList (VInt <$> ids)))] ∧
    tables c !! citations_of (name s) = Some tc ∧
    Forall2 (stored_as (t_rows tc)) l ids ∧
    getitem 2 s 0 c = (Return p, c, tr3) ∧
    p !! "citations" = Some (VList (VPaper <$> qs)) ∧
    Forall2 reads_back_as l qs.
Proof.
  intros c0 b1 b2 b3 l obj.
  apply (every_citation_is_kept 7%N c0 obj l); vm_compute; reflexivity.
Defined.

(** ** Records without a natural key *)

Section keyless.
Variable u : N.
Variable c0 : conn.
Variable obj : Paper.
Hypothesis c0_ready : failed c0 = false.
Hypothesis c0_fresh : tables c0 !! fresh_name u = None.
Hypothesis c0_fresh_cit : tables c0 !! citations_of (fresh_name u) = None.
Hypothesis obj_typed : typed_record obj = true.
Hypothesis obj_cites : obj !! "citations" = Some VNone.
Hypothesis obj_keyless : ∀ k, k ∈ natural_keys → field obj k = VNone.

Let obj_record : is_record obj = true :=
  typed_record_is_record obj obj_typed.
Let tname := fresh_name u.
Let r1 := row_of (VInt 1) (primary_vals obj VNone).
Let r2 := row_of (VInt 2) (primary_vals obj VNone).

(** X17: a Record without natural keys is never a duplicate.  The unique
    constraints are on the natural keys, and NULL collides with nothing:
    appending twice, to a fresh store, the same Record whose natural keys
    are all [None], and whose other fields hold values of the types of
    their columns ([typed_record]), stores two rows that differ in the
    identifier only, and the list holds both identifiers. *)
Theorem keyless_record_stored_twice (complain1 complain2 : bool) :
  ∃ s0 c1 tr1 s1 c2 tr2 s2 c3 tr3 tp,
    init None u c0 = (Return s0, c1, tr1) ∧
    append obj complain1 (s0, c1) = (Return tt, (s1, c2), tr2) ∧
    append obj complain2 (s1, c2) = (Return tt, (s2, c3), tr3) ∧
    rowIds s2 = [VInt 1; VInt 2] ∧
    tables c3 !! name s2 = Some tp ∧
    t_rows tp = [row_of (VInt 1) (primary_vals obj VNone);
                 row_of (VInt 2) (primary_vals obj VNone)].
Proof.
  set (s1 := mkStore tname (VStr <$> paper_columns) [VInt 1]).
  set (c2 := mkConn (<[tname := mkTable [r1] 1]> (tables (fresh_conn u c0)))
                    false (dbname c0)).
  assert (append obj complain2 (s1, c2) =
          (Return tt,
           (mkStore tname (VStr <$> paper_columns) [VInt 1; VInt 2],
            mkConn (<[tname := mkTable [r1; r2] 2]> (tables c2)) false
                   (dbname c0)),
           [Insert tname (primary_vals obj VNone); Commit])) as Hsecond.
  { rewrite (append_new obj complain2 s1 c2 c2 _ _ _ (mkTable [r1] 1)
               obj_cites (citation_phase_null _ _));
      [reflexivity|reflexivity|apply lookup_insert_eq|exact obj_record|].
    destruct (primary_vals_ok obj VNone obj_record) as (_ & _ & Hid).
    apply first_conflict_none_1; [discriminate|exact Hid|exact Hid|].
    intros k Hk. pose proof (natural_key_not_citations k Hk).
    rewrite field_primary_vals by assumption.
    rewrite (obj_keyless k Hk). reflexivity. }
  eexists (fresh_store u), (fresh_conn u c0), _, s1, c2, _, _, _, _,
          (mkTable [r1; r2] 2).
  split; [exact (init_fresh u c0 c0_ready c0_fresh c0_fresh_cit)|].
  split; [exact (append_first_plain u c0 obj complain1 obj_record obj_cites)|].
  split; [exact Hsecond|]. split; [reflexivity|].
  split; [apply lookup_insert_eq|reflexivity].
Qed.

End keyless.

Lemma keyless_record_stored_twice_witness :
  let c0 := mkConn ∅ false "db" in
  let obj : Paper :=
    {[ "atitle" := VStr "Untitled"; "citations" := VNone ]} in
  ∃ s0 c1 tr1 s1 c2 tr2 s2 c3 tr3 tp,
    init None 7%N c0 = (Return s0, c1, tr1) ∧
    append obj true (s0, c1) = (Return tt, (s1, c2), tr2) ∧
    append obj true (s1, c2) = (Return tt, (s2, c3), tr3) ∧
    rowIds s2 = [VInt 1; VInt 2] ∧
    tables c3 !! name s2 = Some tp ∧
    t_rows tp = [row_of (VInt 1) (primary_vals obj VNone);
                 row_of (VInt 2) (primary_vals obj VNone)].
Proof.
  intros c0 obj.
  apply (keyless_record_stored_twice 7%N c0 obj);
    try (vm_compute; reflexivity).
  intros k Hk. unfold natural_keys in Hk.
  repeat (apply elem_of_cons in Hk as [->|Hk]; [vm_compute; reflexivity|]).
  apply elem_of_nil in Hk. destruct Hk.
Defined.

(** ** The names of the tables of a fresh store *)

Lemma all_chars_app P a b :
  all_chars P (a +:+ b) = all_chars P a && all_chars P b.
Proof.
  induction a as [|x a IH]; simpl; [reflexivity|].
  rewrite IH, andb_assoc. reflexivity.
Qed.

Lemma all_chars_substring P n m s :
  all_chars P s = true → all_chars P (substring n m s) = true.
Proof.
  revert n m. induction s as [|a s IH]; intros n m H.
  - destruct n, m; reflexivity.
  - simpl in H. apply andb_prop in H as [Ha Hs].
    destruct n as [|n]; [destruct m as [|m]|]; simpl; auto.
    rewrite Ha. apply IH, Hs.
Qed.

Lemma is_ident_hex_digit n : is_ident_char (hex_digit n) = true.
Proof.
  unfold hex_digit. generalize (N.to_nat n) as m. intros m.
  do 16 (destruct m as [|m]; [reflexivity|]). destruct m; reflexivity.
Qed.

Lemma all_chars_hex k u : all_chars is_ident_char (hex k u) = true.
Proof.
  revert u. induction k as [|k IH]; intros u; [reflexivity|].
  cbn [hex]. rewrite all_chars_app, IH. cbn [all_chars andb].
  rewrite is_ident_hex_digit. reflexivity.
Qed.

Lemma replace_char_app a b s1 s2 :
  replace_char a b (s1 +:+ s2) = replace_char a b s1 +:+ replace_char a b s2.
Proof.
  induction s1 as [|x s1 IH]; [reflexivity|].
  change (String x s1 +:+ s2) with (String x (s1 +:+ s2)).
  cbn [replace_char]. rewrite IH. reflexivity.
Qed.

Lemma all_chars_replace P a b s :
  P b = true → all_chars P s = true →
  all_chars P (replace_char a b s) = true.
Proof.
  intros Hb. induction s as [|x s IH]; [reflexivity|]. simpl.
  intros H. apply andb_prop in H as [Hx Hs]. rewrite (IH Hs).
  destruct (Ascii.eqb x a); [rewrite Hb|rewrite Hx]; reflexivity.
Qed.

Lemma length_replace_char a b s :
  String.length (replace_char a b s) = String.length s.
Proof. induction s as [|x s IH]; simpl; congruence. Qed.

Lemma length_hex k u : String.length (hex k u) = k.
Proof.
  revert u. induction k as [|k IH]; intros u; [reflexivity|].
  cbn [hex]. rewrite length_string_app, IH. simpl. lia.
Qed.

Lemma length_substring n m s :
  (n + m ≤ String.length s)%nat → String.length (substring n m s) = m.
Proof.
  revert n m. induction s as [|a s IH]; intros n m H; simpl in H.
  - destruct n, m; simpl; lia.
  - destruct n as [|n]; [destruct m as [|m]|]; simpl; [reflexivity| |].
    + rewrite (IH 0%nat m) by lia. reflexivity.
    + apply IH. lia.
Qed.

(** X18: the names of the tables the constructor creates.  Whatever
    [uuid4] draws, the name of the primary table is [tethne_papers_]
    followed by the 36 characters of the UUID with every hyphen replaced:
    it consists of lower-case letters, digits and underscores only, is 50
    characters long, and differs from the name of the citation table,
    which is 60 characters long. *)
Theorem fresh_name_is_identifier (u : N) :
  all_chars is_ident_char (fresh_name u) = true ∧
  all_chars is_ident_char (citations_of (fresh_name u)) = true ∧
  String.length (fresh_name u) = 50%nat ∧
  String.length (citations_of (fresh_name u)) = 60%nat ∧
  fresh_name u ≠ citations_of (fresh_name u).
Proof.
  assert (all_chars is_ident_char (fresh_name u) = true) as Hchars.
  { unfold fresh_name, uuid_str. rewrite all_chars_app.
    rewrite !replace_char_app, !all_chars_app.
    assert (∀ n m, all_chars is_ident_char
                     (replace_char "-" "_" (substring n m (hex 32 u))) = true)
      as Hpart.
    { intros n m. apply all_chars_replace; [reflexivity|].
      apply all_chars_substring, all_chars_hex. }
    rewrite !Hpart. reflexivity. }
  assert (String.length (fresh_name u) = 50%nat) as Hlen.
  { unfold fresh_name, uuid_str.
    rewrite length_string_app, length_replace_char, !length_string_app.
    rewrite !length_substring by (rewrite length_hex; lia). reflexivity. }
  split; [exact Hchars|]. split; [|split; [exact Hlen|split]].
  - unfold citations_of. rewrite all_chars_app, Hchars. reflexivity.
  - unfold citations_of. rewrite length_string_app, Hlen. reflexivity.
  - intros Heq. exact (citations_of_ne _ (eq_sym Heq)).
Qed.

(** ** The fields of a Paper that was read *)

(** X19: the identifier of the row never reaches the Paper.  The Paper
    that indexing returns from a store built by [append] has exactly the
    fields of the Paper class: the assignment of the [id] column is
    refused and silently skipped, every other column is assigned. *)
Theorem getitem_paper_fields (fuel : nat) (s : SQLPapers) (c : conn)
    (objs : list Paper) (i : nat) :
  built s c objs → failed c = false →
  (i < List.length (rowIds s))%nat →
  ∃ p tr,
    getitem (S (S fuel)) s (Z.of_nat i) c = (Return p, c, tr) ∧
    p !! "id" = None ∧
    ∀ k, is_Some (p !! k) ↔ k ∈ paper_fields.
Proof.
  intros Hb Hf Hi. destruct (built_inv _ _ _ Hb) as (rows & Hinv & _).
  destruct (inv_citations _ _ _ Hinv) as (tc & Htc & _).
  rewrite (inv_rowIds _ _ _ Hinv), length_fmap in Hi.
  destruct (lookup_lt_is_Some_2 rows i Hi) as [r Hr].
  destruct (getitem_row fuel s c rows tc i r Hinv Hf Htc Hr) as [tr Hget].
  exists (paper_of_row tc r), tr. split; [exact Hget|].
  unfold paper_of_row. split.
  - rewrite decode_lookup. reflexivity.
  - intros k. rewrite decode_lookup.
    destruct (decide (k ∈ paper_fields)) as [Hk|Hk].
    + split; [intros _; exact Hk|eauto].
    + split; [intros [v Hv]; discriminate|contradiction].
Qed.

Lemma getitem_paper_fields_witness :
  ∃ p tr,
    getitem 2 ex_world.1 1 ex_world.2 = (Return p, ex_world.2, tr) ∧
    p !! "id" = None ∧
    ∀ k, is_Some (p !! k) ↔ k ∈ paper_fields.
Proof.
  apply (getitem_paper_fields 0 ex_world.1 ex_world.2
           [ex_first; ex_second] 1).
  - exact (proj1 (appended_built _ _ _ ex_appended)).
  - exact (proj2 (appended_built _ _ _ ex_appended)).
  - vm_compute. lia.
Defined.

(** ** The error of a missing Record *)

(** [never_key_error m]: [m] does not end in [KeyError]. *)
Definition never_key_error {A} (m : Db A) : Prop :=
  ∀ c o c' tr msg, m c = (o, c', tr) → o ≠ Raise (KeyError msg).

Lemma nke_ret {A} (a : A) : never_key_error (ret a).
Proof. intros c o c' tr msg [= <- <- <-]. discriminate. Qed.

Lemma nke_raise {A} e :
  (∀ msg, e ≠ KeyError msg) → never_key_error (A := A) (raise e).
Proof. intros He c o c' tr msg [= <- <- <-] [= H]. exact (He msg H). Qed.

Lemma nke_bind {A B} (m : Db A) (k : A → Db B) :
  never_key_error m → (∀ a, never_key_error (k a)) →
  never_key_error (bind m k).
Proof.
  intros Hm Hk c o c' tr msg. unfold bind.
  destruct (m c) as [[[a|e|] c1] tr1] eqn:H1.
  - destruct (k a c1) as [[o2 c2] tr2] eqn:H2.
    intros [= <- <- <-]. exact (Hk a _ _ _ _ msg H2).
  - intros [= <- <- <-] [= ->]. exact (Hm _ _ _ _ msg H1 eq_refl).
  - intros [= <- <- <-]. discriminate.
Qed.

Lemma run_never_key_error s c o c' msg :
  run s c = (o, c') → o ≠ Raise (KeyError msg).
Proof.
  unfold run, run_insert, insert_id, fail_stmt.
  destruct s; repeat case_match; intros [= <- <-]; try discriminate;
    simplify_eq; discriminate.
Qed.

Lemma nke_execute s : never_key_error (execute s).
Proof.
  intros c o c' tr msg. unfold execute.
  destruct (run s c) as [o1 c1] eqn:Hrun. intros [= <- <- <-].
  exact (run_never_key_error _ _ _ _ msg Hrun).
Qed.

Lemma nke_mapM {A B} (f : A → Db B) (l : list A) :
  (∀ x, never_key_error (f x)) → never_key_error (mapM f l).
Proof.
  intros Hf. induction l as [|x l IH]; cbn [mapM]; [apply nke_ret|].
  apply nke_bind; [apply Hf|]. intros y.
  apply nke_bind; [apply IH|]. intros ys. apply nke_ret.
Qed.

Lemma nke_cursor_rows cur : never_key_error (cursor_rows cur).
Proof. destruct cur; [apply nke_ret|apply nke_raise; discriminate]. Qed.

Lemma nke_subscript x i : never_key_error (subscript x i).
Proof.
  destruct x as [r|]; [|apply nke_raise; discriminate]. simpl.
  destruct (r !! i); [apply nke_ret|apply nke_raise; discriminate].
Qed.

Lemma nke_init t u : never_key_error (init (Some t) u).
Proof.
  unfold init. apply nke_bind.
  - apply nke_bind; [apply nke_execute|]. intros cur.
    apply nke_bind; [apply nke_cursor_rows|]. intros rows.
    apply nke_bind; [|intros; apply nke_ret].
    apply nke_mapM. intros. apply nke_subscript.
  - intros this.
    apply nke_bind; [apply nke_execute|]. intros cur.
    apply nke_bind; [apply nke_cursor_rows|]. intros rows.
    apply nke_bind; [|intros; apply nke_ret].
    apply nke_mapM. intros. apply nke_subscript.
Qed.

Lemma nke_yield_paper resolve self data :
  (∀ s id, never_key_error (resolve s id)) →
  never_key_error (yield_paper resolve self data).
Proof.
  intros Hres. destruct data as [data|]; [|apply nke_raise; discriminate].
  cbn [yield_paper]. generalize (∅ : Paper) as paper. generalize 0%nat as i.
  induction data as [|v data IH]; intros i paper; cbn [yield_fields].
  - apply nke_ret.
  - destruct (cols self !! i) as [key|]; [|apply nke_raise; discriminate].
    apply nke_bind; [|intros; apply IH].
    unfold yield_field. apply nke_bind; [|intros; apply nke_ret].
    destruct (is_citations key v); [|apply nke_ret].
    apply nke_bind; [apply nke_init|]. intros citations.
    apply nke_bind.
    { destruct v; first [apply nke_ret|apply nke_raise; discriminate]. }
    intros ks. apply nke_bind; [|intros; apply nke_ret].
    apply nke_mapM. intros. apply Hres.
Qed.

(** The cursor of a SELECT that was executed has a result set. *)
Lemma run_select_by_id_cursor t id c cur c' :
  run (SelectById t id) c = (Return cur, c') → ∃ rows, cur = Some rows.
Proof.
  unfold run, fail_stmt. repeat case_match; intros [= <- <-]; eauto.
Qed.

Lemma nke_get_by_id fuel self id : never_key_error (get_by_id fuel self id).
Proof.
  revert self id. induction fuel as [|fuel IH]; intros self id.
  - intros c o c' tr msg [= <- <- <-]. discriminate.
  - cbn [get_by_id]. intros c o c' tr msg. unfold bind at 1.
    unfold execute.
    destruct (run (SelectById (name self) id) c) as [[cur|e|] c1] eqn:Hrun.
    + destruct (run_select_by_id_cursor _ _ _ _ _ Hrun) as [rows ->].
      rewrite (bind_return_nil _ _ _ _ _ (fetchone_head rows c1)).
      destruct (yield_paper (get_by_id fuel) self (head rows) c1)
        as [[o2 c2] tr2] eqn:Hy.
      intros [= <- <- <-].
      exact (nke_yield_paper _ _ _ IH _ _ _ _ msg Hy).
    + intros [= <- <- <-] [= ->].
      exact (run_never_key_error _ _ _ _ msg Hrun eq_refl).
    + intros [= <- <- <-]. discriminate.
Qed.

(** X20: [__get_by_id] never raises its [KeyError].  A SELECT that was
    executed always has a result set, so [fetchone] does not raise
    [ProgrammingError] and the handler that raises
    [KeyError('No Paper with that ID exists.')] is never entered:
    whatever the identifier, the list and the state of the connection,
    neither [__get_by_id] nor [__getitem__] ends in a [KeyError]. *)
Theorem get_by_id_never_raises_KeyError (fuel : nat) (self : SQLPapers)
    (c : conn) (msg : string) :
  (∀ id, (get_by_id fuel self id c).1.1 ≠ Raise (KeyError msg)) ∧
  (∀ key, (getitem fuel self key c).1.1 ≠ Raise (KeyError msg)).
Proof.
  split.
  - intros id.
    destruct (get_by_id fuel self id c) as [[o c'] tr] eqn:H.
    exact (nke_get_by_id fuel self id _ _ _ _ msg H).
  - intros key.
    destruct (getitem fuel self key c) as [[o c'] tr] eqn:H.
    assert (never_key_error (getitem fuel self key)) as Hnke.
    { unfold getitem. apply nke_bind; [|intros; apply nke_get_by_id].
      unfold list_getitem.
      destruct (_ && _); [|apply nke_raise; discriminate].
      destruct (rowIds self !! _);
        [apply nke_ret|apply nke_raise; discriminate]. }
    exact (Hnke _ _ _ _ msg H).
Qed.

(** * Records of a store and their citations *)

(** ** How [append] composes its two phases *)

Lemma run_insert_other t vals c o c' t' :
  run (Insert t vals) c = (o, c') → t' ≠ t →
  tables c' !! t' = tables c !! t'.
Proof.
  intros Hrun Hne. unfold run in Hrun.
  destruct (failed c); [injection Hrun as <- <-; reflexivity|].
  unfold run_insert in Hrun.
  destruct (tables c !! t) as [tb|];
    [|injection Hrun as <- <-; reflexivity].
  destruct (bool_decide (vals = ∅));
    [injection Hrun as <- <-; reflexivity|].
  destruct (undefined_column vals);
    [injection Hrun as <- <-; reflexivity|].
  destruct (insert_id tb vals) as [[idv|e|] serial];
    [|injection Hrun as <- <-; reflexivity..].
  destruct (first_conflict _ _ _); injection Hrun as <- <-;
    cbn [tables set_table fail_stmt]; apply lookup_insert_ne; congruence.
Qed.

(** One call of [append] on a Record that has [citations]: the citation
    phase runs first; then the list and the rows of the primary table are
    as they were, or the INSERT of the primary row was accepted, with the
    value of the citation phase in its [citations] cell, and committed.
    The citation table is as the citation phase left it. *)
Lemma append_frame obj complain s c o s' c' tr citv :
  append obj complain (s, c) = (o, (s', c'), tr) →
  obj !! "citations" = Some citv →
  ∃ o1 c1 tr1 tr2,
    citation_phase s citv c = (o1, c1, tr1) ∧ tr = tr1 ++ tr2 ∧
    tables c' !! citations_of (name s) = tables c1 !! citations_of (name s) ∧
    ((s' = s ∧
      t_rows <$> (tables c' !! name s) = t_rows <$> (tables c1 !! name s)) ∨
     (∃ cit z tb serial,
        o1 = Return cit ∧ o = Return tt ∧ failed c' = false ∧
        tables c1 !! name s = Some tb ∧
        tables c' !! name s =
          Some (mkTable
                  (t_rows tb ++ [row_of (VInt z) (primary_vals obj cit)])
                  serial) ∧
        s' = mkStore (name s) (cols s) (rowIds s ++ [VInt z]))).
Proof.
  intros Hrun Hcit. unfold_append_in Hrun. rewrite Hcit in Hrun.
  simpl in Hrun.
  destruct (citation_phase s citv c) as [[o1 c1] tr1] eqn:Hph.
  exists o1, c1, tr1.
  destruct o1 as [cit|e|]; simpl in Hrun.
  2,3: injection Hrun as <- <- <- <-; exists []; rewrite app_nil_r;
       split; [reflexivity|]; split; [reflexivity|]; split; [reflexivity|];
       left; split; reflexivity.
  destruct (run (Insert (name s) (primary_vals obj cit)) c1)
    as [o2 c2] eqn:Hins.
  pose proof (run_insert_other _ _ _ _ _ (citations_of (name s)) Hins
                (citations_of_ne _)) as Hother.
  destruct (run_insert_cases _ _ _ _ _ Hins) as [[cur ->]|[Hnr Hsame]].
  - destruct (run_insert_return _ _ _ _ _ Hins)
      as (tb & z & serial & Hf & Ht & Hid & Hconf & -> & ->).
    simpl in Hrun. injection Hrun as <- <- <- <-.
    eexists. split; [reflexivity|]. split; [reflexivity|].
    split; [exact Hother|]. right. exists cit, z, tb, serial.
    split; [reflexivity|]. split; [reflexivity|]. split; [reflexivity|].
    split; [exact Ht|]. split; [|reflexivity].
    cbn [tables set_table]. apply lookup_insert_eq.
  - specialize (Hsame (name s)).
    destruct o2 as [cur|e|]; [destruct (Hnr cur eq_refl)| |];
      simpl in Hrun.
    + destruct e; simpl in Hrun;
        try (injection Hrun as <- <- <- <-; eexists;
             split; [reflexivity|]; split; [reflexivity|];
             split; [exact Hother|]; left; split; [reflexivity|exact Hsame]).
      destruct complain; simpl in Hrun; injection Hrun as <- <- <- <-;
        eexists; (split; [reflexivity|]); (split; [reflexivity|]);
        (split; [exact Hother|]); left; (split; [reflexivity|exact Hsame]).
    + injection Hrun as <- <- <- <-. eexists.
      split; [reflexivity|]. split; [reflexivity|].
      split; [exact Hother|]. left. split; [reflexivity|exact Hsame].
Qed.

(** ** The citations of the Records of a store *)

(** The citation phase on the [citations] of a good Record: it returns,
    with [None] for [None] and otherwise with one identifier for each
    citation, in the order of the list; no table but the citation table
    changes, and that one by new rows at its end. *)
Lemma citation_phase_good u s c tc obj citv :
  name s = fresh_name u → failed c = false →
  tables c !! citations_of (name s) = Some tc →
  citation_table_ok tc →
  good_record obj = true → obj !! "citations" = Some citv →
  ∃ cit c1 tr1 tc1 new,
    citation_phase s citv c = (Return cit, c1, tr1) ∧
    failed c1 = false ∧
    tables c1 !! name s = tables c !! name s ∧
    tables c1 !! citations_of (name s) = Some tc1 ∧
    citation_table_ok tc1 ∧
    t_rows tc1 = t_rows tc ++ new ∧
    match citv with
    | VList l =>
        ∃ ids, cit = VList (VInt <$> ids) ∧
               Forall2 (stored_as (t_rows tc1)) l ids
    | _ => cit = VNone
    end.
Proof.
  intros Hname Hf Htc Hok Hgood Hcit.
  destruct (good_record_cases obj Hgood) as [Hnone|(l & Hl & Hall)].
  - assert (citv = VNone) as -> by congruence.
    exists VNone, c, [], tc, []. rewrite app_nil_r.
    repeat (split; [reflexivity || assumption|]). reflexivity.
  - assert (citv = VList l) as -> by congruence.
    destruct (append_citations_records u s Hname l [] c tc Hf Htc Hok
                (good_citations_records l Hall))
      as (ids & tc1 & tr1 & new & Happ & Hok1 & Hrows & Hids).
    exists (VList (VInt <$> ids)),
      (mkConn (<[citations_of (name s) := tc1]> (tables c)) false (dbname c)),
      tr1, tc1, new.
    split.
    { cbn [citation_phase py_iter]. rewrite bind_ret_l.
      rewrite (bind_return _ _ _ _ _ _ Happ). unfold ret.
      rewrite app_nil_r. reflexivity. }
    split; [reflexivity|]. cbn [tables].
    split; [apply lookup_insert_ne, citations_of_ne|].
    split; [apply lookup_insert_eq|]. split; [exact Hok1|].
    split; [exact Hrows|]. exists ids. split; [reflexivity|exact Hids].
Qed.

(** The row of a Record with respect to the rows of the citation table:
    its [citations] cell is NULL where the Record had [None], and holds an
    identifier for each citation of the Record otherwise. *)
Definition row_cites (rows_c : list (list value)) (obj : Paper)
    (r : list value) : Prop :=
  ∃ z cit,
    r = row_of (VInt z) (primary_vals obj cit) ∧
    match obj !! "citations" with
    | Some (VList l) =>
        ∃ ids, cit = VList (VInt <$> ids) ∧ Forall2 (stored_as rows_c) l ids
    | _ => cit = VNone
    end.

Lemma row_cites_app rows_c new obj r :
  row_cites rows_c obj r → row_cites (rows_c ++ new) obj r.
Proof.
  intros (z & cit & Hr & Hc). exists z, cit. split; [exact Hr|].
  destruct (obj !! "citations") as [[| | |l|]|]; try exact Hc.
  destruct Hc as (ids & Hcit & Hids). exists ids. split; [exact Hcit|].
  eapply Forall2_impl; [exact Hids|]. intros x y. apply stored_as_app.
Qed.

(** A store built by appending good Records: every row of the primary
    table is the row of its Record with respect to the citation table. *)
Lemma appended_good s c objs :
  appended s c objs →
  Forall (λ obj, good_record obj = true) objs →
  ∃ u rows tc,
    name s = fresh_name u ∧ failed c = false ∧
    store_inv s c rows ∧
    tables c !! citations_of (name s) = Some tc ∧
    citation_table_ok tc ∧
    Forall2 (row_cites (t_rows tc)) objs rows.
Proof.
  induction 1 as [u c0 s c tr Hinit
                 |s c objs obj complain s' c' tr id _ IH Happ Hids];
    intros Hgood.
  - destruct (init_fresh_inv _ _ _ _ _ Hinit) as (-> & -> & _).
    exists u, [], (mkTable [] 0).
    split; [reflexivity|]. split; [reflexivity|].
    split; [apply store_inv_fresh|].
    split; [apply lookup_insert_eq|].
    split; [|constructor].
    split; [constructor|]. intros i j r r' Hi.
    cbn [t_rows] in Hi. rewrite lookup_nil in Hi. discriminate.
  - apply Forall_app in Hgood as [Hgood Hobj].
    apply Forall_cons in Hobj as [Hobj _].
    destruct (IH Hgood) as (u & rows & tc & Hname & Hf & Hinv & Htc & Hok & Hrows).
    assert (∃ citv, obj !! "citations" = Some citv) as [citv Hcit].
    { destruct (good_record_cases obj Hobj) as [H|(l & H & _)]; eauto. }
    destruct (citation_phase_good u s c tc obj citv Hname Hf Htc Hok Hobj Hcit)
      as (cit & c1 & tr1 & tc1 & new & Hph & Hf1 & Hp1 & Htc1 & Hok1 & Hnew
          & Hrel).
    destruct (append_frame _ _ _ _ _ _ _ _ _ Happ Hcit)
      as (o1 & c1' & tr1' & tr2 & Hph' & _ & Hcit' & Hcases).
    rewrite Hph in Hph'. injection Hph' as <- <- <-.
    destruct Hcases as [[-> _]|(cit' & z & tb & serial & [= <-] & _ & Hf' &
                                Htb & Htp' & ->)].
    { exfalso. apply (f_equal List.length) in Hids.
      rewrite length_app in Hids. simpl in Hids. lia. }
    destruct (append_step _ _ _ _ _ _ _ _ _ Hinv Happ)
      as [[Heq _]|(z' & citv' & cit' & _ & _ & _ & _ & _ & Hs' & Hinv')].
    { exfalso. apply (f_equal rowIds) in Heq. cbn [rowIds] in Heq.
      apply (f_equal List.length) in Heq.
      rewrite length_app in Heq. simpl in Heq. lia. }
    destruct (inv_primary _ _ _ Hinv) as (tp & Htp & Hrows_tp).
    assert (tb = tp) as -> by congruence.
    assert (rows ++ [row_of (VInt z') (primary_vals obj cit')] =
            rows ++ [row_of (VInt z) (primary_vals obj cit)]) as Heq.
    { destruct (inv_primary _ _ _ Hinv') as (tp' & Htp'' & Hrows').
      cbn [name] in Htp''.
      rewrite Htp' in Htp''. injection Htp'' as <-.
      cbn [t_rows] in Hrows'. rewrite <- Hrows', Hrows_tp. reflexivity. }
    rewrite Heq in Hinv'.
    exists u, (rows ++ [row_of (VInt z) (primary_vals obj cit)]), tc1.
    cbn [name]. split; [exact Hname|]. split; [exact Hf'|].
    split; [exact Hinv'|]. split; [rewrite Hcit'; exact Htc1|].
    split; [exact Hok1|].
    apply Forall2_app.
    + rewrite Hnew. eapply Forall2_impl; [exact Hrows|].
      intros x y. apply row_cites_app.
    + constructor; [|constructor]. exists z, cit. split; [reflexivity|].
      rewrite Hcit. destruct citv as [| | |l|]; exact Hrel.
Qed.

(** The Paper read from the row of a Record with respect to the citation
    table: it has the fields of the Record; its [citations] is [None]
    where the Record had [None], and otherwise a list with one Paper for
    each citation of the Record, in the order of the list. *)
Lemma paper_of_row_cites tc obj r :
  pk_ok (t_rows tc) → good_record obj = true →
  row_cites (t_rows tc) obj r →
  (∀ k, k ∈ paper_fields → k ≠ "citations" →
        paper_of_row tc r !! k = Some (field obj k)) ∧
  match obj !! "citations" with
  | Some (VList l) =>
      ∃ qs, paper_of_row tc r !! "citations" = Some (VList (VPaper <$> qs)) ∧
            Forall2 reads_back_as l qs
  | _ => paper_of_row tc r !! "citations" = Some VNone
  end.
Proof.
  intros Hpk Hgood (z & cit & -> & Hc). unfold paper_of_row. split.
  - intros k Hk Hne. rewrite decode_field by assumption.
    rewrite cell_row_of.
    + fold (field (primary_vals obj cit) k).
      apply f_equal, field_primary_vals. exact Hne.
    + apply paper_fields_columns, Hk.
    + intros ->. apply paper_fields_columns in Hk. destruct Hk as [_ Hk].
      contradiction.
  - rewrite decode_citations, cell_primary_citations.
    destruct (good_record_cases obj Hgood) as [Hnone|(l & Hl & _)].
    + rewrite Hnone in *. subst cit. reflexivity.
    + rewrite Hl in *. destruct Hc as (ids & -> & Hids).
      exists ((λ z, decode (default [] (find_row (t_rows tc) (VInt z))) VNone)
                <$> ids).
      split.
      * cbn [resolved]. rewrite <- !list_fmap_compose. reflexivity.
      * apply Forall2_fmap_r. eapply Forall2_impl; [exact Hids|].
        intros x y Hxy. exact (stored_reads_back _ x y Hpk Hxy).
Qed.

(** ** Indexing a store of good Records *)



(** X9: the Record just appended is the last item.  After a call of
    [append] that added to the list of a store built by successful
    appends of good Records on a fresh store, indexing with [-1] returns,
    without changing the connection, a Paper with the fields of the Record
    just appended; its [citations] is [None] where the Record had [None],
    and otherwise a list with exactly one Paper for each citation of the
    Record, in the order of the Record, each with [None] in [citations]
    and with the fields of the citation at its position or with its value
    in a natural key.  Every key in [-n, 0), [n] being the new length,
    reads what the key [key + n] reads. *)
Theorem append_then_last (fuel : nat) (s s' : SQLPapers) (c c' : conn)
    (objs : list Paper) (obj : Paper) (complain : bool) (tr : list stmt)
    (id : value) :
  appended s c objs →
  Forall (λ obj, good_record obj = true) (objs ++ [obj]) →
  append obj complain (s, c) = (Return tt, (s', c'), tr) →
  rowIds s' = rowIds s ++ [id] →
  (∃ p tr',
     getitem (S (S fuel)) s' (-1) c' = (Return p, c', tr') ∧
     (∀ k, k ∈ paper_fields → k ≠ "citations" →
           p !! k = Some (field obj k)) ∧
     match obj !! "citations" with
     | Some (VList l) =>
         ∃ qs, p !! "citations" = Some (VList (VPaper <$> qs)) ∧
               Forall2 reads_back_as l qs
     | _ => p !! "citations" = Some VNone
     end) ∧
  (∀ fuel' key,
     - (Z.of_nat (List.length objs) + 1) ≤ key < 0 →
     getitem fuel' s' key c' =
       getitem fuel' s' (key + (Z.of_nat (List.length objs) + 1)) c').
Proof.
  intros Happ Hgood Hrun Hids.
  assert (appended s' c' (objs ++ [obj])) as Happ'
    by (eapply appended_step; eassumption).
  destruct (appended_good _ _ _ Happ' Hgood)
    as (u & rows & tc & _ & Hf & Hinv & Htc & [_ Hpk] & Hrows).
  assert (Z.of_nat (List.length (rowIds s')) =
          Z.of_nat (List.length objs) + 1) as Hlen.
  { rewrite (inv_rowIds _ _ _ Hinv), length_fmap.
    rewrite <- (Forall2_length _ _ _ Hrows), length_app. simpl. lia. }
  assert (∀ fuel' key,
            - (Z.of_nat (List.length objs) + 1) ≤ key < 0 →
            getitem fuel' s' key c' =
              getitem fuel' s' (key + (Z.of_nat (List.length objs) + 1)) c')
    as Hneg.
  { intros fuel' key Hkey. unfold getitem, bind.
    rewrite list_getitem_neg by (rewrite Hlen; exact Hkey).
    rewrite Hlen. reflexivity. }
  split; [|exact Hneg].
  assert ((objs ++ [obj]) !! List.length objs = Some obj) as Hobj
    by (rewrite lookup_app_r, Nat.sub_diag by lia; reflexivity).
  destruct (Forall2_lookup_l _ _ _ _ _ Hrows Hobj) as (r & Hr & Hfor).
  destruct (getitem_row fuel s' c' rows tc _ r Hinv Hf Htc Hr) as [tr' Hget].
  exists (paper_of_row tc r), tr'. split.
  - rewrite (Hneg _ (-1)) by lia.
    replace (-1 + (Z.of_nat (List.length objs) + 1))
      with (Z.of_nat (List.length objs)) by lia.
    exact Hget.
  - apply paper_of_row_cites; [exact Hpk| |exact Hfor].
    apply Forall_app in Hgood as [_ Hgood].
    apply Forall_cons in Hgood as [Hgood _]. exact Hgood.
Qed.

Lemma append_then_last_witness :
  (∃ p tr',
     getitem 2 ex_mid.1 (-1) ex_mid.2 = (Return p, ex_mid.2, tr') ∧
     (∀ k, k ∈ paper_fields → k ≠ "citations" →
           p !! k = Some (field ex_first k)) ∧
     ∃ qs, p !! "citations" = Some (VList (VPaper <$> qs)) ∧
           Forall2 reads_back_as [VPaper ex_cited] qs) ∧
  (∀ fuel' key,
     - (Z.of_nat (List.length (@nil Paper)) + 1) ≤ key < 0 →
     getitem fuel' ex_mid.1 key ex_mid.2 =
       getitem fuel' ex_mid.1
         (key + (Z.of_nat (List.length (@nil Paper)) + 1)) ex_mid.2).
Proof.
  apply (append_then_last 0 ex_fresh.1 ex_mid.1 ex_fresh.2 ex_mid.2
           [] ex_first true (append ex_first true ex_fresh).2 (VInt 1)).
  - apply (appended_init 7%N (mkConn ∅ false "db") _ _
             (init None 7%N (mkConn ∅ false "db")).2).
    vm_compute. reflexivity.
  - repeat (constructor; [vm_compute; reflexivity|]). constructor.
  - vm_compute. reflexivity.
  - vm_compute. reflexivity.
Defined.

(** ** A citation shared by Records of a store *)

(** The Record [obj] cites [pb]. *)
Definition cites (pb obj : Paper) : Prop :=
  ∃ l, obj !! "citations" = Some (VList l) ∧ VPaper pb ∈ l.

(** A Record given to a store in which [pb] is cited: a good Record, every
    citation of which is [pb] itself or shares no natural key with
    [pb]. *)
Definition cites_only (pb obj : Paper) : Prop :=
  good_record obj = true ∧
  ∀ l, obj !! "citations" = Some (VList l) → Forall (cites_ok pb) l.

(** [history s c added refused]: [s] and [c] result from a fresh store by
    calls of [append].  [added] holds, in their order, the Records of the
    calls that added to the list, each with the statements its call sent;
    [refused] holds the Records of the other calls, whatever their
    outcome was. *)
Inductive history :
    SQLPapers → conn → list (Paper * list stmt) → list Paper → Prop :=
| history_init u c0 s c tr :
    init None u c0 = (Return s, c, tr) →
    history s c [] []
| history_added s c added refused obj complain s' c' tr id :
    history s c added refused →
    append obj complain (s, c) = (Return tt, (s', c'), tr) →
    rowIds s' = rowIds s ++ [id] →
    history s' c' (added ++ [(obj, tr)]) refused
| history_refused s c added refused obj complain o s' c' tr :
    history s c added refused →
    append obj complain (s, c) = (o, (s', c'), tr) →
    rowIds s' = rowIds s →
    history s' c' added (refused ++ [obj]).

Lemma history_built s c added refused :
  history s c added refused → built s c added.*1.
Proof.
  induction 1 as [u c0 s c tr Hinit
                 |s c added refused obj complain s' c' tr id _ IH Happ Hids
                 |s c added refused obj complain o s' c' tr _ IH Happ Hids].
  - exact (built_init _ _ _ _ _ Hinit).
  - rewrite fmap_app. exact (built_append _ _ _ _ _ _ _ _ _ IH Happ Hids).
  - exact (built_other _ _ _ _ _ _ _ _ _ IH Happ Hids).
Qed.

(** Every call of [append] continues a history: whatever the Record, the
    call ends, and it has added to the list or left the list as it
    was. *)
Lemma history_next s c added refused obj complain :
  history s c added refused →
  ∃ o s' c' tr,
    append obj complain (s, c) = (o, (s', c'), tr) ∧
    (history s' c' added (refused ++ [obj]) ∨
     (o = Return tt ∧ history s' c' (added ++ [(obj, tr)]) refused)).
Proof.
  intros Hhist.
  destruct (append obj complain (s, c)) as [[o [s' c']] tr] eqn:Happ.
  exists o, s', c', tr. split; [reflexivity|].
  destruct (built_inv _ _ _ (history_built _ _ _ _ Hhist))
    as (rows & Hinv & _).
  destruct (append_step _ _ _ _ _ _ _ _ _ Hinv Happ)
    as [[-> _]|(z & citv & cit & -> & _ & _ & _ & _ & -> & _)].
  - left. exact (history_refused _ _ _ _ _ _ _ _ _ _ Hhist Happ eq_refl).
  - right. split; [reflexivity|].
    exact (history_added _ _ _ _ _ _ _ _ _ (VInt z) Hhist Happ eq_refl).
Qed.

(** The row of a Record that was added, with respect to the identifier
    [owner] of the row of [pb]: where the Record cites [pb], its
    [citations] cell holds that identifier. *)
Definition row_shares (pb : Paper) (owner : option Z)
    (e : Paper * list stmt) (r : list value) : Prop :=
  ∃ zr cit,
    r = row_of (VInt zr) (primary_vals e.1 cit) ∧
    (cites pb e.1 →
       ∃ z ids, owner = Some z ∧ cit = VList (VInt <$> ids) ∧ z ∈ ids).

Lemma row_shares_keep pb owner owner' e r :
  (∀ z, owner = Some z → owner' = Some z) →
  row_shares pb owner e r → row_shares pb owner' e r.
Proof.
  intros Hkeep (zr & cit & Hr & Hc). exists zr, cit. split; [exact Hr|].
  intros Hcites. destruct (Hc Hcites) as (z & ids & Ho & Hcit & Hz).
  exists z, ids. auto.
Qed.

Section shared_citation.
Variable pb : Paper.
Hypothesis pb_typed : typed_record pb = true.
Hypothesis pb_has_key :
  ∃ k, k ∈ natural_keys ∧ sql_eq (field pb k) (field pb k) = true.

Let pb_record : is_record pb = true := typed_record_is_record pb pb_typed.

(** The citation phase in a store in which [pb] has at most one row. *)
Lemma citation_phase_shared u s c tc owner obj citv :
  name s = fresh_name u → failed c = false →
  tables c !! citations_of (name s) = Some tc →
  dedup_inv pb owner tc →
  cites_only pb obj → obj !! "citations" = Some citv →
  ∃ cit c1 tr1 tc1 owner',
    citation_phase s citv c = (Return cit, c1, tr1) ∧
    tables c1 !! name s = tables c !! name s ∧
    tables c1 !! citations_of (name s) = Some tc1 ∧
    dedup_inv pb owner' tc1 ∧
    (∀ z, owner = Some z → owner' = Some z) ∧
    (cites pb obj →
       ∃ z ids, owner' = Some z ∧ cit = VList (VInt <$> ids) ∧ z ∈ ids ∧
                (is_Some owner →
                   looked_up (citations_of (name s)) pb tr1)).
Proof.
  intros Hname Hf Htc Hinv [Hgood Hall] Hcit.
  destruct (good_record_cases obj Hgood) as [Hnone|(l & Hl & _)].
  - assert (citv = VNone) as -> by congruence.
    exists VNone, c, [], tc, owner.
    split; [reflexivity|]. split; [reflexivity|]. split; [exact Htc|].
    split; [exact Hinv|]. split; [auto|].
    intros (l & Hl & _). congruence.
  - assert (citv = VList l) as -> by congruence.
    destruct (citation_phase_dedup u pb pb_record pb_has_key s Hname l c tc
                owner Hf Htc Hinv (Hall l Hl))
      as (ids & tc1 & tr1 & owner' & Hph & Hinv1 & Hkeep & Hin).
    exists (VList (VInt <$> ids)),
      (mkConn (<[citations_of (name s) := tc1]> (tables c)) false (dbname c)),
      tr1, tc1, owner'.
    split; [exact Hph|]. cbn [tables].
    split; [apply lookup_insert_ne, citations_of_ne|].
    split; [apply lookup_insert_eq|]. split; [exact Hinv1|].
    split; [exact Hkeep|].
    intros (l' & Hl' & Hpb). assert (l' = l) as -> by congruence.
    destruct (Hin Hpb) as (z & Ho & Hz & Hlook).
    exists z, ids. split; [exact Ho|]. split; [reflexivity|].
    split; [exact Hz|]. intros [z0 Hz0]. exact (Hlook z0 Hz0).
Qed.

(** One call of [append] in such a store. *)
Lemma append_shared u s c tp tc owner obj complain o s' c' tr :
  name s = fresh_name u →
  tables c !! name s = Some tp →
  tables c !! citations_of (name s) = Some tc →
  dedup_inv pb owner tc →
  cites_only pb obj →
  append obj complain (s, c) = (o, (s', c'), tr) →
  ∃ tp' tc' owner',
    name s' = name s ∧
    tables c' !! name s = Some tp' ∧
    tables c' !! citations_of (name s) = Some tc' ∧
    dedup_inv pb owner' tc' ∧
    (∀ z, owner = Some z → owner' = Some z) ∧
    ((rowIds s' = rowIds s ∧ t_rows tp' = t_rows tp) ∨
     (∃ zr cit,
        rowIds s' = rowIds s ++ [VInt zr] ∧
        t_rows tp' =
          t_rows tp ++ [row_of (VInt zr) (primary_vals obj cit)] ∧
        (cites pb obj →
           ∃ z ids, owner' = Some z ∧ cit = VList (VInt <$> ids) ∧ z ∈ ids ∧
                    (is_Some owner →
                       looked_up (citations_of (name s)) pb tr)))).
Proof.
  intros Hname Htp Htc Hinv Hobj Hrun.
  assert (∃ citv, obj !! "citations" = Some citv) as [citv Hcit].
  { destruct (good_record_cases obj (proj1 Hobj)) as [H|(l & H & _)]; eauto. }
  destruct (failed c) eqn:Hf.
  { destruct (append_failed obj complain s c citv Hf Hcit)
      as (stm & Hfail & _).
    { destruct (good_record_cases obj (proj1 Hobj)) as [H|(l & H & Hall)].
      - left. congruence.
      - right. destruct (good_citations_papers l Hall) as [ps ->].
        exists ps. congruence. }
    rewrite Hfail in Hrun. injection Hrun as <- <- <- <-.
    exists tp, tc, owner. repeat (split; [reflexivity || assumption|]).
    split; [auto|]. left. split; reflexivity. }
  destruct (citation_phase_shared u s c tc owner obj citv Hname Hf Htc Hinv
              Hobj Hcit)
    as (cit & c1 & tr1 & tc1 & owner' & Hph & Hp1 & Htc1 & Hinv1 & Hkeep
        & Hshared).
  destruct (append_frame _ _ _ _ _ _ _ _ _ Hrun Hcit)
    as (o1 & c1' & tr1' & tr2 & Hph' & Htr & Hcit' & Hcases).
  rewrite Hph in Hph'. injection Hph' as <- <- <-.
  rewrite Hp1, Htp in Hcases. rewrite Htc1 in Hcit'.
  destruct Hcases as [[-> Hsame]|(cit' & zr & tb & serial & [= <-] & _ & _ &
                                  [= <-] & Htp' & ->)].
  - destruct (tables c' !! name s) as [tp'|] eqn:Htp'; [|discriminate].
    injection Hsame as Hsame.
    exists tp', tc1, owner'. repeat (split; [reflexivity || assumption|]).
    left. split; [reflexivity|exact Hsame].
  - eexists _, tc1, owner'. split; [reflexivity|]. split; [exact Htp'|].
    repeat (split; [reflexivity || assumption|]).
    right. exists zr, cit. split; [reflexivity|]. split; [reflexivity|].
    intros Hc. destruct (Hshared Hc) as (z & ids & Ho & Hci & Hz & Hlook).
    exists z, ids. repeat (split; [assumption|]).
    intros Hsome. rewrite Htr. apply looked_up_app_l, Hlook, Hsome.
Qed.

(** What holds of a store in which [pb] is cited, after any calls of
    [append]. *)
Lemma history_shared s c added refused :
  history s c added refused →
  Forall (λ e, cites_only pb e.1) added →
  Forall (cites_only pb) refused →
  ∃ u tp tc owner,
    name s = fresh_name u ∧
    tables c !! name s = Some tp ∧
    tables c !! citations_of (name s) = Some tc ∧
    dedup_inv pb owner tc ∧
    Forall2 (row_shares pb owner) added (t_rows tp) ∧
    (∀ i j ei ej,
       added !! i = Some ei → added !! j = Some ej → (i < j)%nat →
       cites pb ei.1 → cites pb ej.1 →
       looked_up (citations_of (name s)) pb ej.2).
Proof.
  induction 1 as [u c0 s c tr Hinit
                 |s c added refused obj complain s' c' tr id _ IH Happ Hids
                 |s c added refused obj complain o s' c' tr _ IH Happ Hids];
    intros Hadded Hrefused.
  - destruct (init_fresh_inv _ _ _ _ _ Hinit) as (-> & -> & _).
    exists u, (mkTable [] 0), (mkTable [] 0), None.
    split; [reflexivity|]. cbn [name fresh_store tables fresh_conn].
    split; [rewrite lookup_insert_ne by apply citations_of_ne;
            apply lookup_insert_eq|].
    split; [apply lookup_insert_eq|].
    split; [split; constructor|]. split; [constructor|].
    intros i j ei ej Hi. rewrite lookup_nil in Hi. discriminate.
  - apply Forall_app in Hadded as [Hadded Hobj].
    apply Forall_cons in Hobj as [Hobj _]. cbn [fst] in Hobj.
    destruct (IH Hadded Hrefused)
      as (u & tp & tc & owner & Hname & Htp & Htc & Hinv & Hrows & Hpairs).
    destruct (append_shared u s c tp tc owner obj complain _ s' c' tr
                Hname Htp Htc Hinv Hobj Happ)
      as (tp' & tc' & owner' & Hname' & Htp' & Htc' & Hinv' & Hkeep & Hcases).
    destruct Hcases as [[Hsame _]|(zr & cit & _ & Hrows' & Hshared)].
    { exfalso. rewrite Hsame in Hids. apply (f_equal List.length) in Hids.
      rewrite length_app in Hids. simpl in Hids. lia. }
    exists u, tp', tc', owner'. rewrite Hname'.
    split; [exact Hname|]. split; [exact Htp'|]. split; [exact Htc'|].
    split; [exact Hinv'|]. split.
    + rewrite Hrows'. apply Forall2_app.
      * eapply Forall2_impl; [exact Hrows|].
        intros e r. apply row_shares_keep, Hkeep.
      * constructor; [|constructor]. exists zr, cit.
        split; [reflexivity|]. intros Hc.
        destruct (Hshared Hc) as (z & ids & H1 & H2 & H3 & _). eauto.
    + intros i j ei ej Hi Hj Hlt Hci Hcj.
      pose proof (lookup_lt_Some _ _ _ Hj) as Hjlen.
      rewrite length_app in Hjlen. cbn [List.length] in Hjlen.
      destruct (decide (j = List.length added)) as [->|Hne].
      * rewrite lookup_app_l in Hi by exact Hlt.
        rewrite lookup_app_r, Nat.sub_diag in Hj by lia.
        injection Hj as <-. cbn [fst snd] in *.
        destruct (Hshared Hcj) as (z & ids & _ & _ & _ & Hlook).
        apply Hlook.
        destruct (Forall2_lookup_l _ _ _ _ _ Hrows Hi)
          as (r & _ & zr' & cit' & _ & Hown).
        destruct (Hown Hci) as (z' & ids' & -> & _). eauto.
      * rewrite lookup_app_l in Hi by lia.
        rewrite lookup_app_l in Hj by lia.
        exact (Hpairs i j ei ej Hi Hj Hlt Hci Hcj).
  - apply Forall_app in Hrefused as [Hrefused Hobj].
    apply Forall_cons in Hobj as [Hobj _].
    destruct (IH Hadded Hrefused)
      as (u & tp & tc & owner & Hname & Htp & Htc & Hinv & Hrows & Hpairs).
    destruct (append_shared u s c tp tc owner obj complain _ s' c' tr
                Hname Htp Htc Hinv Hobj Happ)
      as (tp' & tc' & owner' & Hname' & Htp' & Htc' & Hinv' & Hkeep & Hcases).
    destruct Hcases as [[_ Hsame]|(zr & cit & Hgrow & _)].
    2:{ exfalso. rewrite Hgrow in Hids. apply (f_equal List.length) in Hids.
        rewrite length_app in Hids. simpl in Hids. lia. }
    exists u, tp', tc', owner'. rewrite Hname'.
    split; [exact Hname|]. split; [exact Htp'|]. split; [exact Htc'|].
    split; [exact Hinv'|]. split; [|exact Hpairs].
    rewrite Hsame. eapply Forall2_impl; [exact Hrows|].
    intros e r. apply row_shares_keep, Hkeep.
Qed.

End shared_citation.

(** C1: two Records that cite the same Record, anywhere in a store.  A
    fresh store took any number of calls of [append]; all Records given
    to it hold values of the types of their columns, and each of their
    citations is the Record [pb], which has a natural key, or a Record
    that shares no natural key with [pb].  Let [pa] and [pc] be two
    Records that were added, [pa] before [pc], and that both cite [pb].
    Then the citation table holds exactly one row of [pb]: its rows are
    [pre ++ [row] ++ post], where [row] holds the fields of [pb] under the
    identifier [z] and no row of [pre] or [post] holds a natural key of
    [pb].  The rows of [pa] and [pc] in the primary table, at the
    positions of the two Records in the list, both hold [z] in their
    [citations] cell.  The statements the call for [pc] sent contain the
    INSERT of [pb], which violates a unique constraint, followed by COMMIT
    and by the SELECT of the identifier by the natural-key column that the
    message of the violation names. *)
Theorem shared_citation_stored_once (pb : Paper) (s : SQLPapers) (c : conn)
    (added : list (Paper * list stmt)) (refused : list Paper)
    (i j : nat) (pa pc : Paper) (tra trc : list stmt) :
  history s c added refused →
  typed_record pb = true →
  (∃ k, k ∈ natural_keys ∧ sql_eq (field pb k) (field pb k) = true) →
  Forall (λ e, cites_only pb e.1) added →
  Forall (cites_only pb) refused →
  added !! i = Some (pa, tra) → added !! j = Some (pc, trc) → (i < j)%nat →
  cites pb pa → cites pb pc →
  ∃ tc tp pre post z za zc ids_a ids_c,
    tables c !! citations_of (name s) = Some tc ∧
    t_rows tc = pre ++ [row_of (VInt z) (delete "citations" pb)] ++ post ∧
    Forall (λ r, touches pb r = false) (pre ++ post) ∧
    tables c !! name s = Some tp ∧
    t_rows tp !! i =
      Some (row_of (VInt za) (primary_vals pa (VList (VInt <$> ids_a)))) ∧
    z ∈ ids_a ∧
    t_rows tp !! j =
      Some (row_of (VInt zc) (primary_vals pc (VList (VInt <$> ids_c)))) ∧
    z ∈ ids_c ∧
    looked_up (citations_of (name s)) pb trc.
Proof.
  intros Hhist Hpb Hkey Hadded Hrefused Hi Hj Hlt Hca Hcc.
  destruct (history_shared pb Hpb Hkey s c added refused Hhist Hadded Hrefused)
    as (u & tp & tc & owner & _ & Htp & Htc & Hinv & Hrows & Hpairs).
  destruct (Forall2_lookup_l _ _ _ _ _ Hrows Hi)
    as (ra & Hra & za & cita & -> & Howna).
  destruct (Forall2_lookup_l _ _ _ _ _ Hrows Hj)
    as (rc & Hrc & zc & citc & -> & Hownc).
  destruct (Howna Hca) as (z & ids_a & -> & -> & Hza).
  destruct (Hownc Hcc) as (z' & ids_c & [= <-] & -> & Hzc).
  destruct Hinv as (_ & pre & post & Hrowsc & _ & Huntouched).
  exists tc, tp, pre, post, z, za, zc, ids_a, ids_c.
  split; [exact Htc|]. split; [exact Hrowsc|]. split; [exact Huntouched|].
  split; [exact Htp|]. split; [exact Hra|]. split; [exact Hza|].
  split; [exact Hrc|]. split; [exact Hzc|].
  exact (Hpairs i j _ _ Hi Hj Hlt Hca Hcc).
Qed.

(** A store that took four calls of [append]: a Record that cites
    [ex_shared], a Record without citations, the first Record again, which
    is refused, and another Record that cites [ex_shared]. *)
Definition ex_shared : Paper :=
  {[ "doi" := VStr "10.1/b"; "atitle" := VStr "Shared";
     "citations" := VNone ]}.
Definition ex_other : Paper :=
  {[ "doi" := VStr "10.1/x"; "citations" := VNone ]}.
Definition ex_third : Paper :=
  {[ "pmid" := VStr "77"; "citations" := VNone ]}.
Definition ex_pa : Paper :=
  {[ "doi" := VStr "10.1/a";
     "citations" := VList [VPaper ex_other; VPaper ex_shared] ]}.
Definition ex_pd : Paper :=
  {[ "doi" := VStr "10.1/d"; "date" := VInt 1999; "citations" := VNone ]}.
Definition ex_pc : Paper :=
  {[ "doi" := VStr "10.1/c";
     "citations" := VList [VPaper ex_shared; VPaper ex_third;
                           VPaper ex_shared] ]}.

Definition ex_run1 := append ex_pa true ex_fresh.
Definition ex_run2 := append ex_pd true ex_run1.1.2.
Definition ex_run3 := append ex_pa true ex_run2.1.2.
Definition ex_run4 := append ex_pc false ex_run3.1.2.

Lemma ex_history :
  history ex_run4.1.2.1 ex_run4.1.2.2
    [(ex_pa, ex_run1.2); (ex_pd, ex_run2.2); (ex_pc, ex_run4.2)] [ex_pa].
Proof.
  apply (history_added ex_run3.1.2.1 ex_run3.1.2.2
           [(ex_pa, ex_run1.2); (ex_pd, ex_run2.2)] [ex_pa] ex_pc false
           _ _ _ (VInt 4));
    [|vm_compute; reflexivity..].
  apply (history_refused ex_run2.1.2.1 ex_run2.1.2.2
           [(ex_pa, ex_run1.2); (ex_pd, ex_run2.2)] [] ex_pa true
           ex_run3.1.1 _ _ ex_run3.2);
    [|vm_compute; reflexivity..].
  apply (history_added ex_run1.1.2.1 ex_run1.1.2.2
           [(ex_pa, ex_run1.2)] [] ex_pd true _ _ _ (VInt 2));
    [|vm_compute; reflexivity..].
  apply (history_added ex_fresh.1 ex_fresh.2 [] [] ex_pa true
           _ _ _ (VInt 1));
    [|vm_compute; reflexivity..].
  apply (history_init 7%N (mkConn ∅ false "db") _ _
           (init None 7%N (mkConn ∅ false "db")).2).
  vm_compute. reflexivity.
Qed.

Lemma foreign_dec B X :
  forallb (λ k, negb (sql_eq (field X k) (field B k))) natural_keys = true →
  foreign B X.
Proof.
  intros H k Hk. rewrite forallb_forall in H.
  apply list_elem_of_In in Hk. apply H in Hk.
  apply negb_true_iff in Hk. exact Hk.
Qed.

Lemma ex_pa_only : cites_only ex_shared ex_pa.
Proof.
  split; [vm_compute; reflexivity|]. intros l Hl.
  assert (l = [VPaper ex_other; VPaper ex_shared]) as ->
    by (vm_compute in Hl; injection Hl as <-; vm_compute; reflexivity).
  constructor; [|constructor; [left; reflexivity|constructor]].
  right. exists ex_other. split; [reflexivity|].
  split; [vm_compute; reflexivity|].
  apply foreign_dec. vm_compute. reflexivity.
Qed.

Lemma ex_pd_only : cites_only ex_shared ex_pd.
Proof.
  split; [vm_compute; reflexivity|]. intros l Hl.
  vm_compute in Hl. discriminate.
Qed.

Lemma ex_pc_only : cites_only ex_shared ex_pc.
Proof.
  split; [vm_compute; reflexivity|]. intros l Hl.
  assert (l = [VPaper ex_shared; VPaper ex_third; VPaper ex_shared]) as ->
    by (vm_compute in Hl; injection Hl as <-; vm_compute; reflexivity).
  constructor; [left; reflexivity|].
  constructor; [|constructor; [left; reflexivity|constructor]].
  right. exists ex_third. split; [reflexivity|].
  split; [vm_compute; reflexivity|].
  apply foreign_dec. vm_compute. reflexivity.
Qed.

Lemma shared_citation_stored_once_witness :
  let s := ex_run4.1.2.1 in
  let c := ex_run4.1.2.2 in
  ∃ tc tp pre post z za zc ids_a ids_c,
    tables c !! citations_of (name s) = Some tc ∧
    t_rows tc =
      pre ++ [row_of (VInt z) (delete "citations" ex_shared)] ++ post ∧
    Forall (λ r, touches ex_shared r = false) (pre ++ post) ∧
    tables c !! name s = Some tp ∧
    t_rows tp !! 0%nat =
      Some (row_of (VInt za) (primary_vals ex_pa (VList (VInt <$> ids_a)))) ∧
    z ∈ ids_a ∧
    t_rows tp !! 2%nat =
      Some (row_of (VInt zc) (primary_vals ex_pc (VList (VInt <$> ids_c)))) ∧
    z ∈ ids_c ∧
    looked_up (citations_of (name s)) ex_shared ex_run4.2.
Proof.
  intros s c.
  apply (shared_citation_stored_once ex_shared s c
           [(ex_pa, ex_run1.2); (ex_pd, ex_run2.2); (ex_pc, ex_run4.2)]
           [ex_pa] 0 2 ex_pa ex_pc ex_run1.2 ex_run4.2 ex_history).
  - vm_compute. reflexivity.
  - exists "doi"%string. split; [|vm_compute; reflexivity].
    apply (bool_decide_unpack _). reflexivity.
  - constructor; [exact ex_pa_only|].
    constructor; [exact ex_pd_only|].
    constructor; [exact ex_pc_only|constructor].
  - constructor; [exact ex_pa_only|constructor].
  - reflexivity.
  - reflexivity.
  - lia.
  - exists [VPaper ex_other; VPaper ex_shared].
    split; [vm_compute; reflexivity|right; left].
  - exists [VPaper ex_shared; VPaper ex_third; VPaper ex_shared].
    split; [vm_compute; reflexivity|left].
Defined.
